(** * go-gecko: the event dispatch engine (engine.go)

    A shallow embedding of [Engine] and its three stage handlers
    ([handleInterceptor], [handleDriver], [handleOutput]), of the
    [Invoker] closure built by [prepareEnv], and of [Start] / [Stop].

    Go code is effectful: it mutates the session it is handed through a
    pointer, sends that pointer on the dispatcher's channels, logs, calls
    into components and may panic.  The embedding therefore runs in a small
    monad [M] over a [World] (the store of sessions, the dispatcher's
    channels and the clock) that also collects the observable [Event]s in
    program order and can end in a panic.

    engine.go is the whole of the engine at hand.  What it calls and is
    declared elsewhere in the repository (the session methods, the topic
    expressions, the registry, the context, the dispatcher, the comparator
    of [InterceptorSlice], [x.ForEach]) is modelled from the specification
    and marked as such where it is defined.

    Two further sources are embedded after the engine: the socket client
    of package network, and the interceptor and driver handlers of
    [GeckoEngine], the engine as it was before sessions and the
    dispatcher. *)

From stdpp Require Import gmap strings list fin_maps.
From Stdlib Require Import ZArith Sorted Permutation.

Local Open Scope string_scope.
Local Open Scope Z_scope.
Local Open Scope list_scope.
Local Open Scope stdpp_scope.

(** ** Values, errors and panics *)

(** Go's [interface{}] as far as the engine stores one: [time.Time] and
    [time.Duration] are kept apart because the stage attributes hold
    both. *)
Inductive Value :=
| VString (s : string)
| VInt (z : Z)
| VBytes (bs : list Z)
| VTime (unixNano : Z)
| VDuration (nanos : Z).

(** Go [error] values.  The engine compares an error with the package
    variable [ErrInterceptorDropped], the drop sentinel of section 4.5, by
    identity; every other error is an [ErrOther], whatever its message. *)
Inductive error :=
| ErrInterceptorDropped
| ErrOther (msg : string).

Definition isDropped (e : error) : bool :=
  match e with ErrInterceptorDropped => true | ErrOther _ => false end.

(** The argument of a Go [panic]: [recover()] hands it back as an
    [interface{}], and [checkRecover] asks whether it is an [error]. *)
Inductive PanicValue :=
| PanicError (e : error)
| PanicOther (v : Value).

(** What a call into a component does: it returns an [error] (possibly
    nil) or it panics. *)
Inductive Outcome :=
| Returns (err : option error)
| Panics (r : PanicValue).

(** ** Topic expressions *)

(** Modelled from the spec: the type [TopicExpr] and its method [matches]
    are not part of the sources at hand.  Section 4.1 makes [matches] a
    deterministic, side-effect-free predicate of the expression and the
    topic, so a compiled expression is represented by its source text and
    the predicate it denotes. *)
Record TopicExpr := {
  exprText : string;
  matches : string -> bool
}.

(** engine.go, [anyTopicMatches]: the first matching expression answers
    true, running off the end answers false. *)
Fixpoint anyTopicMatches (expected : list TopicExpr) (topic : string) : bool :=
  match expected with
  | [] => false
  | t :: rest => if matches t topic then true else anyTopicMatches rest topic
  end.

(** ** Sessions *)

Record Inbound := {
  Inbound_Topic : string;
  Inbound_Data : Value
}.

Record Outbound := {
  Outbound_Topic : string;
  Outbound_Data : gmap string Value
}.

(** The completion callback [OnTriggerCompleted] is code of the trigger:
    it is handed the outbound data and either returns or panics. *)
Definition OnTriggerCompleted := gmap string Value -> option PanicValue.

(** [sessionImpl] as the struct literal in [prepareEnv] fills it
    ([attrLock] only serialises concurrent access and has no content). *)
Record sessionImpl := {
  timestamp : Z;
  attributes : gmap string Value;
  topic : string;
  contextId : Z;
  inbound : Inbound;
  outbound : Outbound;
  onCompletedFunc : OnTriggerCompleted
}.

(** A [*TriggerEvent] as the Invoker reads it. *)
Record TriggerEvent := {
  income_topic : string;
  income_data : Value
}.

(** ** Components *)

(** What a [Handle] leaves behind.  A component reaches the session only
    through the [Session] interface, so it can change the attributes and
    the outbound message, and nothing else of the [sessionImpl]; the
    effect is there whether [Handle] returns or panics.  A component's own
    state is outside the model: [Handle] is a function of the session it
    is handed. *)
Record Handled := {
  handled_attributes : gmap string Value;
  handled_outbound : Outbound;
  handled_outcome : Outcome
}.

(** The two lifecycle methods the engine calls on a component. *)
Inductive LifecycleMethod := MethodOnStart | MethodOnStop.

(** The lifecycle side of a component: its class name (what
    [x.SimpleClassName] prints) and, for [OnStart] and for [OnStop],
    whether the call is still running at the lifecycle deadline and how it
    ends, by returning ([None]) or by a panic.  What the call does to the
    component's own state is outside the model. *)
Record Lifecycle := {
  className : string;
  OnStart_overruns : bool;
  OnStart_panics : option PanicValue;
  OnStop_overruns : bool;
  OnStop_panics : option PanicValue
}.

(** A [HookFunc], a function of the engine registered on it: its name
    and how a call of it ends, by returning ([None]) or by a panic. *)
Record HookFunc := {
  hookName : string;
  hook_panics : option PanicValue
}.

Definition Plugin := Lifecycle.
Definition ProtoPipeline := Lifecycle.
Definition Trigger := Lifecycle.

Definition ProtoPipelineSelector := string -> option ProtoPipeline.

Record Interceptor := {
  Interceptor_name : string;
  GetPriority : Z;
  Interceptor_GetTopicExpr : list TopicExpr;
  Interceptor_Handle : sessionImpl -> Handled
}.

Record Driver := {
  Driver_lifecycle : Lifecycle;
  Driver_GetTopicExpr : list TopicExpr;
  Driver_Handle : sessionImpl -> ProtoPipelineSelector -> Handled
}.

Definition InterceptorSlice := list Interceptor.

(** Modelled from the spec: the methods of [InterceptorSlice]
    ([Len], [Less], [Swap]) are not part of the sources at hand.  Section
    4.5 step 3 fixes the order as ascending, the lower numeric priority
    first, so [Less] compares the priorities with [<]. *)
Definition InterceptorSlice_Less (a b : Interceptor) : bool :=
  GetPriority a <? GetPriority b.

(** Go's [sort.Sort]: "sorts data in ascending order as determined by the
    Less method ... The sort is not guaranteed to be stable."  Which
    algorithm runs depends on the Go release, so the engine is verified
    against the contract: the result is a permutation of the argument in
    which no later element is [Less] than an earlier one. *)
Class SortSort := {
  sort_Sort : InterceptorSlice -> InterceptorSlice;
  sort_Sort_perm : forall l, Permutation (sort_Sort l) l;
  sort_Sort_sorted : forall l,
    StronglySorted (fun a b => InterceptorSlice_Less b a = false) (sort_Sort l)
}.

(** The engine with its registry and the two switches of its context.
    Modelled from the spec: [Registration], which [Engine] embeds, is not
    part of the sources at hand.  Section 3: every role keeps its
    instances in registration order, the pipelines are keyed by
    protocol. *)
Record Engine := {
  plugins : list Plugin;
  pipelines : gmap string ProtoPipeline;
  interceptors : list Interceptor;
  drivers : list Driver;
  triggers : list Trigger;
  startBeforeHooks : list HookFunc;
  startAfterHooks : list HookFunc;
  stopBeforeHooks : list HookFunc;
  stopAfterHooks : list HookFunc;
  IsFailFastEnabled : bool;
  IsVerboseEnabled : bool
}.

(** ** The world and the observable events *)

Inductive Stage := StageLv0 | StageLv1 | StageLv2.

#[global] Instance Stage_eq_dec : EqDecision Stage.
Proof. solve_decision. Defined.

(** Modelled from the spec: [Dispatcher] is not part of the sources at
    hand.  Section 4.3: three ordered stages, each a FIFO queue holding
    session pointers.  The capacity only decides when a sender blocks and
    is left out. *)
Record Dispatcher := {
  Lv0 : list nat;
  Lv1 : list nat;
  Lv2 : list nat
}.

(** Sessions live in a store and are passed around by address, as the
    [*sessionImpl] pointers of the source are.  The clock is the sequence
    of readings that successive calls of [time.Now] return. *)
Record World := {
  sessions : gmap nat sessionImpl;
  dispatcher : Dispatcher;
  clock : nat -> Z;
  clockReads : nat
}.

Inductive Level := LevelDebug | LevelInfo | LevelWarn | LevelError | LevelPanic.

#[global] Instance Level_eq_dec : EqDecision Level.
Proof. solve_decision. Defined.

(** What engine code does that can be observed from outside it: a log
    record, a call into a component with what the call did, a write of a
    session attribute (attributes are read by concurrent observers), a
    send on a stage channel, a call of a completion callback with its
    argument, a hook, a lifecycle call, the shutdown signal. *)
Inductive Event :=
| EvLog (lvl : Level) (msg : string)
| EvInterceptorHandle (p : nat) (it : Interceptor) (o : Outcome)
| EvDriverHandle (p : nat) (d : Driver) (o : Outcome)
| EvAddAttribute (p : nat) (key : string) (v : Value)
| EvSend (lv : Stage) (p : nat)
| EvCompleted (p : nat) (data : gmap string Value) (o : option PanicValue)
| EvHook (hook : string)
| EvLifecycle (msg : string) (method : LifecycleMethod) (component : string)
| EvShutdown.

(** ** The monad of engine code *)

Inductive Res (A : Type) :=
| Ok (a : A)
| Panicked (r : PanicValue).
Arguments Ok {A} a.
Arguments Panicked {A} r.

Definition M (A : Type) : Type := World -> Res A * World * list Event.

Definition ret {A} (a : A) : M A := fun w => (Ok a, w, []).

Definition bind {A B} (m : M A) (k : A -> M B) : M B :=
  fun w =>
    match m w with
    | (Ok a, w1, t1) =>
        match k a w1 with
        | (r, w2, t2) => (r, w2, t1 ++ t2)
        end
    | (Panicked r, w1, t1) => (Panicked r, w1, t1)
    end.

Notation "'do' x <- m ; k" := (bind m (fun x => k))
  (at level 10, x name, m at level 100, k at level 200, only parsing).

Definition panic {A} (r : PanicValue) : M A := fun w => (Panicked r, w, []).

Definition emit (e : Event) : M unit := fun w => (Ok tt, w, [e]).

(** [defer func() { ...; recover() ... }()] around a body: the deferred
    function runs on every exit of the body and is handed what
    [recover()] returns there, nil after a normal exit and the panic value
    otherwise.  When the deferred function itself returns, the panic (if
    any) is over and the enclosing function returns normally; when it
    panics, that panic leaves the enclosing function. *)
Definition deferRecover (deferred : option PanicValue -> M unit) (body : M unit)
  : M unit :=
  fun w =>
    match body w with
    | (Ok _, w1, t1) =>
        match deferred None w1 with
        | (r, w2, t2) => (r, w2, t1 ++ t2)
        end
    | (Panicked v, w1, t1) =>
        match deferred (Some v) w1 with
        | (r, w2, t2) => (r, w2, t1 ++ t2)
        end
    end.

(** A [defer] whose function does not call [recover()]: it runs on every
    exit, and a panic of the body goes on afterwards. *)
Definition deferPlain (deferred : M unit) (body : M unit) : M unit :=
  fun w =>
    match body w with
    | (Ok _, w1, t1) =>
        match deferred w1 with
        | (r, w2, t2) => (r, w2, t1 ++ t2)
        end
    | (Panicked v, w1, t1) =>
        match deferred w1 with
        | (Ok _, w2, t2) => (Panicked v, w2, t1 ++ t2)
        | (Panicked v', w2, t2) => (Panicked v', w2, t1 ++ t2)
        end
    end.

(** Modelled from the spec: [x.ForEach] is not part of the sources at
    hand.  Section 4.8 has the components of a role visited in their
    fixed order, so the elements of the list are visited front to back,
    like the [for el := l.Front(); el != nil; el = el.Next()] loops of the
    handlers. *)
Fixpoint ForEach {A} (l : list A) (f : A -> M unit) : M unit :=
  match l with
  | [] => ret tt
  | it :: rest => do _ <- f it; ForEach rest f
  end.

(** ** Primitive operations *)

Definition setSessions (w : World) (ss : gmap nat sessionImpl) : World :=
  {| sessions := ss; dispatcher := dispatcher w;
     clock := clock w; clockReads := clockReads w |}.

Definition setDispatcher (w : World) (d : Dispatcher) : World :=
  {| sessions := sessions w; dispatcher := d;
     clock := clock w; clockReads := clockReads w |}.

(** [time.Now()]: the next reading of the clock. *)
Definition time_Now : M Z :=
  fun w =>
    (Ok (clock w (clockReads w)),
     {| sessions := sessions w; dispatcher := dispatcher w;
        clock := clock w; clockReads := S (clockReads w) |},
     []).

(** The runtime error of a method call through a nil pointer. *)
Definition nilDereference : PanicValue :=
  PanicError (ErrOther "runtime error: invalid memory address or nil pointer dereference").

Definition load (p : nat) : M sessionImpl :=
  fun w =>
    match sessions w !! p with
    | Some s => (Ok s, w, [])
    | None => (Panicked nilDereference, w, [])
    end.

Definition store (p : nat) (s : sessionImpl) : M unit :=
  fun w => (Ok tt, setSessions w (<[p := s]> (sessions w)), []).

(** [&sessionImpl{...}]: a new object at an address not in use. *)
Definition new (s : sessionImpl) : M nat :=
  fun w =>
    let p := fresh (dom (sessions w)) in
    (Ok p, setSessions w (<[p := s]> (sessions w)), []).

(** [ch <- session] on the channel of a stage. *)
Definition enqueue (lv : Stage) (p : nat) (d : Dispatcher) : Dispatcher :=
  match lv with
  | StageLv0 => {| Lv0 := Lv0 d ++ [p]; Lv1 := Lv1 d; Lv2 := Lv2 d |}
  | StageLv1 => {| Lv0 := Lv0 d; Lv1 := Lv1 d ++ [p]; Lv2 := Lv2 d |}
  | StageLv2 => {| Lv0 := Lv0 d; Lv1 := Lv1 d; Lv2 := Lv2 d ++ [p] |}
  end.

Definition send (lv : Stage) (p : nat) : M unit :=
  fun w => (Ok tt, setDispatcher w (enqueue lv p (dispatcher w)), [EvSend lv p]).

(** A zerolog event is written by [Msg] / [Msgf].  An event of the panic
    level, the one [log.Panic] starts, then calls [panic] with the message:
    this is zerolog's documented behaviour and what makes the logger of
    [failFastLogger] fail fast.  Messages are rendered in English. *)
Definition Msgf (lvl : Level) (msg : string) : M unit :=
  do _ <- emit (EvLog lvl msg);
  match lvl with
  | LevelPanic => panic (PanicOther (VString msg))
  | _ => ret tt
  end.

(** ** Session methods *)

(** Modelled from the spec: the methods of [sessionImpl] are not part of
    the sources at hand.  Section 3 and 4.2: [Topic] reads the topic,
    [AddAttribute] writes one attribute and never fails, [Escaped] is the
    time elapsed since the creation timestamp, [AddDataField] adds one
    field to the outbound mapping. *)
Definition Session_Topic (p : nat) : M string :=
  do s <- load p; ret (topic s).

Definition setAttributes (s : sessionImpl) (a : gmap string Value) : sessionImpl :=
  {| timestamp := timestamp s; attributes := a; topic := topic s;
     contextId := contextId s; inbound := inbound s; outbound := outbound s;
     onCompletedFunc := onCompletedFunc s |}.

Definition setOutbound (s : sessionImpl) (o : Outbound) : sessionImpl :=
  {| timestamp := timestamp s; attributes := attributes s; topic := topic s;
     contextId := contextId s; inbound := inbound s; outbound := o;
     onCompletedFunc := onCompletedFunc s |}.

Definition Session_AddAttribute (p : nat) (key : string) (v : Value) : M unit :=
  do s <- load p;
  do _ <- store p (setAttributes s (<[key := v]> (attributes s)));
  emit (EvAddAttribute p key v).

Definition Session_Escaped (p : nat) : M Z :=
  do s <- load p;
  do now <- time_Now;
  ret (now - timestamp s).

Definition Outbound_AddDataField (o : Outbound) (key : string) (v : Value) : Outbound :=
  {| Outbound_Topic := Outbound_Topic o;
     Outbound_Data := <[key := v]> (Outbound_Data o) |}.

Definition Session_AddDataField (p : nat) (key : string) (v : Value) : M unit :=
  do s <- load p;
  store p (setOutbound s (Outbound_AddDataField (outbound s) key v)).

(** ** Context switches *)

(** Modelled from the spec: [contextImpl] is not part of the sources at
    hand.  [OnIfLogV] runs its argument when verbose logging is on,
    [OnIfFailFast] when fail-fast mode is on (section 7). *)
Definition OnIfLogV (en : Engine) (f : M unit) : M unit :=
  if IsVerboseEnabled en then f else ret tt.

Definition OnIfFailFast (en : Engine) (f : M unit) : M unit :=
  if IsFailFastEnabled en then f else ret tt.

(** engine.go, [failFastLogger]. *)
Definition failFastLogger (en : Engine) : Level :=
  if IsFailFastEnabled en then LevelPanic else LevelError.

(** engine.go, [checkRecover]: only a panic value that is an [error] is
    logged; the panic is raised again under fail-fast. *)
Definition checkRecover (en : Engine) (r : option PanicValue) (msg : string) : M unit :=
  match r with
  | Some v =>
      do _ <- match v with
              | PanicError _ => Msgf LevelError msg
              | PanicOther _ => ret tt
              end;
      OnIfFailFast en (panic v)
  | None => ret tt
  end.

(** ** Calls into components *)

Definition boolText (b : bool) : string := if b then "true" else "false".

(** [it.Handle(session, en.ctx)]: whatever the interceptor did to the
    session is in the store before its result is looked at. *)
Definition callInterceptor (it : Interceptor) (p : nat) : M (option error) :=
  do s <- load p;
  let h := Interceptor_Handle it s in
  do _ <- store p (setOutbound (setAttributes s (handled_attributes h)) (handled_outbound h));
  do _ <- emit (EvInterceptorHandle p it (handled_outcome h));
  match handled_outcome h with
  | Returns err => ret err
  | Panics r => panic r
  end.

(** [en.selector], set up in [prepareEnv]: a lookup in the pipelines. *)
Definition selector (en : Engine) : ProtoPipelineSelector :=
  fun proto => pipelines en !! proto.

(** [driver.Handle(session, en.selector, en.ctx)]. *)
Definition callDriver (en : Engine) (driver : Driver) (p : nat) : M (option error) :=
  do s <- load p;
  let h := Driver_Handle driver s (selector en) in
  do _ <- store p (setOutbound (setAttributes s (handled_attributes h)) (handled_outbound h));
  do _ <- emit (EvDriverHandle p driver (handled_outcome h));
  match handled_outcome h with
  | Returns err => ret err
  | Panics r => panic r
  end.

(** engine.go, line 298: the session's [onCompletedFunc] is called with
    [session.Outbound().Data]. *)
Definition callOnCompleted (p : nat) : M unit :=
  do s <- load p;
  let data := Outbound_Data (outbound s) in
  let o := onCompletedFunc s data in
  do _ <- emit (EvCompleted p data o);
  match o with
  | None => ret tt
  | Some r => panic r
  end.

(** ** The interceptor stage *)

(** engine.go, lines 216-229: the first loop of [handleInterceptor]
    appends every interceptor whose topic expressions match. *)
Fixpoint collectMatches (en : Engine) (p : nat) (els : list Interceptor)
    (matched : InterceptorSlice) : M InterceptorSlice :=
  match els with
  | [] => ret matched
  | interceptor :: rest =>
      do tp <- Session_Topic p;
      let match_ := anyTopicMatches (Interceptor_GetTopicExpr interceptor) tp in
      do _ <- OnIfLogV en
                (Msgf LevelDebug
                   ("interceptor dispatch: interceptor[" +:+ Interceptor_name interceptor
                    +:+ "], topic: " +:+ tp +:+ ", Matches: " +:+ boolText match_));
      collectMatches en p rest
        (if match_ then matched ++ [interceptor] else matched)
  end.

(** How the second loop is left: by running off its end, or by the
    [return] of the drop branch. *)
Inductive LoopExit := LoopEnd | LoopReturn.

(** engine.go, lines 232-246. *)
Fixpoint runMatches (en : Engine) (p : nat) (matched : InterceptorSlice) : M LoopExit :=
  match matched with
  | [] => ret LoopEnd
  | it :: rest =>
      do err <- callInterceptor it p;
      match err with
      | None => runMatches en p rest
      | Some e =>
          if isDropped e then
            do _ <- Msgf LevelDebug "interceptor dropped the event";
            do _ <- Session_AddDataField p "error" (VString "InterceptorDropped");
            do _ <- send StageLv2 p;
            ret LoopReturn
          else
            do _ <- Msgf (failFastLogger en) "interceptor error";
            runMatches en p rest
      end
  end.

Section Handlers.

Context `{!SortSort}.

(** The body of [handleInterceptor] below its [defer]. *)
Definition handleInterceptor_body (en : Engine) (p : nat) : M unit :=
  do matched <- collectMatches en p (interceptors en) [];
  do exit <- runMatches en p (sort_Sort matched);
  match exit with
  | LoopReturn => ret tt
  | LoopEnd => send StageLv1 p
  end.

(** The function deferred by a stage handler. *)
Definition stageDeferred (en : Engine) (p : nat) (endKey msg : string)
    (r : option PanicValue) : M unit :=
  do escaped <- Session_Escaped p;
  do _ <- Session_AddAttribute p endKey (VDuration escaped);
  checkRecover en r msg.

(** engine.go, [handleInterceptor]. *)
Definition handleInterceptor (en : Engine) (p : nat) : M unit :=
  do _ <- OnIfLogV en
            (do tp <- Session_Topic p;
             Msgf LevelDebug ("Interceptor dispatch, Topic: " +:+ tp));
  do now <- time_Now;
  do _ <- Session_AddAttribute p "Interceptor.Start" (VTime now);
  deferRecover
    (stageDeferred en p "Interceptor.End" "Interceptor-Goroutine internal error")
    (handleInterceptor_body en p).

(** ** The driver stage *)

(** engine.go, lines 263-280. *)
Fixpoint runDrivers (en : Engine) (p : nat) (els : list Driver) : M unit :=
  match els with
  | [] => ret tt
  | driver :: rest =>
      do tp <- Session_Topic p;
      let match_ := anyTopicMatches (Driver_GetTopicExpr driver) tp in
      do _ <- OnIfLogV en
                (Msgf LevelDebug
                   ("driver dispatch: driver[" +:+ className (Driver_lifecycle driver)
                    +:+ "], topic: " +:+ tp +:+ ", Matches: " +:+ boolText match_));
      do _ <- (if match_ then
                 do err <- callDriver en driver p;
                 match err with
                 | Some _ => Msgf (failFastLogger en) "driver error"
                 | None => ret tt
                 end
               else ret tt);
      runDrivers en p rest
  end.

Definition handleDriver_body (en : Engine) (p : nat) : M unit :=
  do _ <- runDrivers en p (drivers en);
  send StageLv2 p.

(** engine.go, [handleDriver]. *)
Definition handleDriver (en : Engine) (p : nat) : M unit :=
  do _ <- OnIfLogV en
            (do tp <- Session_Topic p;
             Msgf LevelDebug ("Driver dispatch, Topic: " +:+ tp));
  do now <- time_Now;
  do _ <- Session_AddAttribute p "Driver.Start" (VTime now);
  deferRecover
    (stageDeferred en p "Driver.End" "Driver-Goroutine internal error")
    (handleDriver_body en p).

(** ** The output stage *)

Definition handleOutput_body (p : nat) : M unit := callOnCompleted p.

(** engine.go, [handleOutput]. *)
Definition handleOutput (en : Engine) (p : nat) : M unit :=
  do _ <- OnIfLogV en
            (do tp <- Session_Topic p;
             do _ <- Msgf LevelDebug ("Output dispatch, Topic: " +:+ tp);
             do s <- load p;
             ForEach (map_to_list (attributes s))
               (fun kv => Msgf LevelDebug ("SessionAttr: " +:+ kv.1)));
  do now <- time_Now;
  do _ <- Session_AddAttribute p "Output.Start" (VTime now);
  deferRecover
    (stageDeferred en p "Output.End" "Output-Goroutine internal error")
    (handleOutput_body p).

(** The three handlers share their frame: an optional verbose log, the
    start attribute, and the body under the deferred function. *)
Definition stageBody (lv : Stage) (en : Engine) (p : nat) : M unit :=
  match lv with
  | StageLv0 => handleInterceptor_body en p
  | StageLv1 => handleDriver_body en p
  | StageLv2 => handleOutput_body p
  end.

(** ** The Invoker *)

(** engine.go, [prepareEnv], lines 61-81.  The closure returns nothing;
    the embedding returns the address of the session it made so that
    statements can name it. *)
Definition invoker (en : Engine) (income : TriggerEvent) (cbFunc : OnTriggerCompleted)
  : M nat :=
  do _ <- OnIfLogV en
            (Msgf LevelDebug ("Invoker received a request, Topic: " +:+ income_topic income));
  do now <- time_Now;
  do p <- new {| timestamp := now;
                 attributes := ∅;
                 topic := income_topic income;
                 contextId := 0;
                 inbound := {| Inbound_Topic := income_topic income;
                               Inbound_Data := income_data income |};
                 outbound := {| Outbound_Topic := income_topic income;
                                Outbound_Data := ∅ |};
                 onCompletedFunc := cbFunc |};
  do _ <- send StageLv0 p;
  ret p.

(** ** The dispatcher *)

Definition stageHandler (lv : Stage) : Engine -> nat -> M unit :=
  match lv with
  | StageLv0 => handleInterceptor
  | StageLv1 => handleDriver
  | StageLv2 => handleOutput
  end.

(** One receive of the dispatch loop: the head of the first channel that
    has a session, together with the dispatcher without it. *)
Definition receive (d : Dispatcher) : option (Stage * nat * Dispatcher) :=
  match Lv0 d, Lv1 d, Lv2 d with
  | p :: q0, q1, q2 => Some (StageLv0, p, {| Lv0 := q0; Lv1 := q1; Lv2 := q2 |})
  | [], p :: q1, q2 => Some (StageLv1, p, {| Lv0 := []; Lv1 := q1; Lv2 := q2 |})
  | [], [], p :: q2 => Some (StageLv2, p, {| Lv0 := []; Lv1 := []; Lv2 := q2 |})
  | [], [], [] => None
  end.

(** How a run of the dispatch loop ends: no session is left in any
    channel, a handler let a panic out (which ends the process), or the
    bound on the number of receives was reached. *)
Inductive ServeEnd :=
| Drained
| Crashed (r : PanicValue)
| Unfinished.

(** Modelled from the spec: [Dispatcher.Serve] is not part of the sources
    at hand.  Section 4.3: the loop takes a session from a stage's channel
    and runs that stage's handler on it in a task of its own.  Here the
    tasks run one after the other, each to its end, which is one of the
    schedules the source allows; a session's own stages come in the same
    order under every schedule. *)
Fixpoint Serve (fuel : nat) (en : Engine) (w : World) : ServeEnd * World * list Event :=
  match fuel with
  | O => (match receive (dispatcher w) with None => Drained | Some _ => Unfinished end,
          w, [])
  | S fuel' =>
      match receive (dispatcher w) with
      | None => (Drained, w, [])
      | Some (lv, p, d) =>
          match stageHandler lv en p (setDispatcher w d) with
          | (Ok _, w1, t1) =>
              match Serve fuel' en w1 with
              | (e, w2, t2) => (e, w2, t1 ++ t2)
              end
          | (Panicked r, w1, t1) => (Crashed r, w1, t1)
          end
      end
  end.

End Handlers.

(** ** Lifecycle *)

(** The [func()] that [CheckTimeout] is handed: a lifecycle method bound
    to its receiver, [it.(Plugin).OnStart] and the like. *)
Record Action := {
  action_method : LifecycleMethod;
  action_receiver : Lifecycle
}.

Definition OnStart (c : Lifecycle) : Action :=
  {| action_method := MethodOnStart; action_receiver := c |}.

Definition OnStop (c : Lifecycle) : Action :=
  {| action_method := MethodOnStop; action_receiver := c |}.

Definition action_overruns (a : Action) : bool :=
  match action_method a with
  | MethodOnStart => OnStart_overruns (action_receiver a)
  | MethodOnStop => OnStop_overruns (action_receiver a)
  end.

Definition action_panics (a : Action) : option PanicValue :=
  match action_method a with
  | MethodOnStart => OnStart_panics (action_receiver a)
  | MethodOnStop => OnStop_panics (action_receiver a)
  end.

(** Modelled from the spec: [Context.CheckTimeout] is not part of the
    sources at hand.  Section 4.8: the call is issued, and a warning is
    logged when it has not returned within the deadline; the call is not
    cancelled.  The section has no recovery in the guard, so a panic of
    the call leaves through it. *)
Definition CheckTimeout (msg : string) (action : Action) : M unit :=
  do _ <- emit (EvLifecycle msg (action_method action)
                  (className (action_receiver action)));
  do _ <- (if action_overruns action
           then Msgf LevelWarn (msg +:+ " timed out") else ret tt);
  match action_panics action with
  | Some v => panic v
  | None => ret tt
  end.

(** engine.go, [checkDefTimeout]. *)
Definition checkDefTimeout (msg : string) (act : Action) : M unit :=
  CheckTimeout msg act.

(** [it.(HookFunc)(en)]: the hook runs in place, nothing recovers around
    it. *)
Definition callHook (it : HookFunc) : M unit :=
  do _ <- emit (EvHook (hookName it));
  match hook_panics it with
  | Some v => panic v
  | None => ret tt
  end.

(** [for _, pipeline := range en.pipelines]: Go leaves the order of a map
    iteration open; the embedding walks the entries in the order of
    [map_to_list]. *)
Definition rangePipelines (en : Engine) : list ProtoPipeline :=
  (map_to_list (pipelines en)).*2.

(** engine.go, [Start].  The [defer] is registered after the before
    hooks have run: a panic of one of them leaves [Start] without the
    deferred function. *)
Definition Start (en : Engine) : M unit :=
  do _ <- Msgf LevelInfo "Engine starting...";
  do _ <- ForEach (startBeforeHooks en) callHook;
  deferPlain
    (do _ <- ForEach (startAfterHooks en) callHook;
     Msgf LevelInfo "Engine starting...OK")
    (do _ <- ForEach (plugins en) (fun it =>
               checkDefTimeout "Plugin.Start" (OnStart it));
     do _ <- ForEach (rangePipelines en) (fun pipeline =>
               checkDefTimeout "Pipeline.Start" (OnStart pipeline));
     do _ <- ForEach (drivers en) (fun it =>
               checkDefTimeout "Driver.Start" (OnStart (Driver_lifecycle it)));
     ForEach (triggers en) (fun it =>
       CheckTimeout "Trigger.Start" (OnStart it))).

(** engine.go, [Stop]. *)
Definition Stop (en : Engine) : M unit :=
  do _ <- Msgf LevelInfo "Engine stopping...";
  do _ <- ForEach (stopBeforeHooks en) callHook;
  deferPlain
    (do _ <- ForEach (stopAfterHooks en) callHook;
     do _ <- emit EvShutdown;
     Msgf LevelInfo "Engine stopping...OK")
    (do _ <- ForEach (triggers en) (fun it =>
               CheckTimeout "Trigger.Stop" (OnStop it));
     do _ <- ForEach (drivers en) (fun it =>
               checkDefTimeout "Driver.Stop" (OnStop (Driver_lifecycle it)));
     do _ <- ForEach (rangePipelines en) (fun pipeline =>
               checkDefTimeout "Pipeline.Stop" (OnStop pipeline));
     ForEach (plugins en) (fun it =>
       checkDefTimeout "Plugin.Stop" (OnStop it))).

(** ** An instance of [sort.Sort] *)

(** Insertion sort, which Go's [sort] package runs on short slices. *)
Fixpoint insertSorted (x : Interceptor) (l : InterceptorSlice) : InterceptorSlice :=
  match l with
  | [] => [x]
  | y :: rest =>
      if InterceptorSlice_Less y x then y :: insertSorted x rest else x :: y :: rest
  end.

Definition insertionSort (l : InterceptorSlice) : InterceptorSlice :=
  foldr insertSorted [] l.

(** ** A small engine to run the definitions on *)

Module Sample.

Definition exact (t : string) : TopicExpr :=
  {| exprText := t; matches := String.eqb t |}.

(** A [Handle] that adds one outbound field. *)
Definition adds (key : string) (v : Value) (o : Outcome) (s : sessionImpl) : Handled :=
  {| handled_attributes := attributes s;
     handled_outbound := Outbound_AddDataField (outbound s) key v;
     handled_outcome := o |}.

Definition interceptor (name : string) (prio : Z) (t : string) (o : Outcome) : Interceptor :=
  {| Interceptor_name := name; GetPriority := prio;
     Interceptor_GetTopicExpr := [exact t];
     Interceptor_Handle := adds name (VInt prio) o |}.

Definition component (name : string) : Lifecycle :=
  {| className := name;
     OnStart_overruns := false; OnStart_panics := None;
     OnStop_overruns := false; OnStop_panics := None |}.

Definition driver (name : string) (t : string) (o : Outcome) : Driver :=
  {| Driver_lifecycle := component name;
     Driver_GetTopicExpr := [exact t];
     Driver_Handle := fun s _ => adds name (VString "driven") o s |}.

Definition engine (its : list Interceptor) (ds : list Driver) (failFast : bool) : Engine :=
  {| plugins := [component "plugin"];
     pipelines := {[ "udp" := component "udp-pipeline" ]};
     interceptors := its;
     drivers := ds;
     triggers := [component "trigger"];
     startBeforeHooks := []; startAfterHooks := [];
     stopBeforeHooks := []; stopAfterHooks := [];
     IsFailFastEnabled := failFast;
     IsVerboseEnabled := false |}.

(** The scenarios of section 8. *)
Definition dropping : Interceptor :=
  interceptor "dropping" 10 "x" (Returns (Some ErrInterceptorDropped)).
Definition passing : Interceptor :=
  interceptor "passing" 20 "x" (Returns None).
Definition failing : Interceptor :=
  interceptor "failing" 10 "x" (Returns (Some (ErrOther "refused"))).
Definition panicking : Interceptor :=
  interceptor "panicking" 10 "x" (Panics (PanicOther (VString "boom"))).

Definition driverA : Driver := driver "A" "x" (Returns (Some (ErrOther "unreachable"))).
Definition driverB : Driver := driver "B" "x" (Returns None).

Definition dropEngine : Engine := engine [dropping; passing] [driverB] false.
Definition priorityEngine : Engine :=
  engine [interceptor "i10" 10 "x" (Returns None);
          interceptor "i5" 5 "x" (Returns None);
          interceptor "i20" 20 "x" (Returns None);
          interceptor "other" 1 "y" (Returns None)] [] false.
Definition errorEngine (failFast : bool) : Engine :=
  engine [failing; passing] [driverB] failFast.
Definition fanOutEngine (failFast : bool) : Engine :=
  engine [] [driverA; driverB; driver "C" "y" (Returns None)] failFast.
Definition panicEngine : Engine := engine [panicking] [driverB] false.

(** Components and hooks that misbehave in the lifecycle: a plugin whose
    [OnStart] panics, a trigger whose [OnStop] panics after the deadline,
    a hook that panics. *)
Definition brokenPlugin : Plugin :=
  {| className := "broken";
     OnStart_overruns := false;
     OnStart_panics := Some (PanicOther (VString "no device"));
     OnStop_overruns := false; OnStop_panics := None |}.

Definition stuckTrigger : Trigger :=
  {| className := "stuck";
     OnStart_overruns := false; OnStart_panics := None;
     OnStop_overruns := true;
     OnStop_panics := Some (PanicOther (VString "closed twice")) |}.

Definition hook (name : string) : HookFunc :=
  {| hookName := name; hook_panics := None |}.

Definition brokenHook : HookFunc :=
  {| hookName := "audit"; hook_panics := Some (PanicOther (VString "no audit log")) |}.

(** An engine whose second plugin and whose first trigger misbehave. *)
Definition lifecycleEngine : Engine :=
  {| plugins := [component "plugin"; brokenPlugin; component "late"];
     pipelines := {[ "udp" := component "udp-pipeline" ]};
     interceptors := [];
     drivers := [driverB];
     triggers := [stuckTrigger; component "trigger"];
     startBeforeHooks := [hook "before"]; startAfterHooks := [hook "after"];
     stopBeforeHooks := [hook "before"]; stopAfterHooks := [hook "after"];
     IsFailFastEnabled := false;
     IsVerboseEnabled := false |}.

(** The drop engine with a start-before hook that panics. *)
Definition hookedEngine : Engine :=
  {| plugins := plugins dropEngine;
     pipelines := pipelines dropEngine;
     interceptors := interceptors dropEngine;
     drivers := drivers dropEngine;
     triggers := triggers dropEngine;
     startBeforeHooks := [brokenHook]; startAfterHooks := [hook "after"];
     stopBeforeHooks := []; stopAfterHooks := [brokenHook];
     IsFailFastEnabled := false;
     IsVerboseEnabled := false |}.

Definition session (t : string) : sessionImpl :=
  {| timestamp := 100; attributes := ∅; topic := t; contextId := 0;
     inbound := {| Inbound_Topic := t; Inbound_Data := VBytes [1; 2] |};
     outbound := {| Outbound_Topic := t; Outbound_Data := ∅ |};
     onCompletedFunc := fun _ => None |}.

(** A world holding one session at address 0, waiting on no channel;
    the clock reads 1000, 1001, ... *)
Definition world (t : string) : World :=
  {| sessions := {[ 0%nat := session t ]};
     dispatcher := {| Lv0 := []; Lv1 := []; Lv2 := [] |};
     clock := fun n => 1000 + Z.of_nat n;
     clockReads := 0 |}.

(** The same world with the session waiting at stage 0. *)
Definition submitted (t : string) : World :=
  {| sessions := {[ 0%nat := session t ]};
     dispatcher := {| Lv0 := [0%nat]; Lv1 := []; Lv2 := [] |};
     clock := fun n => 1000 + Z.of_nat n;
     clockReads := 0 |}.

Definition emptyWorld : World :=
  {| sessions := ∅;
     dispatcher := {| Lv0 := []; Lv1 := []; Lv2 := [] |};
     clock := fun n => 1000 + Z.of_nat n;
     clockReads := 0 |}.

End Sample.

(** ** Reading a run *)

(** A run hands back how it ended, the world it left and its trace. *)
Definition result {A} (x : A * World * list Event) : A := x.1.1.
Definition final {A} (x : A * World * list Event) : World := x.1.2.
Definition trace {A} (x : A * World * list Event) : list Event := x.2.

(** The sends of a trace, in order. *)
Definition sendsOf (t : list Event) : list (Stage * nat) :=
  omap (fun e => match e with EvSend lv p => Some (lv, p) | _ => None end) t.

(** The [Handle] calls made on interceptors for session [p], in order,
    each with what it did. *)
Definition interceptorCalls (p : nat) (t : list Event) : list (Interceptor * Outcome) :=
  omap (fun e => match e with
                 | EvInterceptorHandle q it o => if decide (q = p) then Some (it, o) else None
                 | _ => None
                 end) t.

Definition driverCalls (p : nat) (t : list Event) : list (Driver * Outcome) :=
  omap (fun e => match e with
                 | EvDriverHandle q d o => if decide (q = p) then Some (d, o) else None
                 | _ => None
                 end) t.

(** The invocations of the completion callback of session [p]: the
    argument and what the callback did. *)
Definition completionsOf (p : nat) (t : list Event)
  : list (gmap string Value * option PanicValue) :=
  omap (fun e => match e with
                 | EvCompleted q data o => if decide (q = p) then Some (data, o) else None
                 | _ => None
                 end) t.

Definition lifecycleCalls (t : list Event) : list (string * LifecycleMethod * string) :=
  omap (fun e => match e with
                 | EvLifecycle msg method c => Some (msg, method, c)
                 | _ => None
                 end) t.

Definition logsOf (t : list Event) : list (Level * string) :=
  omap (fun e => match e with EvLog lvl msg => Some (lvl, msg) | _ => None end) t.

Definition isLog (e : Event) : bool :=
  match e with EvLog _ _ => true | _ => false end.

Definition isPanics (o : Outcome) : bool :=
  match o with Panics _ => true | Returns _ => false end.

(** The interceptors, or drivers, registered for a topic. *)
Definition interceptorsFor (en : Engine) (t : string) : list Interceptor :=
  filter (fun it => anyTopicMatches (Interceptor_GetTopicExpr it) t = true) (interceptors en).

Definition driversFor (en : Engine) (t : string) : list Driver :=
  filter (fun d => anyTopicMatches (Driver_GetTopicExpr d) t = true) (drivers en).

(** How often session [p] waits on the channels of the dispatcher. *)
Definition pending (p : nat) (d : Dispatcher) : nat :=
  length (filter (fun q => q = p) (Lv0 d ++ Lv1 d ++ Lv2 d)).

Definition enqueueAll (sends : list (Stage * nat)) (d : Dispatcher) : Dispatcher :=
  foldl (fun d x => enqueue x.1 x.2 d) d sends.

(** The attribute keys and the recover message of each stage, as the
    three handlers spell them. *)
Definition startKey (lv : Stage) : string :=
  match lv with
  | StageLv0 => "Interceptor.Start" | StageLv1 => "Driver.Start" | StageLv2 => "Output.Start"
  end.

Definition endKey (lv : Stage) : string :=
  match lv with
  | StageLv0 => "Interceptor.End" | StageLv1 => "Driver.End" | StageLv2 => "Output.End"
  end.

Definition recoverMsg (lv : Stage) : string :=
  match lv with
  | StageLv0 => "Interceptor-Goroutine internal error"
  | StageLv1 => "Driver-Goroutine internal error"
  | StageLv2 => "Output-Goroutine internal error"
  end.

(** ** The shape of runs *)

(** The definitions below are what the statements about runs are phrased
    in: how a run may change the world, and which traces the loops of the
    handlers can leave. *)

(** What a run of engine code on session [p] may do to the world: the
    session is replaced by one with the same identity, the channels
    receive the sends of the trace, the clock is read [reads] times. *)
Definition sameIdentity (s s' : sessionImpl) : Prop :=
  timestamp s' = timestamp s /\ topic s' = topic s /\ contextId s' = contextId s /\
  inbound s' = inbound s /\ onCompletedFunc s' = onCompletedFunc s.

Definition evolves (p : nat) (reads : nat) (tr : list Event)
    (w : World) (s : sessionImpl) (w' : World) (s' : sessionImpl) : Prop :=
  sessions w' = <[p := s']> (sessions w) /\
  dispatcher w' = enqueueAll (sendsOf tr) (dispatcher w) /\
  clock w' = clock w /\
  clockReads w' = (clockReads w + reads)%nat /\
  sameIdentity s s'.

Definition tick (w : World) : World :=
  {| sessions := sessions w; dispatcher := dispatcher w;
     clock := clock w; clockReads := S (clockReads w) |}.

(** A [Handle] call: the session takes over the attributes and the
    outbound message the component left. *)
Definition afterHandle (s : sessionImpl) (h : Handled) : sessionImpl :=
  setOutbound (setAttributes s (handled_attributes h)) (handled_outbound h).

(** The traces the chain can leave and how it ends, case by case of what
    the interceptor at the head does. *)
Inductive ChainShape (en : Engine) (p : nat)
  : InterceptorSlice -> list Event -> Res LoopExit -> Prop :=
| ChainEnd :
    ChainShape en p [] [] (Ok LoopEnd)
| ChainNil it rest tr r :
    ChainShape en p rest tr r ->
    ChainShape en p (it :: rest) (EvInterceptorHandle p it (Returns None) :: tr) r
| ChainError it rest msg tr r :
    IsFailFastEnabled en = false ->
    ChainShape en p rest tr r ->
    ChainShape en p (it :: rest)
      (EvInterceptorHandle p it (Returns (Some (ErrOther msg)))
       :: EvLog LevelError "interceptor error" :: tr) r
| ChainFatal it rest msg :
    IsFailFastEnabled en = true ->
    ChainShape en p (it :: rest)
      [EvInterceptorHandle p it (Returns (Some (ErrOther msg)));
       EvLog LevelPanic "interceptor error"]
      (Panicked (PanicOther (VString "interceptor error")))
| ChainDrop it rest :
    ChainShape en p (it :: rest)
      [EvInterceptorHandle p it (Returns (Some ErrInterceptorDropped));
       EvLog LevelDebug "interceptor dropped the event";
       EvSend StageLv2 p]
      (Ok LoopReturn)
| ChainPanic it rest v :
    ChainShape en p (it :: rest) [EvInterceptorHandle p it (Panics v)] (Panicked v).

Definition driverLog (en : Engine) (d : Driver) (tp : string) : list Event :=
  if IsVerboseEnabled en then
    [EvLog LevelDebug
       ("driver dispatch: driver[" +:+ className (Driver_lifecycle d)
        +:+ "], topic: " +:+ tp +:+ ", Matches: "
        +:+ boolText (anyTopicMatches (Driver_GetTopicExpr d) tp))]
  else [].

(** The traces the fan-out over the drivers can leave, for a session of
    topic [tp]. *)
Inductive FanOutShape (en : Engine) (p : nat) (tp : string)
  : list Driver -> list Event -> Res unit -> Prop :=
| FanEnd :
    FanOutShape en p tp [] [] (Ok tt)
| FanSkip d rest tr r :
    anyTopicMatches (Driver_GetTopicExpr d) tp = false ->
    FanOutShape en p tp rest tr r ->
    FanOutShape en p tp (d :: rest) (driverLog en d tp ++ tr) r
| FanNil d rest tr r :
    anyTopicMatches (Driver_GetTopicExpr d) tp = true ->
    FanOutShape en p tp rest tr r ->
    FanOutShape en p tp (d :: rest)
      (driverLog en d tp ++ EvDriverHandle p d (Returns None) :: tr) r
| FanError d rest e tr r :
    anyTopicMatches (Driver_GetTopicExpr d) tp = true ->
    IsFailFastEnabled en = false ->
    FanOutShape en p tp rest tr r ->
    FanOutShape en p tp (d :: rest)
      (driverLog en d tp ++ EvDriverHandle p d (Returns (Some e))
       :: EvLog LevelError "driver error" :: tr) r
| FanFatal d rest e :
    anyTopicMatches (Driver_GetTopicExpr d) tp = true ->
    IsFailFastEnabled en = true ->
    FanOutShape en p tp (d :: rest)
      (driverLog en d tp ++ [EvDriverHandle p d (Returns (Some e));
                             EvLog LevelPanic "driver error"])
      (Panicked (PanicOther (VString "driver error")))
| FanPanic d rest v :
    anyTopicMatches (Driver_GetTopicExpr d) tp = true ->
    FanOutShape en p tp (d :: rest)
      (driverLog en d tp ++ [EvDriverHandle p d (Panics v)]) (Panicked v).

(** What [checkRecover] makes of the value [recover()] returned. *)
Definition recovered (en : Engine) (r : option PanicValue) : Res unit :=
  match r with
  | Some v => if IsFailFastEnabled en then Panicked v else Ok tt
  | None => Ok tt
  end.

Definition recoverLog (r : option PanicValue) (msg : string) : list Event :=
  match r with
  | Some (PanicError _) => [EvLog LevelError msg]
  | _ => []
  end.

Definition panicOf {A} (r : Res A) : option PanicValue :=
  match r with Ok _ => None | Panicked v => Some v end.

Definition chainTail (p : nat) (r : Res LoopExit) : list Event :=
  match r with
  | Ok LoopEnd => [EvSend StageLv1 p]
  | _ => []
  end.

Definition chainResult (r : Res LoopExit) : Res unit :=
  match r with
  | Ok _ => Ok tt
  | Panicked v => Panicked v
  end.

Definition fanTail (p : nat) (r : Res unit) : list Event :=
  match r with
  | Ok _ => [EvSend StageLv2 p]
  | Panicked _ => []
  end.

(** The world and the session a stage body starts from. *)
Definition started (lv : Stage) (s : sessionImpl) (w : World) : sessionImpl :=
  setAttributes s (<[startKey lv := VTime (clock w (clockReads w))]> (attributes s)).

Definition startedWorld (lv : Stage) (p : nat) (s : sessionImpl) (w : World) : World :=
  setSessions (tick w) (<[p := started lv s w]> (sessions w)).


(** The lifecycle steps of [Start] and of [Stop] as the source writes
    them down: the label and the action of every [CheckTimeout], role by
    role. *)
Definition startSteps (en : Engine) : list (string * Action) :=
  map (fun it => ("Plugin.Start", OnStart it)) (plugins en)
  ++ map (fun it => ("Pipeline.Start", OnStart it)) (rangePipelines en)
  ++ map (fun it => ("Driver.Start", OnStart (Driver_lifecycle it))) (drivers en)
  ++ map (fun it => ("Trigger.Start", OnStart it)) (triggers en).

Definition stopSteps (en : Engine) : list (string * Action) :=
  map (fun it => ("Trigger.Stop", OnStop it)) (triggers en)
  ++ map (fun it => ("Driver.Stop", OnStop (Driver_lifecycle it))) (drivers en)
  ++ map (fun it => ("Pipeline.Stop", OnStop it)) (rangePipelines en)
  ++ map (fun it => ("Plugin.Stop", OnStop it)) (plugins en).


(** What a step and a hook leave in the trace. *)
Definition stepEvents (st : string * Action) : list Event :=
  EvLifecycle st.1 (action_method st.2) (className (action_receiver st.2))
  :: (if action_overruns st.2 then [EvLog LevelWarn (st.1 +:+ " timed out")] else []).

Definition hookEvents (h : HookFunc) : list Event := [EvHook (hookName h)].

(** Of a sequence of calls that run one after the other until one
    panics: the calls that are made, and the panic that ends it. *)
Fixpoint issued {A} (ends : A -> option PanicValue) (l : list A) : list A :=
  match l with
  | [] => []
  | x :: rest => x :: match ends x with Some _ => [] | None => issued ends rest end
  end.

Fixpoint firstPanic {A} (ends : A -> option PanicValue) (l : list A) : option PanicValue :=
  match l with
  | [] => None
  | x :: rest => match ends x with Some v => Some v | None => firstPanic ends rest end
  end.

Definition resultOf (o : option PanicValue) : Res unit :=
  match o with None => Ok tt | Some v => Panicked v end.

Definition stepPanics (st : string * Action) : option PanicValue := action_panics st.2.

(** Whether every call of a list returns. *)
Definition allReturn {A} (ends : A -> option PanicValue) (l : list A) : bool :=
  forallb (fun x => match ends x with None => true | Some _ => false end) l.

(** What a run of lifecycle steps comes to: the steps are made one after
    the other until one panics, and the world stays as it is. *)
Definition stepsRun (steps : list (string * Action)) (w : World)
  : Res unit * World * list Event :=
  (resultOf (firstPanic stepPanics steps), w, issued stepPanics steps ≫= stepEvents).

(** A bound on the receives still to come: a session waiting at stage 0
    is received at most three times, at stage 1 twice, at stage 2 once. *)
Definition weight (lv : Stage) : nat :=
  match lv with StageLv0 => 3 | StageLv1 => 2 | StageLv2 => 1 end.

Definition backlog (d : Dispatcher) : nat :=
  (3 * length (Lv0 d) + 2 * length (Lv1 d) + length (Lv2 d))%nat.

(** ** More ways to read a trace *)

(** The events of [Start] and [Stop] that belong to the lifecycle calls:
    the call itself and the warning of the timeout guard. *)
Definition isLifecycle (e : Event) : bool :=
  match e with
  | EvLifecycle _ _ _ => true
  | EvLog LevelWarn _ => true
  | _ => false
  end.

(** ** The socket client (package network) *)

Module network.

(** [SocketConfig] as the client reads it. *)
Record SocketConfig := {
  SocketConfig_Type : string;
  SocketConfig_Addr : string;
  SocketConfig_ReadTimeout : Z;
  SocketConfig_WriteTimeout : Z;
  SocketConfig_BufferSize : Z
}.

(** A [net.Conn] is known by its handle. *)
Definition Conn := nat.

(** The errors of the client: those the network hands out, those made by
    [errors.New], and those [errors.WithMessage] of github.com/pkg/errors
    wraps around a cause. *)
Inductive error :=
| net_Error (msg : string)
| errors_New (msg : string)
| errors_WithMessage (err : error) (msg : string).

(** The network, as far as the client calls into it: every call answers
    with a value or an error.  [Conn_Read] is handed the buffer and gives
    it back filled. *)
Record Net := {
  net_Dial : string -> string -> Conn + error;
  net_ResolveUDPAddr : string -> string -> string + error;
  net_DialUDP : string -> string -> Conn + error;
  Conn_Close : Conn -> option error;
  Conn_SetReadDeadline : Conn -> Z -> option error;
  Conn_SetWriteDeadline : Conn -> Z -> option error;
  Conn_Read : Conn -> list Z -> list Z * Z * option error;
  Conn_Write : Conn -> list Z -> Z * option error
}.

(** The calls a client makes, in order. *)
Inductive NetCall :=
| CallDial (network addr : string)
| CallResolveUDPAddr (network addr : string)
| CallDialUDP (network raddr : string)
| CallClose (c : Conn)
| CallSetReadDeadline (c : Conn) (t : Z)
| CallSetWriteDeadline (c : Conn) (t : Z)
| CallRead (c : Conn)
| CallWrite (c : Conn) (data : list Z).

Record SocketClient := {
  conn : option Conn;
  config : SocketConfig
}.

(** part_000, [Init]. *)
Definition Init (s : SocketClient) (cfg : SocketConfig) : SocketClient :=
  {| conn := conn s; config := cfg |}.

(** part_000, [Config] and [BufferSize]. *)
Definition Config (s : SocketClient) : SocketConfig := config s.

Definition BufferSize (s : SocketClient) : Z := SocketConfig_BufferSize (config s).

Definition withConn (s : SocketClient) (c : Conn) : SocketClient :=
  {| conn := Some c; config := config s |}.

(** part_000, [Open]: the error returned, the client afterwards, the
    calls made. *)
Definition Open (net : Net) (s : SocketClient)
  : option error * SocketClient * list NetCall :=
  let addr := SocketConfig_Addr (config s) in
  if String.eqb "tcp" (SocketConfig_Type (config s)) then
    match net_Dial net "tcp" addr with
    | inr err => (Some (errors_WithMessage err "TCP dial failed"), s, [CallDial "tcp" addr])
    | inl c => (None, withConn s c, [CallDial "tcp" addr])
    end
  else if String.eqb "udp" (SocketConfig_Type (config s)) then
    match net_ResolveUDPAddr net "udp" addr with
    | inr err =>
        (Some (errors_WithMessage err "Resolve udp address failed"), s,
         [CallResolveUDPAddr "udp" addr])
    | inl raddr =>
        match net_DialUDP net "udp" raddr with
        | inr err =>
            (Some (errors_WithMessage err "UDP dial failed"), s,
             [CallResolveUDPAddr "udp" addr; CallDialUDP "udp" raddr])
        | inl c =>
            (None, withConn s c, [CallResolveUDPAddr "udp" addr; CallDialUDP "udp" raddr])
        end
    end
  else
    (Some (errors_New ("Unknown network type: " +:+ SocketConfig_Type (config s))), s, []).

(** part_000, [Close]. *)
Definition Close (net : Net) (s : SocketClient)
  : option error * SocketClient * list NetCall :=
  match conn s with
  | Some c => (Conn_Close net c, s, [CallClose c])
  | None => (None, s, [])
  end.

(** part_000, [Receive]: the buffer afterwards, (n, err), the client, the
    calls.  [now] is what [time.Now()] reads. *)
Definition Receive (net : Net) (now : Z) (s : SocketClient) (buff : list Z)
  : list Z * Z * option error * SocketClient * list NetCall :=
  match conn s with
  | None => (buff, 0, Some (errors_New "Client connection is not ready"), s, [])
  | Some c =>
      let deadline := now + SocketConfig_ReadTimeout (config s) in
      match Conn_SetReadDeadline net c deadline with
      | Some err =>
          (buff, 0, Some (errors_WithMessage err "Set read timeout failed"), s,
           [CallSetReadDeadline c deadline])
      | None =>
          match Conn_Read net c buff with
          | (buff', n, err) => (buff', n, err, s, [CallSetReadDeadline c deadline; CallRead c])
          end
      end
  end.

(** part_000, [Send]. *)
Definition Send (net : Net) (now : Z) (s : SocketClient) (data : list Z)
  : Z * option error * SocketClient * list NetCall :=
  match conn s with
  | None => (0, Some (errors_New "Client connection is not ready"), s, [])
  | Some c =>
      let deadline := now + SocketConfig_WriteTimeout (config s) in
      match Conn_SetWriteDeadline net c deadline with
      | Some err =>
          (0, Some (errors_WithMessage err "Set write timeout failed"), s,
           [CallSetWriteDeadline c deadline])
      | None =>
          match Conn_Write net c data with
          | (n, err) => (n, err, s, [CallSetWriteDeadline c deadline; CallWrite c data])
          end
      end
  end.

Definition isCallClose (call : NetCall) : bool :=
  match call with CallClose _ => true | _ => false end.

(** A network in which the host "good" can be reached and nothing else,
    and in which connection 7 refuses deadlines. *)
Definition sampleNet : Net :=
  {| net_Dial := fun _ addr =>
       if String.eqb addr "good" then inl 1%nat else inr (net_Error "connection refused");
     net_ResolveUDPAddr := fun _ addr =>
       if String.eqb addr "good" then inl "10.0.0.1:9" else inr (net_Error "no such host");
     net_DialUDP := fun _ _ => inl 2%nat;
     Conn_Close := fun _ => None;
     Conn_SetReadDeadline := fun c _ =>
       if Nat.eqb c 7 then Some (net_Error "use of closed network connection") else None;
     Conn_SetWriteDeadline := fun c _ =>
       if Nat.eqb c 7 then Some (net_Error "use of closed network connection") else None;
     Conn_Read := fun _ buff => (buff, 0, None);
     Conn_Write := fun _ data => (Z.of_nat (length data), None) |}.

Definition sampleClient (type addr : string) : SocketClient :=
  {| conn := None;
     config := {| SocketConfig_Type := type; SocketConfig_Addr := addr;
                  SocketConfig_ReadTimeout := 30; SocketConfig_WriteTimeout := 50;
                  SocketConfig_BufferSize := 1024 |} |}.

End network.


(** A call that returned an error. *)
Definition isError (o : Outcome) : bool :=
  match o with Returns (Some _) => true | _ => false end.

(** * The engine before sessions *)

(** [GeckoEngine] (part_002) is the engine as it was before sessions, the
    dispatcher and the fail-fast switch.  Its context [abcGeckoContext]
    has the fields of [sessionImpl]: the invoker of [PrepareEnv] fills
    timestamp, attributes, topic, contextId, inbound, outbound and the
    callback.  A context is therefore a [sessionImpl] in the store, and
    the channels [intChan], [driChan] and [outChan] are the channels of
    the stages 0, 1 and 2.  Of the [Engine] record only the registry and
    the verbose switch are read.

    Modelled from the spec: the methods of [GeckoContext] and
    [GeckoScoped.LogIfV] are not part of the sources at hand; they are
    taken as [Session_Topic], [Session_AddAttribute],
    [Session_AddDataField] and [OnIfLogV] of sections 3 and 4.2, and
    [ERR_DROP] as the drop sentinel. *)
Module GeckoEngine.

(** part_002, lines 156-172: the interceptors are visited in
    registration order (the sorting is a TODO there); each one whose topic
    expressions match is called at once. *)
Fixpoint runInterceptors (p : nat) (els : list Interceptor) : M LoopExit :=
  match els with
  | [] => ret LoopEnd
  | interceptor :: rest =>
      do tp <- Session_Topic p;
      if anyTopicMatches (Interceptor_GetTopicExpr interceptor) tp then
        do err <- callInterceptor interceptor p;
        match err with
        | None => runInterceptors p rest
        | Some e =>
            if isDropped e then
              do _ <- Msgf LevelError "interceptor dropped the event";
              do _ <- Session_AddDataField p "error" (VString "InterceptorDropped");
              do _ <- send StageLv2 p;
              ret LoopReturn
            else
              do _ <- Msgf LevelError "interceptor error";
              runInterceptors p rest
        end
      else runInterceptors p rest
  end.

(** The body of [handleInterceptor] below its [defer]. *)
Definition handleInterceptor_body (en : Engine) (p : nat) : M unit :=
  do _ <- OnIfLogV en
            (do tp <- Session_Topic p;
             Msgf LevelDebug ("Interceptor dispatch, Topic: " +:+ tp));
  do exit <- runInterceptors p (interceptors en);
  match exit with
  | LoopReturn => ret tt
  | LoopEnd => send StageLv1 p
  end.

(** The function deferred by a handler: it writes the time of the exit
    and does not call [recover()]. *)
Definition stageDeferred (p : nat) (endKey : string) : M unit :=
  do now <- time_Now;
  Session_AddAttribute p endKey (VTime now).

(** part_002, [handleInterceptor]. *)
Definition handleInterceptor (en : Engine) (p : nat) : M unit :=
  do now <- time_Now;
  do _ <- Session_AddAttribute p "Interceptor.Start" (VTime now);
  deferPlain (stageDeferred p "Interceptor.End") (handleInterceptor_body en p).

(** part_002, lines 187-197. *)
Fixpoint runDrivers (en : Engine) (p : nat) (els : list Driver) : M unit :=
  match els with
  | [] => ret tt
  | driver :: rest =>
      do tp <- Session_Topic p;
      do _ <- (if anyTopicMatches (Driver_GetTopicExpr driver) tp then
                 do err <- callDriver en driver p;
                 match err with
                 | Some _ => Msgf LevelError "driver error"
                 | None => ret tt
                 end
               else ret tt);
      runDrivers en p rest
  end.

Definition handleDrivers_body (en : Engine) (p : nat) : M unit :=
  do _ <- OnIfLogV en
            (do tp <- Session_Topic p;
             Msgf LevelDebug ("Driver dispatch, Topic: " +:+ tp));
  do _ <- runDrivers en p (drivers en);
  send StageLv2 p.

(** part_002, [handleDrivers]. *)
Definition handleDrivers (en : Engine) (p : nat) : M unit :=
  do now <- time_Now;
  do _ <- Session_AddAttribute p "Driver.Start" (VTime now);
  deferPlain (stageDeferred p "Driver.End") (handleDrivers_body en p).

(** The traces the loop over the interceptors can leave, over the
    interceptors that match, and how it ends. *)
Inductive ChainShape (p : nat) : list Interceptor -> list Event -> Res LoopExit -> Prop :=
| ChainEnd :
    ChainShape p [] [] (Ok LoopEnd)
| ChainNil it rest tr r :
    ChainShape p rest tr r ->
    ChainShape p (it :: rest) (EvInterceptorHandle p it (Returns None) :: tr) r
| ChainError it rest msg tr r :
    ChainShape p rest tr r ->
    ChainShape p (it :: rest)
      (EvInterceptorHandle p it (Returns (Some (ErrOther msg)))
       :: EvLog LevelError "interceptor error" :: tr) r
| ChainDrop it rest :
    ChainShape p (it :: rest)
      [EvInterceptorHandle p it (Returns (Some ErrInterceptorDropped));
       EvLog LevelError "interceptor dropped the event";
       EvSend StageLv2 p]
      (Ok LoopReturn)
| ChainPanic it rest v :
    ChainShape p (it :: rest) [EvInterceptorHandle p it (Panics v)] (Panicked v).

(** The traces the loop over the drivers can leave, over the drivers
    that match. *)
Inductive FanOutShape (p : nat) : list Driver -> list Event -> Res unit -> Prop :=
| FanEnd :
    FanOutShape p [] [] (Ok tt)
| FanNil d rest tr r :
    FanOutShape p rest tr r ->
    FanOutShape p (d :: rest) (EvDriverHandle p d (Returns None) :: tr) r
| FanError d rest e tr r :
    FanOutShape p rest tr r ->
    FanOutShape p (d :: rest)
      (EvDriverHandle p d (Returns (Some e)) :: EvLog LevelError "driver error" :: tr) r
| FanPanic d rest v :
    FanOutShape p (d :: rest) [EvDriverHandle p d (Panics v)] (Panicked v).

End GeckoEngine.
(** * Properties *)

(** ** Running the monad *)

Lemma bind_Ok {A B} (m : M A) (k : A -> M B) w a w1 t1 :
  m w = (Ok a, w1, t1) ->
  bind m k w = (result (k a w1), final (k a w1), t1 ++ trace (k a w1)).
Proof.
  intros Hm. unfold bind, result, final, trace. rewrite Hm.
  by destruct (k a w1) as [[r w2] t2].
Qed.

Lemma bind_Panicked {A B} (m : M A) (k : A -> M B) w r w1 t1 :
  m w = (Panicked r, w1, t1) -> bind m k w = (Panicked r, w1, t1).
Proof. intros Hm. unfold bind. by rewrite Hm. Qed.

Lemma run_eta {A} (x : Res A * World * list Event) :
  x = (result x, final x, trace x).
Proof. by destruct x as [[r w] t]. Qed.

Lemma sameIdentity_refl s : sameIdentity s s.
Proof. by repeat split. Qed.

Lemma sameIdentity_trans s1 s2 s3 :
  sameIdentity s1 s2 -> sameIdentity s2 s3 -> sameIdentity s1 s3.
Proof.
  intros (?&?&?&?&?) (?&?&?&?&?). repeat split; congruence.
Qed.

Lemma sendsOf_app t1 t2 : sendsOf (t1 ++ t2) = sendsOf t1 ++ sendsOf t2.
Proof. apply omap_app. Qed.

Lemma enqueueAll_app a b d : enqueueAll (a ++ b) d = enqueueAll b (enqueueAll a d).
Proof. apply foldl_app. Qed.

Lemma evolves_refl p w s :
  sessions w !! p = Some s -> evolves p 0 [] w s w s.
Proof.
  intros Hp. unfold evolves.
  split_and!; simpl; first [by rewrite insert_id | lia | apply sameIdentity_refl | done].
Qed.

Lemma evolves_trans p n1 n2 t1 t2 w s w1 s1 w2 s2 :
  evolves p n1 t1 w s w1 s1 -> evolves p n2 t2 w1 s1 w2 s2 ->
  evolves p (n1 + n2) (t1 ++ t2) w s w2 s2.
Proof.
  intros (Hs1 & Hd1 & Hc1 & Hr1 & Hi1) (Hs2 & Hd2 & Hc2 & Hr2 & Hi2).
  unfold evolves. split_and!.
  - by rewrite Hs2, Hs1, insert_insert_eq.
  - by rewrite Hd2, Hd1, sendsOf_app, enqueueAll_app.
  - congruence.
  - lia.
  - by eapply sameIdentity_trans.
Qed.

Lemma evolves_lookup p n t w s w' s' :
  evolves p n t w s w' s' -> sessions w' !! p = Some s'.
Proof. intros (Hs & _). rewrite Hs. apply lookup_insert_eq. Qed.

(** ** Primitive operations on an allocated session *)

Lemma load_run w p s : sessions w !! p = Some s -> load p w = (Ok s, w, []).
Proof. intros Hp. unfold load. by rewrite Hp. Qed.

Lemma Session_Topic_run w p s :
  sessions w !! p = Some s -> Session_Topic p w = (Ok (topic s), w, []).
Proof.
  intros Hp. unfold Session_Topic.
  rewrite (bind_Ok _ _ _ _ _ _ (load_run _ _ _ Hp)). reflexivity.
Qed.

Lemma Session_AddAttribute_run w p s key v :
  sessions w !! p = Some s ->
  Session_AddAttribute p key v w =
    (Ok tt,
     setSessions w (<[p := setAttributes s (<[key := v]> (attributes s))]> (sessions w)),
     [EvAddAttribute p key v]).
Proof.
  intros Hp. unfold Session_AddAttribute.
  rewrite (bind_Ok _ _ _ _ _ _ (load_run _ _ _ Hp)). reflexivity.
Qed.

Lemma Session_AddDataField_run w p s key v :
  sessions w !! p = Some s ->
  Session_AddDataField p key v w =
    (Ok tt,
     setSessions w (<[p := setOutbound s (Outbound_AddDataField (outbound s) key v)]> (sessions w)),
     []).
Proof.
  intros Hp. unfold Session_AddDataField.
  rewrite (bind_Ok _ _ _ _ _ _ (load_run _ _ _ Hp)). reflexivity.
Qed.

Lemma Session_Escaped_run w p s :
  sessions w !! p = Some s ->
  Session_Escaped p w = (Ok (clock w (clockReads w) - timestamp s), tick w, []).
Proof.
  intros Hp. unfold Session_Escaped.
  rewrite (bind_Ok _ _ _ _ _ _ (load_run _ _ _ Hp)). reflexivity.
Qed.

Lemma OnIfLogV_Msgf_run en msg w :
  OnIfLogV en (Msgf LevelDebug msg) w =
    (Ok tt, w, if IsVerboseEnabled en then [EvLog LevelDebug msg] else []).
Proof. unfold OnIfLogV. by destruct (IsVerboseEnabled en). Qed.

Lemma Msgf_run lvl msg w :
  lvl <> LevelPanic -> Msgf lvl msg w = (Ok tt, w, [EvLog lvl msg]).
Proof. intros Hl. by destruct lvl. Qed.

Lemma Msgf_panic msg w :
  Msgf LevelPanic msg w = (Panicked (PanicOther (VString msg)), w, [EvLog LevelPanic msg]).
Proof. reflexivity. Qed.

Lemma send_run lv p w :
  send lv p w = (Ok tt, setDispatcher w (enqueue lv p (dispatcher w)), [EvSend lv p]).
Proof. reflexivity. Qed.

Lemma failFastLogger_off en :
  IsFailFastEnabled en = false -> failFastLogger en = LevelError.
Proof. unfold failFastLogger. by intros ->. Qed.

Lemma failFastLogger_on en :
  IsFailFastEnabled en = true -> failFastLogger en = LevelPanic.
Proof. unfold failFastLogger. by intros ->. Qed.

Lemma callInterceptor_run w p s it :
  sessions w !! p = Some s ->
  callInterceptor it p w =
    (match handled_outcome (Interceptor_Handle it s) with
     | Returns err => Ok err
     | Panics r => Panicked r
     end,
     setSessions w (<[p := afterHandle s (Interceptor_Handle it s)]> (sessions w)),
     [EvInterceptorHandle p it (handled_outcome (Interceptor_Handle it s))]).
Proof.
  intros Hp. unfold callInterceptor.
  rewrite (bind_Ok _ _ _ _ _ _ (load_run _ _ _ Hp)).
  unfold result, final, trace, bind, store, emit, ret, panic, afterHandle. simpl.
  by destruct (handled_outcome (Interceptor_Handle it s)).
Qed.

Lemma callDriver_run en w p s d :
  sessions w !! p = Some s ->
  callDriver en d p w =
    (match handled_outcome (Driver_Handle d s (selector en)) with
     | Returns err => Ok err
     | Panics r => Panicked r
     end,
     setSessions w (<[p := afterHandle s (Driver_Handle d s (selector en))]> (sessions w)),
     [EvDriverHandle p d (handled_outcome (Driver_Handle d s (selector en)))]).
Proof.
  intros Hp. unfold callDriver.
  rewrite (bind_Ok _ _ _ _ _ _ (load_run _ _ _ Hp)).
  unfold result, final, trace, bind, store, emit, ret, panic, afterHandle. simpl.
  by destruct (handled_outcome (Driver_Handle d s (selector en))).
Qed.

Lemma callOnCompleted_run w p s :
  sessions w !! p = Some s ->
  callOnCompleted p w =
    (match onCompletedFunc s (Outbound_Data (outbound s)) with
     | None => Ok tt
     | Some r => Panicked r
     end,
     w,
     [EvCompleted p (Outbound_Data (outbound s)) (onCompletedFunc s (Outbound_Data (outbound s)))]).
Proof.
  intros Hp. unfold callOnCompleted.
  rewrite (bind_Ok _ _ _ _ _ _ (load_run _ _ _ Hp)).
  unfold result, final, trace, bind, emit, ret, panic. simpl.
  by destruct (onCompletedFunc s (Outbound_Data (outbound s))).
Qed.

Lemma evolves_store p w s s' :
  sessions w !! p = Some s -> sameIdentity s s' ->
  evolves p 0 [] w s (setSessions w (<[p := s']> (sessions w))) s'.
Proof.
  intros Hp Hi. unfold evolves. split_and!; simpl; first [done | lia].
Qed.

Lemma evolves_send p lv w s :
  sessions w !! p = Some s ->
  evolves p 0 [EvSend lv p] w s (setDispatcher w (enqueue lv p (dispatcher w))) s.
Proof.
  intros Hp. unfold evolves.
  split_and!; simpl; first [by rewrite insert_id | lia | apply sameIdentity_refl | done].
Qed.

Lemma sendsOf_logs t : forallb isLog t = true -> sendsOf t = [].
Proof.
  induction t as [|e t IH]; [done|]. simpl. intros [He Ht]%andb_prop.
  destruct e; try done. by apply IH.
Qed.

Lemma sameIdentity_afterHandle s h : sameIdentity s (afterHandle s h).
Proof. by repeat split. Qed.

Lemma sameIdentity_setAttributes s a : sameIdentity s (setAttributes s a).
Proof. by repeat split. Qed.

Lemma sameIdentity_setOutbound s o : sameIdentity s (setOutbound s o).
Proof. by repeat split. Qed.

(** ** The first loop of the interceptor stage *)

Lemma collectMatches_run en p s : forall els matched w,
  sessions w !! p = Some s ->
  exists logs,
    collectMatches en p els matched w =
      (Ok (matched ++
           filter (fun it => anyTopicMatches (Interceptor_GetTopicExpr it) (topic s) = true) els),
       w, logs) /\
    forallb isLog logs = true.
Proof.
  induction els as [|it rest IH]; intros matched w Hp.
  - exists []. simpl. by rewrite app_nil_r.
  - simpl collectMatches.
    rewrite (bind_Ok _ _ _ _ _ _ (Session_Topic_run _ _ _ Hp)).
    rewrite (bind_Ok _ _ _ _ _ _ (OnIfLogV_Msgf_run _ _ _)).
    destruct (IH (if anyTopicMatches (Interceptor_GetTopicExpr it) (topic s)
                  then matched ++ [it] else matched) w Hp) as (logs & Hrun & Hlogs).
    rewrite Hrun. unfold result, final, trace. simpl.
    eexists. split.
    + f_equal. f_equal. f_equal. rewrite filter_cons.
      destruct (anyTopicMatches (Interceptor_GetTopicExpr it) (topic s)) eqn:Hm.
      * rewrite decide_True by done. by rewrite <- app_assoc.
      * rewrite decide_False by done. done.
    + rewrite forallb_app, Hlogs. by destruct (IsVerboseEnabled en).
Qed.

(** ** The second loop of the interceptor stage *)

Lemma runMatches_spec en p : forall matched w s,
  sessions w !! p = Some s ->
  exists r w' tr s',
    runMatches en p matched w = (r, w', tr) /\
    ChainShape en p matched tr r /\
    evolves p 0 tr w s w' s' /\
    (r = Ok LoopReturn ->
     Outbound_Data (outbound s') !! "error" = Some (VString "InterceptorDropped")).
Proof.
  induction matched as [|it rest IH]; intros w s Hp.
  - exists (Ok LoopEnd), w, [], s. split_and!; [done|constructor|by apply evolves_refl|done].
  - simpl runMatches. unfold bind at 1.
    rewrite (callInterceptor_run _ _ _ _ Hp).
    set (h := Interceptor_Handle it s).
    set (w1 := setSessions w (<[p := afterHandle s h]> (sessions w))).
    assert (Hp1 : sessions w1 !! p = Some (afterHandle s h)) by apply lookup_insert_eq.
    assert (Hev1 : evolves p 0 [EvInterceptorHandle p it (handled_outcome h)]
                     w s w1 (afterHandle s h)).
    { apply (evolves_store p w s); [done|apply sameIdentity_afterHandle]. }
    destruct (handled_outcome h) as [[[|msg]|]|v] eqn:Ho.
    + (* the drop sentinel *)
      cbn [isDropped].
      rewrite (bind_Ok _ _ _ _ _ _ (Msgf_run LevelDebug _ _ ltac:(done))).
      rewrite (bind_Ok _ _ _ _ _ _ (Session_AddDataField_run _ _ _ _ _ Hp1)).
      rewrite (bind_Ok _ _ _ _ _ _ (send_run _ _ _)).
      unfold result, final, trace. simpl.
      eexists _, _, _, _. split; [reflexivity|].
      split; [apply ChainDrop|]. split.
      * unfold evolves in *. destruct Hev1 as (Hs & Hd & Hc & Hr & Hi).
        split_and!; simpl.
        -- by rewrite insert_insert_eq.
        -- done.
        -- done.
        -- done.
        -- eapply sameIdentity_trans; [exact Hi|apply sameIdentity_setOutbound].
      * intros _. simpl. apply lookup_insert_eq.
    + (* another error *)
      destruct (IsFailFastEnabled en) eqn:Hff.
      * cbn [isDropped].
        rewrite (failFastLogger_on _ Hff).
        rewrite (bind_Panicked _ _ _ _ _ _ (Msgf_panic _ _)).
        eexists _, _, _, _. split; [reflexivity|].
        split; [by apply ChainFatal|]. split; [|done].
        destruct Hev1 as (Hs & Hd & Hc & Hr & Hi).
        unfold evolves. split_and!; simpl; done.
      * cbn [isDropped].
        rewrite (failFastLogger_off _ Hff).
        rewrite (bind_Ok _ _ _ _ _ _ (Msgf_run LevelError _ _ ltac:(done))).
        destruct (IH w1 _ Hp1) as (r & w' & tr & s' & Hrun & Hshape & Hev & Hdrop).
        rewrite Hrun. unfold result, final, trace. simpl.
        eexists _, _, _, _. split; [reflexivity|].
        split; [by apply ChainError|]. split; [|exact Hdrop].
        apply (evolves_trans p 0 0 [_; _] tr w s w1 (afterHandle s h)); [|exact Hev].
        destruct Hev1 as (Hs & Hd & Hc & Hr & Hi).
        unfold evolves. split_and!; simpl; done.
    + (* nil *)
      destruct (IH w1 _ Hp1) as (r & w' & tr & s' & Hrun & Hshape & Hev & Hdrop).
      rewrite Hrun.
      eexists _, _, _, _. split; [reflexivity|].
      split; [by apply ChainNil|]. split; [|exact Hdrop].
      by apply (evolves_trans p 0 0 [_] tr w s w1 (afterHandle s h)).
    + (* panic *)
      eexists _, _, _, _. split; [reflexivity|].
      split; [apply ChainPanic|]. split; [exact Hev1|done].
Qed.

(** ** The loop of the driver stage *)

Lemma driverLog_isLog en d tp : forallb isLog (driverLog en d tp) = true.
Proof. unfold driverLog. by destruct (IsVerboseEnabled en). Qed.

Lemma evolves_prepend_logs p n logs tr w s w' s' :
  forallb isLog logs = true ->
  evolves p n tr w s w' s' -> evolves p n (logs ++ tr) w s w' s'.
Proof.
  intros Hl (Hs & Hd & Hrest). unfold evolves.
  rewrite sendsOf_app, (sendsOf_logs _ Hl). simpl.
  split; [done|]. split; [done|]. exact Hrest.
Qed.

Lemma driverBlock_run en p w s d :
  sessions w !! p = Some s ->
  let h := Driver_Handle d s (selector en) in
  let w1 := setSessions w (<[p := afterHandle s h]> (sessions w)) in
  bind (callDriver en d p)
       (fun err => match err with
                   | Some _ => Msgf (failFastLogger en) "driver error"
                   | None => ret tt
                   end) w =
  match handled_outcome h with
  | Returns None => (Ok tt, w1, [EvDriverHandle p d (Returns None)])
  | Returns (Some e) =>
      if IsFailFastEnabled en then
        (Panicked (PanicOther (VString "driver error")), w1,
         [EvDriverHandle p d (Returns (Some e)); EvLog LevelPanic "driver error"])
      else
        (Ok tt, w1,
         [EvDriverHandle p d (Returns (Some e)); EvLog LevelError "driver error"])
  | Panics v => (Panicked v, w1, [EvDriverHandle p d (Panics v)])
  end.
Proof.
  intros Hp h w1. unfold bind.
  rewrite (callDriver_run _ _ _ _ _ Hp). fold h. fold w1.
  destruct (handled_outcome h) as [[e|]|v]; [|done|done].
  unfold failFastLogger. by destruct (IsFailFastEnabled en).
Qed.

Lemma runDrivers_spec en p : forall ds w s,
  sessions w !! p = Some s ->
  exists r w' tr s',
    runDrivers en p ds w = (r, w', tr) /\
    FanOutShape en p (topic s) ds tr r /\
    evolves p 0 tr w s w' s' /\
    sendsOf tr = [].
Proof.
  induction ds as [|d rest IH]; intros w s Hp.
  - exists (Ok tt), w, [], s.
    split; [done|]. split; [constructor|]. split; [by apply evolves_refl|done].
  - simpl runDrivers.
    rewrite (bind_Ok _ _ _ _ _ _ (Session_Topic_run _ _ _ Hp)).
    rewrite (bind_Ok _ _ _ _ _ _ (OnIfLogV_Msgf_run _ _ _)).
    fold (driverLog en d (topic s)).
    assert (Hl := driverLog_isLog en d (topic s)).
    destruct (anyTopicMatches (Driver_GetTopicExpr d) (topic s)) eqn:Hm.
    + assert (Hblock := driverBlock_run en p w s d Hp). simpl in Hblock.
      set (h := Driver_Handle d s (selector en)) in *.
      set (w1 := setSessions w (<[p := afterHandle s h]> (sessions w))) in *.
      assert (Hp1 : sessions w1 !! p = Some (afterHandle s h)) by apply lookup_insert_eq.
      assert (Hev1 : evolves p 0 [EvDriverHandle p d (handled_outcome h)]
                       w s w1 (afterHandle s h)).
      { apply (evolves_store p w s); [done|apply sameIdentity_afterHandle]. }
      destruct (handled_outcome h) as [[e|]|v] eqn:Ho.
      * destruct (IsFailFastEnabled en) eqn:Hff.
        -- rewrite (bind_Panicked _ _ _ _ _ _ Hblock).
           unfold result, final, trace. simpl.
           eexists _, _, _, _. split; [reflexivity|].
           split; [by apply FanFatal|].
           split; [|by rewrite sendsOf_app, (sendsOf_logs _ Hl)].
           apply evolves_prepend_logs; [done|].
           destruct Hev1 as (Hs & Hd & Hc & Hr & Hi).
           unfold evolves. split_and!; simpl; done.
        -- rewrite (bind_Ok _ _ _ _ _ _ Hblock).
           destruct (IH w1 _ Hp1) as (r & w' & tr & s' & Hrun & Hshape & Hev & Hsends).
           rewrite Hrun. unfold result, final, trace. simpl.
           eexists _, _, _, _. split; [reflexivity|].
           split; [by apply FanError|].
           split; [|by rewrite sendsOf_app, (sendsOf_logs _ Hl)].
           apply evolves_prepend_logs; [done|].
           apply (evolves_trans p 0 0 [_; _] tr w s w1 (afterHandle s h)); [|exact Hev].
           destruct Hev1 as (Hs & Hd & Hc & Hr & Hi).
           unfold evolves. split_and!; simpl; done.
      * rewrite (bind_Ok _ _ _ _ _ _ Hblock).
        destruct (IH w1 _ Hp1) as (r & w' & tr & s' & Hrun & Hshape & Hev & Hsends).
        rewrite Hrun. unfold result, final, trace. simpl.
        eexists _, _, _, _. split; [reflexivity|].
        split; [by apply FanNil|].
        split; [|by rewrite sendsOf_app, (sendsOf_logs _ Hl)].
        apply evolves_prepend_logs; [done|].
        by apply (evolves_trans p 0 0 [_] tr w s w1 (afterHandle s h)).
      * rewrite (bind_Panicked _ _ _ _ _ _ Hblock).
        unfold result, final, trace. simpl.
        eexists _, _, _, _. split; [reflexivity|].
        split; [by apply FanPanic|].
        split; [|by rewrite sendsOf_app, (sendsOf_logs _ Hl)].
        by apply evolves_prepend_logs.
    + rewrite (bind_Ok (ret tt) _ w tt w [] eq_refl).
      destruct (IH w _ Hp) as (r & w' & tr & s' & Hrun & Hshape & Hev & Hsends).
      rewrite Hrun. unfold result, final, trace. simpl.
      eexists _, _, _, _. split; [reflexivity|].
      split; [by apply FanSkip|].
      split; [|by rewrite sendsOf_app, (sendsOf_logs _ Hl)].
      by apply evolves_prepend_logs.
Qed.

(** ** The deferred function *)

Lemma checkRecover_run en r msg w :
  checkRecover en r msg w = (recovered en r, w, recoverLog r msg).
Proof.
  unfold checkRecover, recovered, recoverLog, OnIfFailFast.
  destruct r as [[e|v]|]; [| |done].
  - rewrite (bind_Ok _ _ _ _ _ _ (Msgf_run LevelError msg w ltac:(done))).
    by destruct (IsFailFastEnabled en).
  - rewrite (bind_Ok (ret tt) _ w tt w [] eq_refl).
    by destruct (IsFailFastEnabled en).
Qed.

Lemma recoverLog_isLog r msg : forallb isLog (recoverLog r msg) = true.
Proof. by destruct r as [[?|?]|]. Qed.

Lemma stageDeferred_run en p key msg r w s :
  sessions w !! p = Some s ->
  stageDeferred en p key msg r w =
    (recovered en r,
     setSessions (tick w)
       (<[p := setAttributes s
                 (<[key := VDuration (clock w (clockReads w) - timestamp s)]> (attributes s))]>
          (sessions w)),
     EvAddAttribute p key (VDuration (clock w (clockReads w) - timestamp s))
     :: recoverLog r msg).
Proof.
  intros Hp. unfold stageDeferred.
  rewrite (bind_Ok _ _ _ _ _ _ (Session_Escaped_run _ _ _ Hp)).
  assert (Hp' : sessions (tick w) !! p = Some s) by done.
  rewrite (bind_Ok _ _ _ _ _ _ (Session_AddAttribute_run _ _ _ _ _ Hp')).
  rewrite checkRecover_run. reflexivity.
Qed.

(** ** The bodies of the three handlers *)

Section HandlerProperties.

Context `{!SortSort}.

Lemma handleInterceptor_body_spec en p w s :
  sessions w !! p = Some s ->
  exists logs r chainTr w' s',
    forallb isLog logs = true /\
    ChainShape en p (sort_Sort (interceptorsFor en (topic s))) chainTr r /\
    handleInterceptor_body en p w =
      (chainResult r, w', logs ++ chainTr ++ chainTail p r) /\
    evolves p 0 (logs ++ chainTr ++ chainTail p r) w s w' s' /\
    (r = Ok LoopReturn ->
     Outbound_Data (outbound s') !! "error" = Some (VString "InterceptorDropped")).
Proof.
  intros Hp. unfold handleInterceptor_body.
  destruct (collectMatches_run en p s (interceptors en) [] w Hp) as (logs & Hcol & Hlogs).
  rewrite (bind_Ok _ _ _ _ _ _ Hcol). simpl app.
  fold (interceptorsFor en (topic s)).
  destruct (runMatches_spec en p (sort_Sort (interceptorsFor en (topic s))) w s Hp)
    as (r & w1 & tr & s1 & Hrun & Hshape & Hev & Hdrop).
  exists logs, r, tr.
  destruct r as [[|]|v].
  - rewrite (bind_Ok _ _ _ _ _ _ Hrun), send_run. unfold result, final, trace. simpl.
    eexists _, s1. split; [done|]. split; [done|]. split; [reflexivity|]. split; [|done].
    apply evolves_prepend_logs; [done|].
    rewrite <- (Nat.add_0_r 0).
    eapply evolves_trans; [exact Hev|].
    apply evolves_send. by eapply evolves_lookup.
  - rewrite (bind_Ok _ _ _ _ _ _ Hrun). unfold result, final, trace. simpl.
    exists w1, s1. rewrite !app_nil_r.
    split; [done|]. split; [done|]. split; [reflexivity|]. split; [|done].
    by apply evolves_prepend_logs.
  - rewrite (bind_Panicked _ _ _ _ _ _ Hrun). unfold result, final, trace. simpl.
    exists w1, s1. rewrite !app_nil_r.
    split; [done|]. split; [done|]. split; [reflexivity|]. split; [|done].
    by apply evolves_prepend_logs.
Qed.

Lemma handleDriver_body_spec en p w s :
  sessions w !! p = Some s ->
  exists r fanTr w' s',
    FanOutShape en p (topic s) (drivers en) fanTr r /\
    sendsOf fanTr = [] /\
    handleDriver_body en p w = (r, w', fanTr ++ fanTail p r) /\
    evolves p 0 (fanTr ++ fanTail p r) w s w' s'.
Proof.
  intros Hp. unfold handleDriver_body.
  destruct (runDrivers_spec en p (drivers en) w s Hp)
    as (r & w1 & tr & s1 & Hrun & Hshape & Hev & Hsends).
  exists r, tr.
  destruct r as [[]|v].
  - rewrite (bind_Ok _ _ _ _ _ _ Hrun), send_run. unfold result, final, trace. simpl.
    eexists _, s1. split; [done|]. split; [done|]. split; [reflexivity|].
    rewrite <- (Nat.add_0_r 0).
    eapply evolves_trans; [exact Hev|].
    apply evolves_send. by eapply evolves_lookup.
  - rewrite (bind_Panicked _ _ _ _ _ _ Hrun). simpl. rewrite app_nil_r.
    by exists w1, s1.
Qed.

Lemma handleOutput_body_spec p w s :
  sessions w !! p = Some s ->
  let data := Outbound_Data (outbound s) in
  handleOutput_body p w =
    (match onCompletedFunc s data with None => Ok tt | Some r => Panicked r end,
     w, [EvCompleted p data (onCompletedFunc s data)]) /\
  evolves p 0 [EvCompleted p data (onCompletedFunc s data)] w s w s.
Proof.
  intros Hp data. split; [by apply callOnCompleted_run|].
  apply (evolves_refl p w s) in Hp.
  destruct Hp as (?&?&?&?&?). unfold evolves. by split_and!.
Qed.

Lemma stageBody_evolves lv en p w s :
  sessions w !! p = Some s ->
  exists w' s', evolves p 0 (trace (stageBody lv en p w)) w s w' s' /\
                final (stageBody lv en p w) = w'.
Proof.
  intros Hp. destruct lv; simpl.
  - destruct (handleInterceptor_body_spec en p w s Hp)
      as (logs & r & tr & w' & s' & _ & _ & Hrun & Hev & _).
    exists w', s'. by rewrite Hrun.
  - destruct (handleDriver_body_spec en p w s Hp) as (r & tr & w' & s' & _ & _ & Hrun & Hev).
    exists w', s'. by rewrite Hrun.
  - destruct (handleOutput_body_spec p w s Hp) as (Hrun & Hev).
    exists w, s. by rewrite Hrun.
Qed.

(** ** The frame of a stage handler *)

Lemma ForEach_Msgf_run {A} (f : A -> string) (l : list A) w :
  ForEach l (fun x => Msgf LevelDebug (f x)) w =
    (Ok tt, w, map (fun x => EvLog LevelDebug (f x)) l).
Proof.
  induction l as [|x l IH]; [done|]. simpl.
  rewrite (bind_Ok _ _ _ _ _ _ (Msgf_run LevelDebug (f x) w ltac:(done))).
  by rewrite IH.
Qed.

Lemma map_EvLog_isLog {A} (f : A -> string) (l : list A) :
  forallb isLog (map (fun x => EvLog LevelDebug (f x)) l) = true.
Proof. by induction l. Qed.

Lemma startedWorld_lookup lv p s w :
  sessions (startedWorld lv p s w) !! p = Some (started lv s w).
Proof. apply lookup_insert_eq. Qed.

Lemma stageHandler_prologue lv en p w s :
  sessions w !! p = Some s ->
  exists logs,
    forallb isLog logs = true /\
    stageHandler lv en p w =
      (result (deferRecover (stageDeferred en p (endKey lv) (recoverMsg lv))
                 (stageBody lv en p) (startedWorld lv p s w)),
       final (deferRecover (stageDeferred en p (endKey lv) (recoverMsg lv))
                 (stageBody lv en p) (startedWorld lv p s w)),
       logs ++ EvAddAttribute p (startKey lv) (VTime (clock w (clockReads w)))
            :: trace (deferRecover (stageDeferred en p (endKey lv) (recoverMsg lv))
                        (stageBody lv en p) (startedWorld lv p s w))).
Proof.
  intros Hp.
  assert (Hnow : time_Now w = (Ok (clock w (clockReads w)), tick w, [])) by done.
  assert (Hp' : sessions (tick w) !! p = Some s) by done.
  destruct lv; unfold stageHandler.
  - unfold handleInterceptor, OnIfLogV.
    destruct (IsVerboseEnabled en).
    + exists [EvLog LevelDebug ("Interceptor dispatch, Topic: " +:+ topic s)].
      split; [done|].
      erewrite (bind_Ok (bind (Session_Topic p) _)); cycle 1.
      { rewrite (bind_Ok _ _ _ _ _ _ (Session_Topic_run _ _ _ Hp)). reflexivity. }
      rewrite (bind_Ok _ _ _ _ _ _ Hnow).
      rewrite (bind_Ok _ _ _ _ _ _ (Session_AddAttribute_run _ _ _ _ _ Hp')).
      reflexivity.
    + exists []. split; [done|].
      rewrite (bind_Ok (ret tt) _ w tt w [] eq_refl).
      rewrite (bind_Ok _ _ _ _ _ _ Hnow).
      rewrite (bind_Ok _ _ _ _ _ _ (Session_AddAttribute_run _ _ _ _ _ Hp')).
      reflexivity.
  - unfold handleDriver, OnIfLogV.
    destruct (IsVerboseEnabled en).
    + exists [EvLog LevelDebug ("Driver dispatch, Topic: " +:+ topic s)].
      split; [done|].
      erewrite (bind_Ok (bind (Session_Topic p) _)); cycle 1.
      { rewrite (bind_Ok _ _ _ _ _ _ (Session_Topic_run _ _ _ Hp)). reflexivity. }
      rewrite (bind_Ok _ _ _ _ _ _ Hnow).
      rewrite (bind_Ok _ _ _ _ _ _ (Session_AddAttribute_run _ _ _ _ _ Hp')).
      reflexivity.
    + exists []. split; [done|].
      rewrite (bind_Ok (ret tt) _ w tt w [] eq_refl).
      rewrite (bind_Ok _ _ _ _ _ _ Hnow).
      rewrite (bind_Ok _ _ _ _ _ _ (Session_AddAttribute_run _ _ _ _ _ Hp')).
      reflexivity.
  - unfold handleOutput, OnIfLogV.
    destruct (IsVerboseEnabled en).
    + eexists. split; cycle 1.
      * erewrite (bind_Ok (bind (Session_Topic p) _)); cycle 1.
        { rewrite (bind_Ok _ _ _ _ _ _ (Session_Topic_run _ _ _ Hp)).
          rewrite (bind_Ok _ _ _ _ _ _ (Msgf_run LevelDebug _ w ltac:(done))).
          rewrite (bind_Ok _ _ _ _ _ _ (load_run _ _ _ Hp)).
          rewrite (ForEach_Msgf_run (fun kv : string * Value => "SessionAttr: " +:+ kv.1)).
          reflexivity. }
        rewrite (bind_Ok _ _ _ _ _ _ Hnow).
        rewrite (bind_Ok _ _ _ _ _ _ (Session_AddAttribute_run _ _ _ _ _ Hp')).
        reflexivity.
      * simpl. apply map_EvLog_isLog.
    + exists []. split; [done|].
      rewrite (bind_Ok (ret tt) _ w tt w [] eq_refl).
      rewrite (bind_Ok _ _ _ _ _ _ Hnow).
      rewrite (bind_Ok _ _ _ _ _ _ (Session_AddAttribute_run _ _ _ _ _ Hp')).
      reflexivity.
Qed.

(** A stage handler, end to end: the start attribute, the body, the end
    attribute, and what [checkRecover] makes of the way the body ended. *)
Lemma stageHandler_spec lv en p w s :
  sessions w !! p = Some s ->
  let body := stageBody lv en p (startedWorld lv p s w) in
  let elapsed := VDuration (clock w (S (clockReads w)) - timestamp s) in
  exists logs sb,
    forallb isLog logs = true /\
    evolves p 0 (trace body) (startedWorld lv p s w) (started lv s w) (final body) sb /\
    stageHandler lv en p w =
      (recovered en (panicOf (result body)),
       setSessions (tick (final body))
         (<[p := setAttributes sb (<[endKey lv := elapsed]> (attributes sb))]>
            (sessions (final body))),
       logs ++ EvAddAttribute p (startKey lv) (VTime (clock w (clockReads w)))
            :: trace body
            ++ EvAddAttribute p (endKey lv) elapsed
            :: recoverLog (panicOf (result body)) (recoverMsg lv)).
Proof.
  intros Hp body elapsed.
  destruct (stageHandler_prologue lv en p w s Hp) as (logs & Hlogs & Hrun).
  destruct (stageBody_evolves lv en p _ _ (startedWorld_lookup lv p s w))
    as (wb & sb & Hev & Hfinal).
  fold body in Hev, Hfinal. subst wb.
  exists logs, sb. split; [done|]. split; [done|].
  rewrite Hrun. clear Hrun.
  assert (Hpb := evolves_lookup _ _ _ _ _ _ _ Hev).
  destruct Hev as (_ & _ & Hclock & Hreads & Hid).
  assert (Hdef : forall r,
    stageDeferred en p (endKey lv) (recoverMsg lv) r (final body) =
      (recovered en r,
       setSessions (tick (final body))
         (<[p := setAttributes sb (<[endKey lv := elapsed]> (attributes sb))]>
            (sessions (final body))),
       EvAddAttribute p (endKey lv) elapsed :: recoverLog r (recoverMsg lv))).
  { intros r. rewrite (stageDeferred_run _ _ _ _ _ _ _ Hpb).
    destruct Hid as (Hts & _).
    unfold elapsed. rewrite Hclock, Hreads, Hts. simpl.
    by rewrite Nat.add_0_r. }
  unfold deferRecover. fold body.
  rewrite (run_eta body).
  destruct (result body) as [[]|v]; rewrite Hdef; reflexivity.
Qed.

(** ** Stage timing *)

(** C10: every stage handler records the attribute "<Stage>.Start" with
    the time read at entry before its body runs, and, whichever way the
    body ends (normally, by the drop branch or by a panic), the attribute
    "<Stage>.End" with the duration elapsed since the creation of the
    session. *)
Theorem stage_timing_attributes lv en p w s :
  sessions w !! p = Some s ->
  let run := stageHandler lv en p w in
  let startedAt := VTime (clock w (clockReads w)) in
  let elapsed := VDuration (clock w (S (clockReads w)) - timestamp s) in
  exists logs post s0 s',
    forallb isLog logs = true /\ forallb isLog post = true /\
    trace run =
      logs ++ EvAddAttribute p (startKey lv) startedAt
           :: trace (stageBody lv en p (startedWorld lv p s w))
           ++ EvAddAttribute p (endKey lv) elapsed :: post /\
    sessions (startedWorld lv p s w) !! p = Some s0 /\
    attributes s0 !! startKey lv = Some startedAt /\
    sessions (final run) !! p = Some s' /\
    attributes s' !! endKey lv = Some elapsed.
Proof.
  intros Hp run startedAt elapsed.
  destruct (stageHandler_spec lv en p w s Hp) as (logs & sb & Hlogs & Hev & Hrun).
  exists logs, (recoverLog (panicOf (result (stageBody lv en p (startedWorld lv p s w))))
                  (recoverMsg lv)).
  exists (started lv s w).
  exists (setAttributes sb (<[endKey lv := elapsed]> (attributes sb))).
  unfold run. rewrite Hrun. unfold trace at 1, final at 1. simpl.
  split; [done|]. split; [apply recoverLog_isLog|]. split; [done|].
  split; [apply lookup_insert_eq|]. split; [apply lookup_insert_eq|].
  split; apply lookup_insert_eq.
Qed.

(** ** The Invoker *)

(** C9: the session the Invoker builds carries the event's topic and
    data as its inbound message, the same topic and an empty data mapping
    as its outbound message, and is sent on the channel of stage 0 and on
    no other. *)
Theorem invoker_builds_session en income cbFunc w :
  let run := invoker en income cbFunc w in
  exists p s,
    result run = Ok p /\
    sessions w !! p = None /\
    sessions (final run) !! p = Some s /\
    Inbound_Topic (inbound s) = income_topic income /\
    Inbound_Data (inbound s) = income_data income /\
    Outbound_Topic (outbound s) = income_topic income /\
    Outbound_Data (outbound s) = ∅ /\
    topic s = income_topic income /\
    onCompletedFunc s = cbFunc /\
    sendsOf (trace run) = [(StageLv0, p)] /\
    Lv0 (dispatcher (final run)) = Lv0 (dispatcher w) ++ [p] /\
    Lv1 (dispatcher (final run)) = Lv1 (dispatcher w) /\
    Lv2 (dispatcher (final run)) = Lv2 (dispatcher w) /\
    (forall q, q <> p -> sessions (final run) !! q = sessions w !! q).
Proof.
  intros run. unfold run, invoker.
  rewrite (bind_Ok _ _ _ _ _ _ (OnIfLogV_Msgf_run _ _ _)).
  set (p := fresh (dom (sessions w))).
  eexists p, _.
  unfold bind, time_Now, new, send, ret, result, final, trace. simpl.
  fold p.
  split; [reflexivity|].
  split; [apply not_elem_of_dom, is_fresh|].
  split; [apply lookup_insert_eq|].
  simpl. split_and!; try done.
  - rewrite sendsOf_app, sendsOf_logs; [done|]. by destruct (IsVerboseEnabled en).
  - intros q Hq. by apply lookup_insert_ne.
Qed.

(** ** Lifecycle *)





(** *** Calls that run until one panics *)

Lemma firstPanic_app {A} (ends : A -> option PanicValue) (a b : list A) :
  firstPanic ends (a ++ b) =
    match firstPanic ends a with Some v => Some v | None => firstPanic ends b end.
Proof. induction a as [|x a IH]; [done|]. simpl. by destruct (ends x). Qed.

Lemma issued_app {A} (ends : A -> option PanicValue) (a b : list A) :
  issued ends (a ++ b) =
    issued ends a ++ match firstPanic ends a with Some _ => [] | None => issued ends b end.
Proof.
  induction a as [|x a IH]; [done|]. simpl. destruct (ends x); [done|]. by rewrite IH.
Qed.

Lemma firstPanic_allReturn {A} (ends : A -> option PanicValue) (l : list A) :
  allReturn ends l = match firstPanic ends l with None => true | Some _ => false end.
Proof. induction l as [|x l IH]; [done|]. simpl. by destruct (ends x). Qed.


Lemma issued_all {A} (ends : A -> option PanicValue) (l : list A) :
  firstPanic ends l = None -> issued ends l = l.
Proof.
  induction l as [|x l IH]; [done|]. simpl. destruct (ends x); [done|].
  intros Hl. by rewrite IH.
Qed.



Lemma ForEach_calls {A} (ends : A -> option PanicValue) (events : A -> list Event)
    (f : A -> M unit) (l : list A) w :
  (forall x w', f x w' = (resultOf (ends x), w', events x)) ->
  ForEach l f w = (resultOf (firstPanic ends l), w, issued ends l ≫= events).
Proof.
  intros Hf. induction l as [|x l IH]; [done|].
  simpl ForEach. unfold bind. rewrite Hf. simpl.
  destruct (ends x) as [v|]; simpl; [by rewrite app_nil_r|].
  by rewrite IH.
Qed.

Lemma callHook_run h w : callHook h w = (resultOf (hook_panics h), w, hookEvents h).
Proof. unfold callHook, bind, emit, hookEvents. simpl. by destruct (hook_panics h). Qed.

Lemma CheckTimeout_run msg a w :
  CheckTimeout msg a w = (resultOf (stepPanics (msg, a)), w, stepEvents (msg, a)).
Proof.
  unfold CheckTimeout, stepPanics, stepEvents, bind, emit. simpl.
  by destruct (action_overruns a), (action_panics a).
Qed.

Lemma ForEach_hooks_run (l : list HookFunc) w :
  ForEach l callHook w =
    (resultOf (firstPanic hook_panics l), w, issued hook_panics l ≫= hookEvents).
Proof. apply ForEach_calls. intros h w'. apply callHook_run. Qed.

Lemma calls_map {A B} (g : A -> B) (ends : B -> option PanicValue)
    (events : B -> list Event) (l : list A) :
  firstPanic ends (map g l) = firstPanic (fun x => ends (g x)) l /\
  issued ends (map g l) ≫= events =
    issued (fun x => ends (g x)) l ≫= (fun x => events (g x)).
Proof.
  induction l as [|x l [IH1 IH2]]; [done|].
  cbn [map firstPanic issued]. destruct (ends (g x)) as [v|]; [done|].
  split; [exact IH1|].
  change (events (g x) ++ (issued ends (map g l) ≫= events) =
          events (g x) ++ (issued (fun x => ends (g x)) l ≫= (fun x => events (g x)))).
  by rewrite IH2.
Qed.

(** The loop over the components of one role. *)
Lemma ForEach_CheckTimeout_run {A} (msg : string) (act : A -> Action) (l : list A) w :
  ForEach l (fun it => CheckTimeout msg (act it)) w =
    stepsRun (map (fun it => (msg, act it)) l) w.
Proof.
  unfold stepsRun.
  destruct (calls_map (fun it => (msg, act it)) stepPanics stepEvents l) as [-> ->].
  apply ForEach_calls. intros x w'. apply CheckTimeout_run.
Qed.

(** One role after the other. *)
Lemma stepsRun_then (m1 m2 : M unit) s1 s2 w :
  m1 w = stepsRun s1 w -> m2 w = stepsRun s2 w ->
  (do _ <- m1; m2) w = stepsRun (s1 ++ s2) w.
Proof.
  intros H1 H2. unfold bind, stepsRun in *. rewrite H1.
  rewrite firstPanic_app, issued_app, bind_app.
  destruct (firstPanic stepPanics s1) as [v|]; simpl; [by rewrite app_nil_r|].
  by rewrite H2.
Qed.

Lemma Start_body_run en w :
  (do _ <- ForEach (plugins en) (fun it => checkDefTimeout "Plugin.Start" (OnStart it));
   do _ <- ForEach (rangePipelines en) (fun pipeline =>
             checkDefTimeout "Pipeline.Start" (OnStart pipeline));
   do _ <- ForEach (drivers en) (fun it =>
             checkDefTimeout "Driver.Start" (OnStart (Driver_lifecycle it)));
   ForEach (triggers en) (fun it => CheckTimeout "Trigger.Start" (OnStart it))) w
  = stepsRun (startSteps en) w.
Proof.
  unfold startSteps, checkDefTimeout.
  apply stepsRun_then; [apply (ForEach_CheckTimeout_run "Plugin.Start" OnStart)|].
  apply stepsRun_then; [apply (ForEach_CheckTimeout_run "Pipeline.Start" OnStart)|].
  apply stepsRun_then;
    [apply (ForEach_CheckTimeout_run "Driver.Start" (fun it => OnStart (Driver_lifecycle it)))|].
  apply (ForEach_CheckTimeout_run "Trigger.Start" OnStart).
Qed.

Lemma Stop_body_run en w :
  (do _ <- ForEach (triggers en) (fun it => CheckTimeout "Trigger.Stop" (OnStop it));
   do _ <- ForEach (drivers en) (fun it =>
             checkDefTimeout "Driver.Stop" (OnStop (Driver_lifecycle it)));
   do _ <- ForEach (rangePipelines en) (fun pipeline =>
             checkDefTimeout "Pipeline.Stop" (OnStop pipeline));
   ForEach (plugins en) (fun it => checkDefTimeout "Plugin.Stop" (OnStop it))) w
  = stepsRun (stopSteps en) w.
Proof.
  unfold stopSteps, checkDefTimeout.
  apply stepsRun_then; [apply (ForEach_CheckTimeout_run "Trigger.Stop" OnStop)|].
  apply stepsRun_then;
    [apply (ForEach_CheckTimeout_run "Driver.Stop" (fun it => OnStop (Driver_lifecycle it)))|].
  apply stepsRun_then; [apply (ForEach_CheckTimeout_run "Pipeline.Stop" OnStop)|].
  apply (ForEach_CheckTimeout_run "Plugin.Stop" OnStop).
Qed.

(** [Start], run: the trace and the result, case by case of the first
    panic. *)
Lemma Start_run en w :
  Start en w =
    match firstPanic hook_panics (startBeforeHooks en) with
    | Some v =>
        (Panicked v, w,
         EvLog LevelInfo "Engine starting..."
         :: (issued hook_panics (startBeforeHooks en) ≫= hookEvents))
    | None =>
        (match firstPanic hook_panics (startAfterHooks en) with
         | Some v' => Panicked v'
         | None => resultOf (firstPanic stepPanics (startSteps en))
         end,
         w,
         EvLog LevelInfo "Engine starting..."
         :: (issued hook_panics (startBeforeHooks en) ≫= hookEvents)
         ++ (issued stepPanics (startSteps en) ≫= stepEvents)
         ++ (issued hook_panics (startAfterHooks en) ≫= hookEvents)
         ++ match firstPanic hook_panics (startAfterHooks en) with
            | Some _ => []
            | None => [EvLog LevelInfo "Engine starting...OK"]
            end)
    end.
Proof.
  unfold Start.
  rewrite (bind_Ok _ _ _ _ _ _ (Msgf_run LevelInfo _ w ltac:(done))).
  pose proof (ForEach_hooks_run (startBeforeHooks en) w) as Hb.
  pose proof (ForEach_hooks_run (startAfterHooks en) w) as Ha.
  destruct (firstPanic hook_panics (startBeforeHooks en)) as [v|]; simpl in Hb.
  { by rewrite (bind_Panicked _ _ _ _ _ _ Hb). }
  rewrite (bind_Ok _ _ _ _ _ _ Hb).
  unfold deferPlain. rewrite Start_body_run. unfold stepsRun.
  assert (Hd : (do _ <- ForEach (startAfterHooks en) callHook;
                Msgf LevelInfo "Engine starting...OK") w
               = (resultOf (firstPanic hook_panics (startAfterHooks en)), w,
                  (issued hook_panics (startAfterHooks en) ≫= hookEvents)
                  ++ match firstPanic hook_panics (startAfterHooks en) with
                     | Some _ => []
                     | None => [EvLog LevelInfo "Engine starting...OK"]
                     end)).
  { destruct (firstPanic hook_panics (startAfterHooks en)) as [v'|]; simpl in Ha |- *.
    - by rewrite (bind_Panicked _ _ _ _ _ _ Ha), app_nil_r.
    - by rewrite (bind_Ok _ _ _ _ _ _ Ha). }
  destruct (firstPanic stepPanics (startSteps en)) as [v|]; simpl; rewrite Hd;
    unfold result, final, trace; simpl;
    by destruct (firstPanic hook_panics (startAfterHooks en)).
Qed.

(** [Stop], run.  The shutdown signal is given by the deferred function
    after the stop-after hooks: it is there whenever the stop-before and
    the stop-after hooks return, whatever the lifecycle calls do. *)
Lemma Stop_run en w :
  Stop en w =
    match firstPanic hook_panics (stopBeforeHooks en) with
    | Some v =>
        (Panicked v, w,
         EvLog LevelInfo "Engine stopping..."
         :: (issued hook_panics (stopBeforeHooks en) ≫= hookEvents))
    | None =>
        (match firstPanic hook_panics (stopAfterHooks en) with
         | Some v' => Panicked v'
         | None => resultOf (firstPanic stepPanics (stopSteps en))
         end,
         w,
         EvLog LevelInfo "Engine stopping..."
         :: (issued hook_panics (stopBeforeHooks en) ≫= hookEvents)
         ++ (issued stepPanics (stopSteps en) ≫= stepEvents)
         ++ (issued hook_panics (stopAfterHooks en) ≫= hookEvents)
         ++ match firstPanic hook_panics (stopAfterHooks en) with
            | Some _ => []
            | None => [EvShutdown; EvLog LevelInfo "Engine stopping...OK"]
            end)
    end.
Proof.
  unfold Stop.
  rewrite (bind_Ok _ _ _ _ _ _ (Msgf_run LevelInfo _ w ltac:(done))).
  pose proof (ForEach_hooks_run (stopBeforeHooks en) w) as Hb.
  pose proof (ForEach_hooks_run (stopAfterHooks en) w) as Ha.
  destruct (firstPanic hook_panics (stopBeforeHooks en)) as [v|]; simpl in Hb.
  { by rewrite (bind_Panicked _ _ _ _ _ _ Hb). }
  rewrite (bind_Ok _ _ _ _ _ _ Hb).
  unfold deferPlain. rewrite Stop_body_run. unfold stepsRun.
  assert (Hd : (do _ <- ForEach (stopAfterHooks en) callHook;
                do _ <- emit EvShutdown;
                Msgf LevelInfo "Engine stopping...OK") w
               = (resultOf (firstPanic hook_panics (stopAfterHooks en)), w,
                  (issued hook_panics (stopAfterHooks en) ≫= hookEvents)
                  ++ match firstPanic hook_panics (stopAfterHooks en) with
                     | Some _ => []
                     | None => [EvShutdown; EvLog LevelInfo "Engine stopping...OK"]
                     end)).
  { destruct (firstPanic hook_panics (stopAfterHooks en)) as [v'|]; simpl in Ha |- *.
    - by rewrite (bind_Panicked _ _ _ _ _ _ Ha), app_nil_r.
    - by rewrite (bind_Ok _ _ _ _ _ _ Ha). }
  destruct (firstPanic stepPanics (stopSteps en)) as [v|]; simpl; rewrite Hd;
    unfold result, final, trace; simpl;
    by destruct (firstPanic hook_panics (stopAfterHooks en)).
Qed.





(** ** Reading the trace of a stage handler *)

Lemma omap_silent {B} (g : Event -> option B) (t : list Event) :
  (forall lvl msg, g (EvLog lvl msg) = None) ->
  forallb isLog t = true -> omap g t = [].
Proof.
  intros Hg. induction t as [|e t IH]; [done|]. simpl.
  intros [He Ht]%andb_prop. destruct e; try done. rewrite Hg. by apply IH.
Qed.

Lemma omap_framed {B} (g : Event -> option B) logs a1 body a2 post :
  (forall lvl msg, g (EvLog lvl msg) = None) ->
  g a1 = None -> g a2 = None ->
  forallb isLog logs = true -> forallb isLog post = true ->
  omap g (logs ++ a1 :: body ++ a2 :: post) = omap g body.
Proof.
  intros Hg H1 H2 Hlogs Hpost.
  assert (Hcons : forall a t, g a = None -> omap g (a :: t) = omap g t).
  { intros a t Ha. simpl. by rewrite Ha. }
  rewrite omap_app, (omap_silent g logs Hg Hlogs), (Hcons _ _ H1).
  rewrite omap_app, (Hcons _ _ H2), (omap_silent g post Hg Hpost).
  by rewrite app_nil_r.
Qed.

Lemma interceptorCalls_app p t1 t2 :
  interceptorCalls p (t1 ++ t2) = interceptorCalls p t1 ++ interceptorCalls p t2.
Proof. apply omap_app. Qed.

Lemma interceptorCalls_handle p it o t :
  interceptorCalls p (EvInterceptorHandle p it o :: t) = (it, o) :: interceptorCalls p t.
Proof. unfold interceptorCalls. simpl. by rewrite decide_True. Qed.

Lemma interceptorCalls_log p lvl msg t :
  interceptorCalls p (EvLog lvl msg :: t) = interceptorCalls p t.
Proof. reflexivity. Qed.

Lemma driverCalls_app p t1 t2 :
  driverCalls p (t1 ++ t2) = driverCalls p t1 ++ driverCalls p t2.
Proof. apply omap_app. Qed.

Lemma driverCalls_handle p d o t :
  driverCalls p (EvDriverHandle p d o :: t) = (d, o) :: driverCalls p t.
Proof. unfold driverCalls. simpl. by rewrite decide_True. Qed.

Lemma driverCalls_log p lvl msg t :
  driverCalls p (EvLog lvl msg :: t) = driverCalls p t.
Proof. reflexivity. Qed.

Lemma completionsOf_app p t1 t2 :
  completionsOf p (t1 ++ t2) = completionsOf p t1 ++ completionsOf p t2.
Proof. apply omap_app. Qed.

(** What a stage handler adds to its body is silent: logs and
    attributes.  Every projection that ignores those reads the same from
    the handler as from its body. *)
Lemma stageHandler_reads lv en p w s :
  sessions w !! p = Some s ->
  let run := stageHandler lv en p w in
  let body := stageBody lv en p (startedWorld lv p s w) in
  result run = recovered en (panicOf (result body)) /\
  (forall B (g : Event -> option B),
     (forall lvl msg, g (EvLog lvl msg) = None) ->
     (forall q key v, g (EvAddAttribute q key v) = None) ->
     omap g (trace run) = omap g (trace body)) /\
  (exists sb s',
     sessions (final body) !! p = Some sb /\
     sameIdentity s sb /\
     sessions (final run) !! p = Some s' /\
     sameIdentity s s' /\
     outbound s' = outbound sb) /\
  (forall q, q <> p -> sessions (final run) !! q = sessions w !! q) /\
  dispatcher (final run) = enqueueAll (sendsOf (trace body)) (dispatcher w).
Proof.
  intros Hp run body.
  destruct (stageHandler_spec lv en p w s Hp) as (logs & sb & Hlogs & Hev & Hrun).
  fold body in Hev, Hrun. unfold run. rewrite Hrun. clear Hrun.
  unfold result at 1, trace at 1, final at 2 3 4. simpl.
  assert (Hpb := evolves_lookup _ _ _ _ _ _ _ Hev).
  destruct Hev as (Hs & Hd & _ & _ & Hid).
  split; [done|]. split.
  { intros B g Hg Ha. apply omap_framed; auto using recoverLog_isLog. }
  split.
  { exists sb, (setAttributes sb
                  (<[endKey lv := VDuration (clock w (S (clockReads w)) - timestamp s)]>
                     (attributes sb))).
    split; [done|]. split.
    { eapply sameIdentity_trans; [|exact Hid]. apply sameIdentity_setAttributes. }
    split; [apply lookup_insert_eq|]. split; [|done].
    eapply sameIdentity_trans; [|apply sameIdentity_setAttributes].
    eapply sameIdentity_trans; [|exact Hid]. apply sameIdentity_setAttributes. }
  split.
  { intros q Hq. rewrite lookup_insert_ne by done. rewrite Hs.
    rewrite lookup_insert_ne by done. simpl. by rewrite lookup_insert_ne. }
  by rewrite Hd.
Qed.

(** ** What the chain of interceptors guarantees *)

Lemma chain_sends en p ms tr r :
  ChainShape en p ms tr r ->
  sendsOf tr = match r with Ok LoopReturn => [(StageLv2, p)] | _ => [] end.
Proof. induction 1; simpl; done. Qed.

Lemma chain_no_other_calls en p ms tr r q :
  ChainShape en p ms tr r -> driverCalls q tr = [] /\ completionsOf q tr = [].
Proof. induction 1; simpl; done. Qed.

Lemma chain_calls_prefix en p ms tr r :
  ChainShape en p ms tr r -> (interceptorCalls p tr).*1 `prefix_of` ms.
Proof.
  induction 1; rewrite ?interceptorCalls_handle; simpl.
  - done.
  - by apply prefix_cons.
  - by apply prefix_cons.
  - apply prefix_cons, prefix_nil.
  - apply prefix_cons, prefix_nil.
  - apply prefix_cons, prefix_nil.
Qed.

Lemma chain_end_calls en p ms tr r :
  ChainShape en p ms tr r -> r = Ok LoopEnd ->
  (interceptorCalls p tr).*1 = ms /\
  Forall (fun c => c.2 = Returns None \/ exists msg, c.2 = Returns (Some (ErrOther msg)))
    (interceptorCalls p tr).
Proof.
  induction 1; intros Hr; try done;
    rewrite ?interceptorCalls_handle, ?interceptorCalls_log.
  - destruct (IHChainShape Hr) as [Heq Hall]. split; [by rewrite fmap_cons, Heq|].
    constructor; [by left|done].
  - destruct (IHChainShape Hr) as [Heq Hall]. split; [by rewrite fmap_cons, Heq|].
    constructor; [right; by eexists|done].
Qed.

Lemma chain_drop en p ms tr r it :
  ChainShape en p ms tr r ->
  (it, Returns (Some ErrInterceptorDropped)) ∈ interceptorCalls p tr ->
  r = Ok LoopReturn /\
  exists before,
    interceptorCalls p tr = before ++ [(it, Returns (Some ErrInterceptorDropped))].
Proof.
  induction 1; rewrite ?interceptorCalls_handle; simpl; intros Hin.
  - by apply elem_of_nil in Hin.
  - apply elem_of_cons in Hin as [Heq|Hin]; [done|].
    destruct (IHChainShape Hin) as (-> & before & ->).
    split; [done|]. by eexists (_ :: before).
  - apply elem_of_cons in Hin as [Heq|Hin]; [done|].
    destruct (IHChainShape Hin) as (-> & before & ->).
    split; [done|]. by eexists (_ :: before).
  - apply elem_of_cons in Hin as [Heq|Hin]; [done|]. by apply elem_of_nil in Hin.
  - apply elem_of_cons in Hin as [Heq|Hin]; [|by apply elem_of_nil in Hin].
    injection Heq as ->. split; [done|]. by exists [].
  - apply elem_of_cons in Hin as [Heq|Hin]; [done|]. by apply elem_of_nil in Hin.
Qed.

(** Without fail-fast, a chain in which no [Handle] panics runs to the
    end of the loop or to the [return] of the drop branch. *)
Lemma chain_returns en p ms tr r :
  ChainShape en p ms tr r ->
  IsFailFastEnabled en = false ->
  Forall (fun c => isPanics c.2 = false) (interceptorCalls p tr) ->
  exists e, r = Ok e.
Proof.
  induction 1; rewrite ?interceptorCalls_handle; simpl; intros Hff Hall.
  - by eexists.
  - apply Forall_cons in Hall as [_ Hall]. by apply IHChainShape.
  - apply Forall_cons in Hall as [_ Hall]. by apply IHChainShape.
  - congruence.
  - by eexists.
  - by apply Forall_cons in Hall as [Hv _].
Qed.





(** ** The interceptor stage, end to end *)

Lemma handleInterceptor_chain en p w s :
  sessions w !! p = Some s ->
  let run := handleInterceptor en p w in
  exists r chainTr pre post,
    ChainShape en p (sort_Sort (interceptorsFor en (topic s))) chainTr r /\
    trace run = pre ++ chainTr ++ post /\
    interceptorCalls p pre = [] /\
    interceptorCalls p (trace run) = interceptorCalls p chainTr /\
    sendsOf (trace run) = sendsOf chainTr ++ sendsOf (chainTail p r) /\
    (forall q, driverCalls q (trace run) = [] /\ completionsOf q (trace run) = []) /\
    result run = recovered en (panicOf r) /\
    (exists s', sessions (final run) !! p = Some s' /\ sameIdentity s s' /\
                (r = Ok LoopReturn ->
                 Outbound_Data (outbound s') !! "error" = Some (VString "InterceptorDropped"))) /\
    (forall q, q <> p -> sessions (final run) !! q = sessions w !! q) /\
    dispatcher (final run) =
      enqueueAll (sendsOf chainTr ++ sendsOf (chainTail p r)) (dispatcher w).
Proof.
  intros Hp run.
  destruct (stageHandler_spec StageLv0 en p w s Hp) as (logs1 & sb0 & Hlogs1 & _ & Hrun).
  destruct (stageHandler_reads StageLv0 en p w s Hp)
    as (Hres & Hreads & (sb & s' & Hsb & Hidb & Hs' & Hid & Hout) & Hframe & Hdisp).
  destruct (handleInterceptor_body_spec en p _ _ (startedWorld_lookup StageLv0 p s w))
    as (logs2 & r & chainTr & wb & sb' & Hlogs2 & Hshape & Hbody & Hev & Hdrop).
  set (body := stageBody StageLv0 en p (startedWorld StageLv0 p s w)) in *.
  assert (Hb : body = (chainResult r, wb, logs2 ++ chainTr ++ chainTail p r)) by exact Hbody.
  assert (Hbres : result body = chainResult r) by (by rewrite Hb).
  assert (Hbtr : trace body = logs2 ++ chainTr ++ chainTail p r) by (by rewrite Hb).
  assert (Hbfin : final body = wb) by (by rewrite Hb).
  clearbody body. clear Hb Hbody.
  rewrite Hbres in Hres, Hrun. rewrite Hbtr in Hreads, Hdisp, Hrun. rewrite Hbfin in Hsb, Hrun.
  change (stageHandler StageLv0 en p w) with run in *.
  assert (Htr : trace run =
                logs1 ++ EvAddAttribute p (startKey StageLv0) (VTime (clock w (clockReads w)))
                :: (logs2 ++ chainTr ++ chainTail p r)
                ++ EvAddAttribute p (endKey StageLv0)
                     (VDuration (clock w (S (clockReads w)) - timestamp s))
                :: recoverLog (panicOf (chainResult r)) (recoverMsg StageLv0))
    by (by rewrite Hrun).
  clear Hrun.
  assert (sb' = sb) as ->.
  { apply evolves_lookup in Hev. congruence. }
  assert (Hg : forall B (g : Event -> option B),
             (forall lvl msg, g (EvLog lvl msg) = None) ->
             (forall q key v, g (EvAddAttribute q key v) = None) ->
             omap g (trace run) = omap g chainTr ++ omap g (chainTail p r)).
  { intros B g Hl Ha. rewrite (Hreads B g Hl Ha).
    by rewrite !omap_app, (omap_silent g logs2 Hl Hlogs2). }
  assert (Htail : interceptorCalls p (chainTail p r) = []) by (by destruct r as [[|]|]).
  exists r, chainTr.
  exists (logs1 ++ EvAddAttribute p (startKey StageLv0) (VTime (clock w (clockReads w)))
          :: logs2).
  exists (chainTail p r
          ++ EvAddAttribute p (endKey StageLv0)
               (VDuration (clock w (S (clockReads w)) - timestamp s))
          :: recoverLog (panicOf (chainResult r)) (recoverMsg StageLv0)).
  split; [exact Hshape|]. split.
  { rewrite Htr. rewrite <- ?app_assoc. simpl. by rewrite <- ?app_assoc. }
  split.
  { rewrite interceptorCalls_app. unfold interceptorCalls at 1.
    rewrite (omap_silent _ logs1) by done. simpl.
    unfold interceptorCalls. by rewrite (omap_silent _ logs2). }
  split.
  { unfold interceptorCalls in *. rewrite Hg by done. by rewrite Htail, app_nil_r. }
  split; [by apply Hg|].
  split.
  { intros q. destruct (chain_no_other_calls en p _ _ _ q Hshape) as [Hd Hc].
    unfold driverCalls, completionsOf in *. rewrite !Hg by done.
    rewrite Hd, Hc. by destruct r as [[|]|]. }
  split.
  { rewrite Hres. by destruct r. }
  split.
  { exists s'. split; [done|]. split; [done|]. rewrite Hout. exact Hdrop. }
  split; [done|].
  by rewrite Hdisp, !sendsOf_app, (sendsOf_logs _ Hlogs2).
Qed.

(** ** Interceptors: drop, order, errors *)



(** ** What the fan-out over the drivers guarantees *)

Lemma driverCalls_logs p t : forallb isLog t = true -> driverCalls p t = [].
Proof. intros Ht. unfold driverCalls. by apply omap_silent. Qed.

Lemma fan_no_other_calls en p tp ds tr r q :
  FanOutShape en p tp ds tr r -> interceptorCalls q tr = [] /\ completionsOf q tr = [].
Proof.
  assert (Hi : forall t, forallb isLog t = true -> interceptorCalls q t = []).
  { intros t Ht. unfold interceptorCalls. by apply omap_silent. }
  assert (Hc : forall t, forallb isLog t = true -> completionsOf q t = []).
  { intros t Ht. unfold completionsOf. by apply omap_silent. }
  induction 1;
    rewrite ?interceptorCalls_app, ?completionsOf_app,
      ?(Hi _ (driverLog_isLog _ _ _)), ?(Hc _ (driverLog_isLog _ _ _)); simpl; done.
Qed.

Lemma fan_calls_prefix en p tp ds tr r :
  FanOutShape en p tp ds tr r ->
  (driverCalls p tr).*1 `prefix_of`
    filter (fun d => anyTopicMatches (Driver_GetTopicExpr d) tp = true) ds.
Proof.
  induction 1; rewrite ?driverCalls_app, ?(driverCalls_logs _ _ (driverLog_isLog _ _ _)),
    ?driverCalls_handle, ?filter_cons; simpl.
  - done.
  - by rewrite decide_False by congruence.
  - rewrite decide_True by done. by apply prefix_cons.
  - rewrite decide_True by done. by apply prefix_cons.
  - rewrite decide_True by done. apply prefix_cons, prefix_nil.
  - rewrite decide_True by done. apply prefix_cons, prefix_nil.
Qed.

Lemma fan_end_calls en p tp ds tr r :
  FanOutShape en p tp ds tr r -> r = Ok tt ->
  (driverCalls p tr).*1 =
    filter (fun d => anyTopicMatches (Driver_GetTopicExpr d) tp = true) ds.
Proof.
  induction 1; intros Hr; try done;
    rewrite ?driverCalls_app, ?(driverCalls_logs _ _ (driverLog_isLog _ _ _)),
      ?driverCalls_handle, ?driverCalls_log, ?filter_cons, ?app_nil_l.
  - rewrite decide_False by congruence. by apply IHFanOutShape.
  - rewrite decide_True by done. by rewrite fmap_cons, IHFanOutShape.
  - rewrite decide_True by done. by rewrite fmap_cons, IHFanOutShape.
Qed.

(** A fan-out in which no [Handle] panics, and in which no [Handle]
    returns an error while fail-fast is on, runs to its end. *)
Lemma fan_returns en p tp ds tr r :
  FanOutShape en p tp ds tr r ->
  Forall (fun c => isPanics c.2 = false) (driverCalls p tr) ->
  IsFailFastEnabled en = false \/ Forall (fun c => c.2 = Returns None) (driverCalls p tr) ->
  r = Ok tt.
Proof.
  induction 1;
    rewrite ?driverCalls_app, ?(driverCalls_logs _ _ (driverLog_isLog _ _ _)),
      ?driverCalls_handle; simpl; intros Hall Hff.
  - done.
  - by apply IHFanOutShape.
  - apply Forall_cons in Hall as [_ Hall]. apply IHFanOutShape; [done|].
    destruct Hff as [Hff|Hff]; [by left|right]. by apply Forall_cons in Hff as [_ Hff].
  - apply Forall_cons in Hall as [_ Hall]. apply IHFanOutShape; [done|].
    destruct Hff as [Hff|Hff]; [by left|right]. by apply Forall_cons in Hff as [_ Hff].
  - destruct Hff as [Hff|Hff]; [congruence|]. by apply Forall_cons in Hff as [Hff _].
  - by apply Forall_cons in Hall as [Hv _].
Qed.

(** Every error a driver returns while fail-fast is off is logged at
    error level right after the call. *)
Lemma fan_error_logged en p tp ds tr r d e :
  FanOutShape en p tp ds tr r ->
  IsFailFastEnabled en = false ->
  (d, Returns (Some e)) ∈ driverCalls p tr ->
  exists t1 t2, tr = t1 ++ EvDriverHandle p d (Returns (Some e))
                        :: EvLog LevelError "driver error" :: t2.
Proof.
  induction 1;
    rewrite ?driverCalls_app, ?(driverCalls_logs _ _ (driverLog_isLog _ _ _)),
      ?driverCalls_handle; simpl; intros Hff Hin.
  - by apply elem_of_nil in Hin.
  - destruct (IHFanOutShape Hff Hin) as (t1 & t2 & ->).
    exists (driverLog en d0 tp ++ t1), t2. by rewrite <- app_assoc.
  - apply elem_of_cons in Hin as [Heq|Hin]; [done|].
    destruct (IHFanOutShape Hff Hin) as (t1 & t2 & ->).
    exists (driverLog en d0 tp ++ EvDriverHandle p d0 (Returns None) :: t1), t2.
    by rewrite <- app_assoc.
  - apply elem_of_cons in Hin as [Heq|Hin].
    + injection Heq as -> ->. by exists (driverLog en d0 tp), tr.
    + destruct (IHFanOutShape Hff Hin) as (t1 & t2 & ->).
      exists (driverLog en d0 tp ++ EvDriverHandle p d0 (Returns (Some e0))
              :: EvLog LevelError "driver error" :: t1), t2.
      by rewrite <- app_assoc.
  - congruence.
  - apply elem_of_cons in Hin as [Heq|Hin]; [done|]. by apply elem_of_nil in Hin.
Qed.

(** With fail-fast on, an error returned by a driver ends the fan-out:
    the logger panics right after the call, which is the last. *)
Lemma fan_fatal en p tp ds tr r d e :
  FanOutShape en p tp ds tr r ->
  IsFailFastEnabled en = true ->
  (d, Returns (Some e)) ∈ driverCalls p tr ->
  (exists t1, tr = t1 ++ [EvDriverHandle p d (Returns (Some e));
                          EvLog LevelPanic "driver error"]) /\
  (exists before, driverCalls p tr = before ++ [(d, Returns (Some e))]) /\
  r = Panicked (PanicOther (VString "driver error")).
Proof.
  induction 1;
    rewrite ?driverCalls_app, ?(driverCalls_logs _ _ (driverLog_isLog _ _ _)),
      ?driverCalls_handle; simpl; intros Hff Hin.
  - by apply elem_of_nil in Hin.
  - destruct (IHFanOutShape Hff Hin) as ((t1 & ->) & Hlast & ->).
    split; [|by split]. exists (driverLog en d0 tp ++ t1). by rewrite <- app_assoc.
  - apply elem_of_cons in Hin as [Heq|Hin]; [done|].
    destruct (IHFanOutShape Hff Hin) as ((t1 & ->) & (before & ->) & ->).
    split; [|split; [by exists ((d0, Returns None) :: before)|done]].
    exists (driverLog en d0 tp ++ EvDriverHandle p d0 (Returns None) :: t1).
    by rewrite <- app_assoc.
  - congruence.
  - apply elem_of_cons in Hin as [Heq|Hin]; [|by apply elem_of_nil in Hin].
    injection Heq as -> ->.
    split; [by exists (driverLog en d0 tp)|]. split; [by exists []|done].
  - apply elem_of_cons in Hin as [Heq|Hin]; [done|]. by apply elem_of_nil in Hin.
Qed.

(** ** The driver stage, end to end *)

Lemma handleDriver_fan en p w s :
  sessions w !! p = Some s ->
  let run := handleDriver en p w in
  exists r fanTr pre post,
    FanOutShape en p (topic s) (drivers en) fanTr r /\
    trace run = pre ++ fanTr ++ post /\
    driverCalls p (trace run) = driverCalls p fanTr /\
    sendsOf (trace run) = sendsOf (fanTail p r) /\
    (forall q, interceptorCalls q (trace run) = [] /\ completionsOf q (trace run) = []) /\
    result run = recovered en (panicOf r) /\
    (exists s', sessions (final run) !! p = Some s' /\ sameIdentity s s') /\
    (forall q, q <> p -> sessions (final run) !! q = sessions w !! q) /\
    dispatcher (final run) = enqueueAll (sendsOf (fanTail p r)) (dispatcher w).
Proof.
  intros Hp run.
  destruct (stageHandler_spec StageLv1 en p w s Hp) as (logs1 & sb0 & Hlogs1 & _ & Hrun).
  destruct (stageHandler_reads StageLv1 en p w s Hp)
    as (Hres & Hreads & (sb & s' & Hsb & Hidb & Hs' & Hid & Hout) & Hframe & Hdisp).
  destruct (handleDriver_body_spec en p _ _ (startedWorld_lookup StageLv1 p s w))
    as (r & fanTr & wb & sb' & Hshape & Hfsends & Hbody & Hev).
  set (body := stageBody StageLv1 en p (startedWorld StageLv1 p s w)) in *.
  assert (Hb : body = (r, wb, fanTr ++ fanTail p r)) by exact Hbody.
  assert (Hbres : result body = r) by (by rewrite Hb).
  assert (Hbtr : trace body = fanTr ++ fanTail p r) by (by rewrite Hb).
  clearbody body. clear Hb Hbody.
  rewrite Hbres in Hres, Hrun. rewrite Hbtr in Hreads, Hdisp, Hrun.
  change (stageHandler StageLv1 en p w) with run in *.
  assert (Htr : trace run =
                logs1 ++ EvAddAttribute p (startKey StageLv1) (VTime (clock w (clockReads w)))
                :: (fanTr ++ fanTail p r)
                ++ EvAddAttribute p (endKey StageLv1)
                     (VDuration (clock w (S (clockReads w)) - timestamp s))
                :: recoverLog (panicOf r) (recoverMsg StageLv1))
    by (by rewrite Hrun).
  clear Hrun.
  assert (Hg : forall B (g : Event -> option B),
             (forall lvl msg, g (EvLog lvl msg) = None) ->
             (forall q key v, g (EvAddAttribute q key v) = None) ->
             omap g (trace run) = omap g fanTr ++ omap g (fanTail p r)).
  { intros B g Hl Ha. rewrite (Hreads B g Hl Ha). by rewrite !omap_app. }
  exists r, fanTr.
  exists (logs1 ++ [EvAddAttribute p (startKey StageLv1) (VTime (clock w (clockReads w)))]).
  exists (fanTail p r
          ++ EvAddAttribute p (endKey StageLv1)
               (VDuration (clock w (S (clockReads w)) - timestamp s))
          :: recoverLog (panicOf r) (recoverMsg StageLv1)).
  split; [exact Hshape|]. split.
  { rewrite Htr. rewrite <- ?app_assoc. simpl. by rewrite <- ?app_assoc. }
  split.
  { unfold driverCalls in *. rewrite Hg by done.
    assert (omap (fun e => match e with
                           | EvDriverHandle q d o =>
                               if decide (q = p) then Some (d, o) else None
                           | _ => None
                           end) (fanTail p r) = []) as -> by (by destruct r).
    by rewrite app_nil_r. }
  split.
  { unfold sendsOf in *. rewrite Hg by done. by rewrite Hfsends. }
  split.
  { intros q. destruct (fan_no_other_calls en p _ _ _ _ q Hshape) as [Hd Hc].
    unfold interceptorCalls, completionsOf in *. rewrite !Hg by done.
    rewrite Hd, Hc. by destruct r. }
  split; [done|].
  split; [by exists s'|].
  split; [done|].
  by rewrite Hdisp, sendsOf_app, Hfsends.
Qed.

(** ** Routing *)

Lemma prefix_elem_of {A} (l1 l2 : list A) (x : A) :
  l1 `prefix_of` l2 -> x ∈ l1 -> x ∈ l2.
Proof. intros [k ->] Hx. apply elem_of_app. by left. Qed.

Lemma anyTopicMatches_spec exprs t :
  anyTopicMatches exprs t = true <-> exists e, e ∈ exprs /\ matches e t = true.
Proof.
  induction exprs as [|e rest IH]; simpl.
  - split; [done|]. intros (e & He & _). by apply elem_of_nil in He.
  - destruct (matches e t) eqn:He.
    + split; [|done]. intros _. exists e. split; [left|done].
    + rewrite IH. split.
      * intros (e' & He' & Hm). exists e'. split; [by right|done].
      * intros (e' & He' & Hm). apply elem_of_cons in He' as [->|He']; [congruence|].
        by exists e'.
Qed.

(** C6 as the code has it: [anyTopicMatches] answers true exactly when
    some expression of the list matches, so never for an empty list; every
    interceptor or driver whose [Handle] is called for a session is
    registered and has an expression matching the session's topic; and
    when the interceptor stage hands the session to the driver stage, or
    the driver stage hands it to the output stage, the components called
    are exactly the registered ones matching the topic. *)
Theorem routing_by_topic en p w s :
  sessions w !! p = Some s ->
  let runI := handleInterceptor en p w in
  let runD := handleDriver en p w in
  (forall exprs t,
     anyTopicMatches exprs t = true <-> exists e, e ∈ exprs /\ matches e t = true) /\
  (forall t, anyTopicMatches [] t = false) /\
  (forall it o, (it, o) ∈ interceptorCalls p (trace runI) ->
     it ∈ interceptors en /\
     anyTopicMatches (Interceptor_GetTopicExpr it) (topic s) = true /\
     Interceptor_GetTopicExpr it <> []) /\
  (forall d o, (d, o) ∈ driverCalls p (trace runD) ->
     d ∈ drivers en /\
     anyTopicMatches (Driver_GetTopicExpr d) (topic s) = true /\
     Driver_GetTopicExpr d <> []) /\
  (sendsOf (trace runI) = [(StageLv1, p)] ->
     (interceptorCalls p (trace runI)).*1 ≡ₚ interceptorsFor en (topic s)) /\
  (sendsOf (trace runD) = [(StageLv2, p)] ->
     (driverCalls p (trace runD)).*1 = driversFor en (topic s)).
Proof.
  intros Hp runI runD.
  destruct (handleInterceptor_chain en p w s Hp)
    as (r & chainTr & pre & post & Hshape & _ & _ & Hcalls & Hsends & _).
  destruct (handleDriver_fan en p w s Hp)
    as (rd & fanTr & pred & postd & Hfan & _ & Hdcalls & Hdsends & _).
  fold runI in Hcalls, Hsends. fold runD in Hdcalls, Hdsends.
  split; [apply anyTopicMatches_spec|]. split; [done|]. split.
  { intros it o Hin. rewrite Hcalls in Hin.
    assert (Hit : it ∈ interceptorsFor en (topic s)).
    { rewrite <- (sort_Sort_perm (interceptorsFor en (topic s))).
      eapply prefix_elem_of; [by eapply (chain_calls_prefix en p)|].
      apply list_elem_of_fmap. by exists (it, o). }
    apply list_elem_of_filter in Hit as [Hm Hit].
    split; [done|]. split; [done|]. intros Hnil. by rewrite Hnil in Hm. }
  split.
  { intros d o Hin. rewrite Hdcalls in Hin.
    assert (Hd : d ∈ driversFor en (topic s)).
    { eapply prefix_elem_of; [by eapply (fan_calls_prefix en p)|].
      apply list_elem_of_fmap. by exists (d, o). }
    apply list_elem_of_filter in Hd as [Hm Hd].
    split; [done|]. split; [done|]. intros Hnil. by rewrite Hnil in Hm. }
  split.
  { intros Hs. rewrite Hsends, (chain_sends en p _ _ _ Hshape) in Hs.
    rewrite Hcalls.
    destruct r as [[|]|v]; try done.
    destruct (chain_end_calls en p _ _ _ Hshape eq_refl) as [-> _].
    apply sort_Sort_perm. }
  intros Hs. rewrite Hdsends in Hs. rewrite Hdcalls.
  destruct rd as [[]|v]; [|done].
  by apply (fan_end_calls en p _ _ _ _ Hfan).
Qed.

(** ** Drivers *)

(** C3 as the code has it.  When no [Handle] panics, and fail-fast mode
    is off or no [Handle] returns an error, the driver stage calls
    [Handle] on exactly the registered drivers matching the session's
    topic, in registration order, whether or not a call returned an error
    (which is logged at error level), and then sends the session to the
    output stage.  With fail-fast mode on, an error returned by a driver
    is logged at panic level, which panics: that call is the last one, the
    session is sent to no stage and the panic leaves the handler. *)
Theorem drivers_fan_out en p w s :
  sessions w !! p = Some s ->
  let run := handleDriver en p w in
  (Forall (fun c => isPanics c.2 = false) (driverCalls p (trace run)) ->
   IsFailFastEnabled en = false \/
     Forall (fun c => c.2 = Returns None) (driverCalls p (trace run)) ->
   (driverCalls p (trace run)).*1 = driversFor en (topic s) /\
   (forall d e, IsFailFastEnabled en = false ->
      (d, Returns (Some e)) ∈ driverCalls p (trace run) ->
      exists t1 t2, trace run = t1 ++ EvDriverHandle p d (Returns (Some e))
                                  :: EvLog LevelError "driver error" :: t2) /\
   sendsOf (trace run) = [(StageLv2, p)] /\
   Lv2 (dispatcher (final run)) = Lv2 (dispatcher w) ++ [p] /\
   result run = Ok tt) /\
  (IsFailFastEnabled en = true ->
   forall d e,
     (d, Returns (Some e)) ∈ driverCalls p (trace run) ->
     (exists t1 t2, trace run = t1 ++ EvDriverHandle p d (Returns (Some e))
                                 :: EvLog LevelPanic "driver error" :: t2) /\
     (exists before, driverCalls p (trace run) = before ++ [(d, Returns (Some e))]) /\
     sendsOf (trace run) = [] /\
     dispatcher (final run) = dispatcher w /\
     result run = Panicked (PanicOther (VString "driver error"))).
Proof.
  intros Hp run.
  destruct (handleDriver_fan en p w s Hp)
    as (r & fanTr & pre & post & Hfan & Htrace & Hcalls & Hsends & _ & Hres & _ & _ & Hdisp).
  fold run in Htrace, Hcalls, Hsends, Hres, Hdisp.
  rewrite Hcalls in *.
  split.
  - intros Hnopanic Hff.
    assert (r = Ok tt) as -> by (by eapply fan_returns).
    split; [by apply (fan_end_calls en p _ _ _ _ Hfan)|].
    split.
    { intros d e Hoff Hin.
      destruct (fan_error_logged en p _ _ _ _ d e Hfan Hoff Hin) as (t1 & t2 & Ht).
      exists (pre ++ t1), (t2 ++ post). rewrite Htrace, Ht.
      rewrite <- !app_assoc. simpl. reflexivity. }
    split; [done|]. split; [by rewrite Hdisp|done].
  - intros Hff d e Hin.
    destruct (fan_fatal en p _ _ _ _ d e Hfan Hff Hin) as ((t1 & Ht) & Hlast & Hr).
    rewrite Hr in *.
    split.
    { exists (pre ++ t1), post. rewrite Htrace, Ht. rewrite <- !app_assoc. simpl. reflexivity. }
    split; [exact Hlast|]. split; [by rewrite Hsends|].
    split; [by rewrite Hdisp|].
    rewrite Hres. simpl. by rewrite Hff.
Qed.

(** ** Panics *)

Lemma stageBody_panicked lv en p w s v :
  sessions w !! p = Some s ->
  result (stageBody lv en p w) = Panicked v ->
  sendsOf (trace (stageBody lv en p w)) = [].
Proof.
  intros Hp. destruct lv; simpl stageBody.
  - destruct (handleInterceptor_body_spec en p w s Hp)
      as (logs & r & tr & w' & s' & Hlogs & Hshape & -> & _).
    unfold result, trace. simpl. intros Hr.
    destruct r as [e|v']; [done|]. simpl.
    rewrite app_nil_r, sendsOf_app, (sendsOf_logs _ Hlogs).
    by rewrite (chain_sends en p _ _ _ Hshape).
  - destruct (handleDriver_body_spec en p w s Hp)
      as (r & tr & w' & s' & Hshape & Hsends & -> & _).
    unfold result, trace. simpl. intros ->. simpl. by rewrite app_nil_r.
  - destruct (handleOutput_body_spec p w s Hp) as [-> _]. done.
Qed.

(** C8 as the code has it: a panic raised in the body of a stage handler
    is recovered by the deferred function once the end attribute is
    recorded; it is logged at error level when its value is an error, and
    not otherwise; it leaves the handler only when fail-fast mode is on.
    The session is then sent to no stage, no other session and no channel
    changes, and with fail-fast off the dispatch loop goes on with the
    sessions that wait. *)
Theorem panics_stop_at_the_stage lv en p w s :
  sessions w !! p = Some s ->
  let body := stageBody lv en p (startedWorld lv p s w) in
  let run := stageHandler lv en p w in
  (forall v, result run = Panicked v ->
     IsFailFastEnabled en = true /\ result body = Panicked v) /\
  (forall v, result body = Panicked v ->
     result run = (if IsFailFastEnabled en then Panicked v else Ok tt) /\
     (exists before,
        trace run =
          before ++ EvAddAttribute p (endKey lv)
                      (VDuration (clock w (S (clockReads w)) - timestamp s))
                 :: match v with
                    | PanicError _ => [EvLog LevelError (recoverMsg lv)]
                    | PanicOther _ => []
                    end) /\
     sendsOf (trace run) = [] /\
     dispatcher (final run) = dispatcher w /\
     (forall q, q <> p -> sessions (final run) !! q = sessions w !! q) /\
     (IsFailFastEnabled en = false ->
      forall fuel w0 d,
        receive (dispatcher w0) = Some (lv, p, d) -> setDispatcher w0 d = w ->
        Serve (S fuel) en w0 =
          (result (Serve fuel en (final run)), final (Serve fuel en (final run)),
           trace run ++ trace (Serve fuel en (final run))))).
Proof.
  intros Hp body run.
  destruct (stageHandler_spec lv en p w s Hp) as (logs & sb & Hlogs & _ & Hrun).
  destruct (stageHandler_reads lv en p w s Hp) as (Hres & Hreads & _ & Hframe & Hdisp).
  fold body in Hrun, Hres, Hreads, Hdisp. fold run in Hrun, Hres, Hreads, Hframe, Hdisp.
  split.
  { intros v Hv. rewrite Hres in Hv. destruct (result body) as [u|v']; [done|].
    simpl in Hv. destruct (IsFailFastEnabled en); [|done]. by injection Hv as ->. }
  intros v Hv.
  assert (Hsends : sendsOf (trace body) = []).
  { by apply (stageBody_panicked lv en p _ _ v (startedWorld_lookup lv p s w)). }
  assert (Hrsends : sendsOf (trace run) = []).
  { unfold sendsOf in *. by rewrite Hreads. }
  assert (Hok : result run = if IsFailFastEnabled en then Panicked v else Ok tt).
  { by rewrite Hres, Hv. }
  split; [done|]. split.
  { exists (logs ++ EvAddAttribute p (startKey lv) (VTime (clock w (clockReads w)))
            :: trace body).
    rewrite Hrun. unfold trace at 1. simpl. rewrite Hv. simpl.
    rewrite <- app_assoc. simpl. by destruct v. }
  split; [done|]. split; [by rewrite Hdisp, Hsends|]. split; [done|].
  intros Hff fuel w0 d Hrecv Hw. simpl Serve. rewrite Hrecv, Hw.
  change (stageHandler lv en p w) with run.
  rewrite Hff in Hok. clear -Hok. clearbody run.
  destruct run as [[rr wr] tr]. unfold result, final, trace in *. simpl in *. subst rr.
  by destruct (Serve fuel en wr) as [[e w2] t2].
Qed.

(** ** One step of the dispatch loop *)

Lemma handleOutput_completes en p w s :
  sessions w !! p = Some s ->
  let run := handleOutput en p w in
  let data := Outbound_Data (outbound s) in
  (forall q, completionsOf q (trace run) =
             if decide (p = q) then [(data, onCompletedFunc s data)] else []) /\
  sendsOf (trace run) = [] /\
  (forall q, interceptorCalls q (trace run) = [] /\ driverCalls q (trace run) = []) /\
  dispatcher (final run) = dispatcher w.
Proof.
  intros Hp run data.
  destruct (stageHandler_reads StageLv2 en p w s Hp) as (_ & Hreads & _ & _ & Hdisp).
  destruct (handleOutput_body_spec p _ _ (startedWorld_lookup StageLv2 p s w)) as [Hbody _].
  simpl stageBody in *. simpl stageHandler in *. fold run in Hreads, Hdisp.
  rewrite Hbody in Hreads, Hdisp. unfold trace at 2 in Hreads. unfold trace in Hdisp.
  simpl in Hreads, Hdisp.
  split.
  { intros q. unfold completionsOf. rewrite Hreads by done. simpl. by destruct (decide (p = q)). }
  split; [unfold sendsOf; by rewrite Hreads|].
  split; [|done].
  intros q. unfold interceptorCalls, driverCalls. by rewrite !Hreads.
Qed.

(** What serving session [q] at stage [lv] does to the channels and to
    the completions, for a session that is allocated. *)
Lemma stage_step lv en q w s :
  sessions w !! q = Some s ->
  let run := stageHandler lv en q w in
  (forall p, p <> q -> sessions (final run) !! p = sessions w !! p) /\
  (exists s', sessions (final run) !! q = Some s') /\
  (forall p, p <> q -> completionsOf p (trace run) = []) /\
  dispatcher (final run) = enqueueAll (sendsOf (trace run)) (dispatcher w) /\
  match lv with
  | StageLv0 =>
      completionsOf q (trace run) = [] /\
      (sendsOf (trace run) = [] \/ sendsOf (trace run) = [(StageLv1, q)] \/
       sendsOf (trace run) = [(StageLv2, q)]) /\
      (IsFailFastEnabled en = false ->
       Forall (fun c => isPanics c.2 = false) (interceptorCalls q (trace run)) ->
       sendsOf (trace run) <> [])
  | StageLv1 =>
      completionsOf q (trace run) = [] /\
      (sendsOf (trace run) = [] \/ sendsOf (trace run) = [(StageLv2, q)]) /\
      (IsFailFastEnabled en = false ->
       Forall (fun c => isPanics c.2 = false) (driverCalls q (trace run)) ->
       sendsOf (trace run) <> [])
  | StageLv2 =>
      length (completionsOf q (trace run)) = 1%nat /\ sendsOf (trace run) = []
  end.
Proof.
  intros Hq run.
  destruct (stageHandler_reads lv en q w s Hq)
    as (_ & _ & (sb & s' & _ & _ & Hs' & _) & Hframe & _).
  fold run in Hs', Hframe.
  split; [done|]. split; [by exists s'|].
  destruct lv; simpl stageHandler in *.
  - destruct (handleInterceptor_chain en q w s Hq)
      as (r & chainTr & pre & post & Hshape & _ & _ & Hcalls & Hsends & Hother & _ & _ & _ & Hdisp).
    fold run in Hcalls, Hsends, Hother, Hdisp.
    rewrite (chain_sends en q _ _ _ Hshape) in Hsends, Hdisp.
    split; [intros p _; apply Hother|].
    split; [by rewrite Hsends|].
    split; [apply Hother|].
    split.
    { rewrite Hsends. destruct r as [[|]|v]; simpl; auto. }
    intros Hff Hall. rewrite Hcalls in Hall.
    destruct (chain_returns en q _ _ _ Hshape Hff Hall) as [e ->].
    rewrite Hsends. by destruct e.
  - destruct (handleDriver_fan en q w s Hq)
      as (r & fanTr & pre & post & Hshape & _ & Hcalls & Hsends & Hother & _ & _ & _ & Hdisp).
    fold run in Hcalls, Hsends, Hother, Hdisp.
    split; [intros p _; apply Hother|].
    split; [by rewrite Hsends|].
    split; [apply Hother|].
    split.
    { rewrite Hsends. destruct r as [[]|v]; simpl; auto. }
    intros Hff Hall. rewrite Hcalls in Hall.
    rewrite (fan_returns en q _ _ _ _ Hshape Hall (or_introl Hff)) in Hsends.
    by rewrite Hsends.
  - destruct (handleOutput_completes en q w s Hq) as (Hc & Hsends & _ & Hdisp).
    fold run in Hc, Hsends, Hdisp.
    split; [intros p Hp; rewrite Hc; by rewrite decide_False|].
    split; [by rewrite Hsends|].
    split; [|done]. by rewrite Hc, decide_True.
Qed.

Lemma Session_Topic_nil w q :
  sessions w !! q = None -> Session_Topic q w = (Panicked nilDereference, w, []).
Proof. intros Hq. unfold Session_Topic, bind, load. by rewrite Hq. Qed.

Lemma Session_AddAttribute_nil w q key v :
  sessions w !! q = None ->
  Session_AddAttribute q key v w = (Panicked nilDereference, w, []).
Proof. intros Hq. unfold Session_AddAttribute, bind, load. by rewrite Hq. Qed.

(** A handler run on an address that holds no session dies of the nil
    dereference before its deferred function is in place. *)
Lemma stage_step_nil lv en q w :
  sessions w !! q = None ->
  exists w' tr,
    stageHandler lv en q w = (Panicked nilDereference, w', tr) /\
    (forall p, completionsOf p tr = [] /\ driverCalls p tr = []).
Proof.
  intros Hq.
  assert (Hnow : time_Now w = (Ok (clock w (clockReads w)), tick w, [])) by done.
  assert (Hq' : sessions (tick w) !! q = None) by done.
  destruct lv; simpl stageHandler;
    [unfold handleInterceptor|unfold handleDriver|unfold handleOutput];
    unfold OnIfLogV; destruct (IsVerboseEnabled en).
  all: try (eexists _, _; split;
            [erewrite (bind_Panicked (bind (Session_Topic q) _));
               [reflexivity|by rewrite (bind_Panicked _ _ _ _ _ _ (Session_Topic_nil _ _ Hq))]
            |done]).
  all: eexists _, _; split;
       [rewrite (bind_Ok (ret tt) _ w tt w [] eq_refl);
        rewrite (bind_Ok _ _ _ _ _ _ Hnow);
        rewrite (bind_Panicked _ _ _ _ _ _ (Session_AddAttribute_nil _ _ _ _ Hq'));
        reflexivity|done].
Qed.

(** ** The dispatch loop *)

Lemma pending_receive p d lv q d' :
  receive d = Some (lv, q, d') ->
  pending p d = (if decide (q = p) then S (pending p d') else pending p d') /\
  backlog d = (weight lv + backlog d')%nat.
Proof.
  unfold receive, pending, backlog.
  destruct (Lv0 d) as [|a q0] eqn:H0; [destruct (Lv1 d) as [|b q1] eqn:H1;
    [destruct (Lv2 d) as [|c q2] eqn:H2; [done|]|]|];
    intros [= <- <- <-]; simpl; rewrite ?filter_cons; simpl;
    (split; [by case_decide|lia]).
Qed.

Lemma receive_None p d : receive d = None -> pending p d = 0%nat.
Proof.
  unfold receive, pending.
  by destruct (Lv0 d) as [|a q0], (Lv1 d) as [|b q1], (Lv2 d) as [|c q2].
Qed.

Lemma pending_enqueue p lv q d :
  pending p (enqueue lv q d) =
    (pending p d + if decide (q = p) then 1 else 0)%nat /\
  backlog (enqueue lv q d) = (backlog d + weight lv)%nat.
Proof.
  unfold pending, backlog.
  destruct lv; simpl; rewrite ?filter_app, ?length_app, ?filter_cons, ?filter_nil;
    (split; [case_decide; simpl; lia|simpl; lia]).
Qed.

(** The sends of one handler run: none, or the session itself to a later
    stage. *)
Lemma stage_step_sends lv en q w s :
  sessions w !! q = Some s ->
  sendsOf (trace (stageHandler lv en q w)) = [] \/
  exists lv', sendsOf (trace (stageHandler lv en q w)) = [(lv', q)] /\
              (weight lv' < weight lv)%nat.
Proof.
  intros Hq. destruct (stage_step lv en q w s Hq) as (_ & _ & _ & _ & Hlv).
  destruct lv.
  - destruct Hlv as (_ & [Hx|[Hx|Hx]] & _); [by left|right..];
      eexists; (split; [exact Hx|simpl; lia]).
  - destruct Hlv as (_ & [Hx|Hx] & _); [by left|right].
    eexists; (split; [exact Hx|simpl; lia]).
  - destruct Hlv as (_ & Hx). by left.
Qed.

Lemma stage_step_pending lv en q w s p :
  sessions w !! q = Some s ->
  let run := stageHandler lv en q w in
  pending p (dispatcher (final run)) =
    (pending p (dispatcher w) + length (filter (fun x => x.2 = p) (sendsOf (trace run))))%nat /\
  (backlog (dispatcher (final run)) < backlog (dispatcher w) + weight lv)%nat.
Proof.
  intros Hq run.
  destruct (stage_step lv en q w s Hq) as (_ & _ & _ & Hdisp & _).
  fold run in Hdisp. rewrite Hdisp.
  destruct (stage_step_sends lv en q w s Hq) as [Hs|(lv' & Hs & Hw)];
    fold run in Hs; rewrite Hs; simpl.
  - split; [lia|]. destruct lv; simpl; lia.
  - destruct (pending_enqueue p lv' q (dispatcher w)) as [-> ->].
    rewrite filter_cons. simpl. split; [case_decide; simpl; lia|lia].
Qed.

(** With fuel for the backlog the loop does not stop half way. *)
Lemma Serve_finishes en : forall fuel w,
  (backlog (dispatcher w) <= fuel)%nat -> result (Serve fuel en w) <> Unfinished.
Proof.
  induction fuel as [|fuel IH]; intros w Hfuel; simpl Serve.
  - destruct (receive (dispatcher w)) as [[[lv q] d]|] eqn:Hr; [|done].
    destruct (pending_receive 0%nat _ _ _ _ Hr) as [_ Hb]. destruct lv; simpl in Hb; lia.
  - destruct (receive (dispatcher w)) as [[[lv q] d]|] eqn:Hr; [|done].
    destruct (pending_receive 0%nat _ _ _ _ Hr) as [_ Hb].
    destruct (sessions (setDispatcher w d) !! q) as [s|] eqn:Hq.
    + destruct (stage_step_pending lv en q _ s 0%nat Hq) as [_ Hlt].
      destruct (stageHandler lv en q (setDispatcher w d)) as [[[u|v] w1] t1]; [|done].
      unfold final in Hlt. simpl in Hlt.
      specialize (IH w1 ltac:(lia)).
      by destruct (Serve fuel en w1) as [[e w2] t2].
    + destruct (stage_step_nil lv en q _ Hq) as (w' & tr & -> & _). done.
Qed.

(** A session that waits on no channel is not completed. *)
Lemma Serve_not_pending en p : forall fuel w,
  pending p (dispatcher w) = 0%nat -> completionsOf p (trace (Serve fuel en w)) = [].
Proof.
  induction fuel as [|fuel IH]; intros w Hp; simpl Serve; [done|].
  destruct (receive (dispatcher w)) as [[[lv q] d]|] eqn:Hr; [|done].
  destruct (pending_receive p _ _ _ _ Hr) as [Hpend _].
  destruct (decide (q = p)) as [->|Hne]; [lia|].
  destruct (sessions (setDispatcher w d) !! q) as [s|] eqn:Hq.
  - destruct (stage_step lv en q _ s Hq) as (_ & _ & Hcomp & _).
    destruct (stage_step_pending lv en q _ s p Hq) as [Hpen _].
    destruct (stage_step_sends lv en q _ s Hq) as [Hs|(lv' & Hs & _)];
      rewrite Hs in Hpen; simpl in Hpen; rewrite ?filter_cons, ?decide_False in Hpen by done;
      simpl in Hpen; specialize (Hcomp p ltac:(done));
      destruct (stageHandler lv en q (setDispatcher w d)) as [[[u|v] w1] t1];
      unfold final, trace in *; simpl in *; try done;
      specialize (IH w1 ltac:(lia));
      destruct (Serve fuel en w1) as [[e w2] t2]; unfold trace in *; simpl in *;
      by rewrite completionsOf_app, Hcomp, IH.
  - destruct (stage_step_nil lv en q _ Hq) as (w' & tr & -> & Hc). apply Hc.
Qed.

(** A session that waits at one place is completed at most once. *)
Lemma Serve_at_most_once en p : forall fuel w,
  (pending p (dispatcher w) <= 1)%nat ->
  (length (completionsOf p (trace (Serve fuel en w))) <= 1)%nat.
Proof.
  induction fuel as [|fuel IH]; intros w Hp; simpl Serve; [simpl; lia|].
  destruct (receive (dispatcher w)) as [[[lv q] d]|] eqn:Hr; [|simpl; lia].
  destruct (pending_receive p _ _ _ _ Hr) as [Hpend _].
  destruct (sessions (setDispatcher w d) !! q) as [s|] eqn:Hq; cycle 1.
  { destruct (stage_step_nil lv en q _ Hq) as (w' & tr & -> & Hc).
    unfold trace. simpl. destruct (Hc p) as [-> _]. simpl. lia. }
  destruct (stage_step lv en q _ s Hq) as (_ & _ & Hcomp & _ & Hlv).
  destruct (stage_step_pending lv en q _ s p Hq) as [Hpen _].
  assert (Hzero := Serve_not_pending en p fuel).
  destruct (decide (q = p)) as [->|Hne].
  - (* the session itself is served *)
    assert (Hd : pending p d = 0%nat) by lia. simpl in Hpen. rewrite Hd in Hpen.
    destruct lv.
    + destruct Hlv as (Hc & Hs & _).
      destruct (stageHandler StageLv0 en p (setDispatcher w d)) as [[[u|v] w1] t1];
        unfold final, trace in *; simpl in *; [|rewrite Hc; simpl; lia].
      assert (Hle : (pending p (dispatcher w1) <= 1)%nat).
      { destruct Hs as [Hs|[Hs|Hs]]; rewrite Hs in Hpen; simpl in Hpen;
          rewrite ?filter_cons, ?decide_True in Hpen by done; simpl in Hpen; lia. }
      specialize (IH w1 Hle).
      destruct (Serve fuel en w1) as [[e w2] t2]. unfold trace in *. simpl in *.
      by rewrite completionsOf_app, Hc.
    + destruct Hlv as (Hc & Hs & _).
      destruct (stageHandler StageLv1 en p (setDispatcher w d)) as [[[u|v] w1] t1];
        unfold final, trace in *; simpl in *; [|rewrite Hc; simpl; lia].
      assert (Hle : (pending p (dispatcher w1) <= 1)%nat).
      { destruct Hs as [Hs|Hs]; rewrite Hs in Hpen; simpl in Hpen;
          rewrite ?filter_cons, ?decide_True in Hpen by done; simpl in Hpen; lia. }
      specialize (IH w1 Hle).
      destruct (Serve fuel en w1) as [[e w2] t2]. unfold trace in *. simpl in *.
      by rewrite completionsOf_app, Hc.
    + destruct Hlv as (Hc & Hs).
      destruct (stageHandler StageLv2 en p (setDispatcher w d)) as [[[u|v] w1] t1];
        unfold final, trace in *; simpl in *; [|lia].
      rewrite Hs in Hpen. simpl in Hpen.
      specialize (Hzero w1 ltac:(lia)).
      destruct (Serve fuel en w1) as [[e w2] t2]. unfold trace in *. simpl in *.
      rewrite completionsOf_app, Hzero, app_nil_r. lia.
  - (* another session is served *)
    specialize (Hcomp p ltac:(done)).
    assert (Hle : (pending p (dispatcher (final (stageHandler lv en q (setDispatcher w d))))
                   <= 1)%nat).
    { destruct (stage_step_sends lv en q _ s Hq) as [Hs|(lv' & Hs & _)];
        rewrite Hs in Hpen; simpl in Hpen;
        rewrite ?filter_cons, ?decide_False in Hpen by done; simpl in Hpen; lia. }
    destruct (stageHandler lv en q (setDispatcher w d)) as [[[u|v] w1] t1];
      unfold final, trace in *; simpl in *; [|rewrite Hcomp; simpl; lia].
    specialize (IH w1 Hle).
    destruct (Serve fuel en w1) as [[e w2] t2]. unfold trace in *. simpl in *.
    by rewrite completionsOf_app, Hcomp.
Qed.

(** With fail-fast off, a session that waits at one place and for which
    no [Handle] panics is completed exactly once by the time the channels
    are drained. *)
Lemma Serve_exactly_once en p : forall fuel w s,
  sessions w !! p = Some s ->
  pending p (dispatcher w) = 1%nat ->
  IsFailFastEnabled en = false ->
  result (Serve fuel en w) = Drained ->
  Forall (fun c => isPanics c.2 = false) (interceptorCalls p (trace (Serve fuel en w))) ->
  Forall (fun c => isPanics c.2 = false) (driverCalls p (trace (Serve fuel en w))) ->
  length (completionsOf p (trace (Serve fuel en w))) = 1%nat.
Proof.
  induction fuel as [|fuel IH]; intros w s Hp Hpend Hff; simpl Serve.
  - destruct (receive (dispatcher w)) as [[[lv q] d]|] eqn:Hr; [done|].
    apply (receive_None p) in Hr. lia.
  - destruct (receive (dispatcher w)) as [[[lv q] d]|] eqn:Hr; cycle 1.
    { apply (receive_None p) in Hr. lia. }
    destruct (pending_receive p _ _ _ _ Hr) as [Hpd _].
    destruct (sessions (setDispatcher w d) !! q) as [sq|] eqn:Hq; cycle 1.
    { destruct (stage_step_nil lv en q _ Hq) as (w' & tr & -> & Hc). done. }
    destruct (stage_step lv en q _ sq Hq) as (Hframe & (sq' & Hsq') & Hcomp & _ & Hlv).
    destruct (stage_step_pending lv en q _ sq p Hq) as [Hpen _].
    assert (Hzero := Serve_not_pending en p fuel).
    destruct (decide (q = p)) as [->|Hne].
    + assert (Hd : pending p d = 0%nat) by lia. simpl in Hpen. rewrite Hd in Hpen.
      destruct lv.
      * destruct Hlv as (Hc & Hs & Hprog).
        destruct (stageHandler StageLv0 en p (setDispatcher w d)) as [[[u|v] w1] t1];
          unfold final, trace, result in *; simpl in *; [|done].
        specialize (IH w1 sq' Hsq').
        destruct (Serve fuel en w1) as [[e w2] t2]. unfold trace, result in *. simpl in *.
        intros He Hi Hdr. rewrite interceptorCalls_app in Hi. rewrite driverCalls_app in Hdr.
        apply Forall_app in Hi as [Hi1 Hi2]. apply Forall_app in Hdr as [_ Hdr2].
        specialize (Hprog Hff Hi1).
        rewrite completionsOf_app, Hc. simpl. apply IH; try done.
        destruct Hs as [Hs|[Hs|Hs]]; [done|..]; rewrite Hs in Hpen; simpl in Hpen;
          rewrite ?filter_cons, ?decide_True in Hpen by done; simpl in Hpen; lia.
      * destruct Hlv as (Hc & Hs & Hprog).
        destruct (stageHandler StageLv1 en p (setDispatcher w d)) as [[[u|v] w1] t1];
          unfold final, trace, result in *; simpl in *; [|done].
        specialize (IH w1 sq' Hsq').
        destruct (Serve fuel en w1) as [[e w2] t2]. unfold trace, result in *. simpl in *.
        intros He Hi Hdr. rewrite interceptorCalls_app in Hi. rewrite driverCalls_app in Hdr.
        apply Forall_app in Hi as [_ Hi2]. apply Forall_app in Hdr as [Hdr1 Hdr2].
        specialize (Hprog Hff Hdr1).
        rewrite completionsOf_app, Hc. simpl. apply IH; try done.
        destruct Hs as [Hs|Hs]; [done|]; rewrite Hs in Hpen; simpl in Hpen;
          rewrite ?filter_cons, ?decide_True in Hpen by done; simpl in Hpen; lia.
      * destruct Hlv as (Hc & Hs).
        destruct (stageHandler StageLv2 en p (setDispatcher w d)) as [[[u|v] w1] t1];
          unfold final, trace, result in *; simpl in *; [|done].
        rewrite Hs in Hpen. simpl in Hpen.
        specialize (Hzero w1 ltac:(lia)).
        destruct (Serve fuel en w1) as [[e w2] t2]. unfold trace, result in *. simpl in *.
        intros _ _ _. rewrite completionsOf_app, Hzero, app_nil_r. lia.
    + specialize (Hcomp p ltac:(done)).
      assert (Hp1 : sessions (final (stageHandler lv en q (setDispatcher w d))) !! p = Some s).
      { rewrite Hframe by done. done. }
      assert (Heq : pending p (dispatcher (final (stageHandler lv en q (setDispatcher w d))))
                    = 1%nat).
      { destruct (stage_step_sends lv en q _ sq Hq) as [Hs|(lv' & Hs & _)];
          rewrite Hs in Hpen; simpl in Hpen;
          rewrite ?filter_cons, ?decide_False in Hpen by done; simpl in Hpen; lia. }
      destruct (stageHandler lv en q (setDispatcher w d)) as [[[u|v] w1] t1];
        unfold final, trace, result in *; simpl in *; [|done].
      specialize (IH w1 s Hp1 Heq Hff).
      destruct (Serve fuel en w1) as [[e w2] t2]. unfold trace, result in *. simpl in *.
      intros He Hi Hdr. rewrite interceptorCalls_app in Hi. rewrite driverCalls_app in Hdr.
      apply Forall_app in Hi as [_ Hi2]. apply Forall_app in Hdr as [_ Hdr2].
      rewrite completionsOf_app, Hcomp. simpl. by apply IH.
Qed.

(** ** The drop, end to end *)

Lemma fan_other_sessions en q tp ds tr r p :
  FanOutShape en q tp ds tr r -> p <> q -> driverCalls p tr = [].
Proof.
  intros Hshape Hne.
  induction Hshape;
    rewrite ?driverCalls_app, ?(driverCalls_logs _ _ (driverLog_isLog _ _ _));
    unfold driverCalls in *; simpl; rewrite ?decide_False by done; done.
Qed.

Lemma handleDriver_other_sessions en q w s p :
  sessions w !! q = Some s -> p <> q ->
  driverCalls p (trace (handleDriver en q w)) = [].
Proof.
  intros Hq Hne.
  destruct (stageHandler_reads StageLv1 en q w s Hq) as (_ & Hreads & _).
  destruct (handleDriver_body_spec en q _ _ (startedWorld_lookup StageLv1 q s w))
    as (r & fanTr & wb & sb & Hshape & _ & Hbody & _).
  simpl stageBody in *. simpl stageHandler in *.
  unfold driverCalls. rewrite Hreads by done. rewrite Hbody. unfold trace. simpl.
  rewrite omap_app. fold (driverCalls p fanTr).
  rewrite (fan_other_sessions en q _ _ _ _ p Hshape Hne). by destruct r.
Qed.

Lemma stage_step_driverCalls lv en q w s p :
  sessions w !! q = Some s -> p <> q \/ lv = StageLv2 ->
  driverCalls p (trace (stageHandler lv en q w)) = [].
Proof.
  intros Hq Hcase. destruct lv; simpl stageHandler.
  - destruct (handleInterceptor_chain en q w s Hq) as (?&?&?&?&_&_&_&_&_&Hother&_).
    apply Hother.
  - destruct Hcase as [Hne|?]; [|done]. by eapply handleDriver_other_sessions.
  - destruct (handleOutput_completes en q w s Hq) as (_ & _ & Hother & _). apply Hother.
Qed.

Lemma receive_waiting d lv q d' :
  receive d = Some (lv, q, d') ->
  Lv0 d ++ Lv1 d =
    match lv with
    | StageLv2 => Lv0 d' ++ Lv1 d'
    | _ => q :: (Lv0 d' ++ Lv1 d')
    end.
Proof.
  unfold receive.
  destruct (Lv0 d) as [|a q0]; [destruct (Lv1 d) as [|b q1];
    [destruct (Lv2 d) as [|c q2]; [done|]|]|]; by intros [= <- <- <-].
Qed.

Lemma enqueue_waiting lv q d x :
  x ∈ Lv0 (enqueue lv q d) ++ Lv1 (enqueue lv q d) -> x = q \/ x ∈ Lv0 d ++ Lv1 d.
Proof.
  destruct lv; simpl; rewrite ?elem_of_app, ?list_elem_of_singleton; tauto.
Qed.

(** A session that waits neither for the interceptor stage nor for the
    driver stage is never handed to a driver. *)
Lemma Serve_no_driver en p : forall fuel w,
  p ∉ Lv0 (dispatcher w) ++ Lv1 (dispatcher w) ->
  driverCalls p (trace (Serve fuel en w)) = [].
Proof.
  induction fuel as [|fuel IH]; intros w Hp; simpl Serve; [done|].
  destruct (receive (dispatcher w)) as [[[lv q] d]|] eqn:Hr; [|done].
  assert (Hw := receive_waiting _ _ _ _ Hr). rewrite Hw in Hp.
  assert (Hcase : p <> q \/ lv = StageLv2).
  { destruct lv; [left|left|by right]; intros ->; apply Hp; left. }
  assert (Hd : p ∉ Lv0 d ++ Lv1 d).
  { destruct lv; [intros Hin; apply Hp; by right..|done]. }
  destruct (sessions (setDispatcher w d) !! q) as [s|] eqn:Hq; cycle 1.
  { destruct (stage_step_nil lv en q _ Hq) as (w' & tr & -> & Hc). apply Hc. }
  assert (Hcalls := stage_step_driverCalls lv en q _ s p Hq Hcase).
  destruct (stage_step lv en q _ s Hq) as (_ & _ & _ & Hdisp & Hlv).
  assert (Hafter : p ∉ Lv0 (dispatcher (final (stageHandler lv en q (setDispatcher w d))))
                       ++ Lv1 (dispatcher (final (stageHandler lv en q (setDispatcher w d))))).
  { rewrite Hdisp.
    destruct (stage_step_sends lv en q _ s Hq) as [Hs|(lv' & Hs & Hlt)]; rewrite Hs; simpl.
    - done.
    - intros Hin. apply enqueue_waiting in Hin as [->|Hin]; [|done].
      destruct Hcase as [?| ->]; [done|]. destruct lv'; simpl in Hlt; lia. }
  destruct (stageHandler lv en q (setDispatcher w d)) as [[[u|v] w1] t1];
    unfold final, trace in *; simpl in *; [|done].
  specialize (IH w1 Hafter).
  destruct (Serve fuel en w1) as [[e w2] t2]. unfold trace in *. simpl in *.
  by rewrite driverCalls_app, Hcalls, IH.
Qed.

(** ** A panic ends the way of a session *)

Lemma chain_other_sessions en q ms tr r p :
  ChainShape en q ms tr r -> p <> q -> interceptorCalls p tr = [].
Proof.
  intros Hshape Hne.
  induction Hshape; unfold interceptorCalls in *; simpl;
    rewrite ?decide_False by done; done.
Qed.

Lemma handleInterceptor_other_sessions en q w s p :
  sessions w !! q = Some s -> p <> q ->
  interceptorCalls p (trace (handleInterceptor en q w)) = [].
Proof.
  intros Hq Hne.
  destruct (stageHandler_reads StageLv0 en q w s Hq) as (_ & Hreads & _).
  destruct (handleInterceptor_body_spec en q _ _ (startedWorld_lookup StageLv0 q s w))
    as (logs & r & chainTr & wb & sb & Hlogs & Hshape & Hbody & _).
  simpl stageBody in *. simpl stageHandler in *.
  unfold interceptorCalls. rewrite Hreads by done. rewrite Hbody. unfold trace. simpl.
  rewrite !omap_app, (omap_silent _ logs) by done. fold (interceptorCalls p chainTr).
  rewrite (chain_other_sessions en q _ _ _ p Hshape Hne). by destruct r as [[|]|].
Qed.

Lemma stage_step_interceptorCalls lv en q w s p :
  sessions w !! q = Some s -> p <> q \/ lv <> StageLv0 ->
  interceptorCalls p (trace (stageHandler lv en q w)) = [].
Proof.
  intros Hq Hcase. destruct lv; simpl stageHandler.
  - destruct Hcase as [Hne|?]; [|done]. by eapply handleInterceptor_other_sessions.
  - destruct (handleDriver_fan en q w s Hq) as (?&?&?&?&_&_&_&_&Hother&_). apply Hother.
  - destruct (handleOutput_completes en q w s Hq) as (_ & _ & Hother & _). apply Hother.
Qed.

Lemma chain_panicked en p ms tr r :
  ChainShape en p ms tr r ->
  Exists (fun c => isPanics c.2 = true) (interceptorCalls p tr) ->
  exists v, r = Panicked v.
Proof.
  induction 1; rewrite ?interceptorCalls_handle, ?interceptorCalls_log; intros Hex.
  - by apply Exists_nil in Hex.
  - apply Exists_cons in Hex as [Hex|Hex]; [done|by apply IHChainShape].
  - apply Exists_cons in Hex as [Hex|Hex]; [done|by apply IHChainShape].
  - by eexists.
  - apply Exists_cons in Hex as [Hex|Hex]; [done|]. by apply Exists_nil in Hex.
  - by eexists.
Qed.

Lemma fan_panicked en p tp ds tr r :
  FanOutShape en p tp ds tr r ->
  Exists (fun c => isPanics c.2 = true) (driverCalls p tr) ->
  exists v, r = Panicked v.
Proof.
  induction 1;
    rewrite ?driverCalls_app, ?(driverCalls_logs _ _ (driverLog_isLog _ _ _)),
      ?driverCalls_handle; simpl; intros Hex.
  - by apply Exists_nil in Hex.
  - by apply IHFanOutShape.
  - apply Exists_cons in Hex as [Hex|Hex]; [done|by apply IHFanOutShape].
  - apply Exists_cons in Hex as [Hex|Hex]; [done|by apply IHFanOutShape].
  - by eexists.
  - by eexists.
Qed.

(** A handler in which a [Handle] panics is not the output handler, and
    it sends the session nowhere. *)
Lemma stage_step_panic lv en q w s :
  sessions w !! q = Some s ->
  let run := stageHandler lv en q w in
  Exists (fun c => isPanics c.2 = true) (interceptorCalls q (trace run)) \/
  Exists (fun c => isPanics c.2 = true) (driverCalls q (trace run)) ->
  lv <> StageLv2 /\ sendsOf (trace run) = [].
Proof.
  intros Hq run Hex. destruct lv; simpl stageHandler in *.
  - destruct (handleInterceptor_chain en q w s Hq)
      as (r & chainTr & pre & post & Hshape & _ & _ & Hcalls & Hsends & Hother & _).
    fold run in Hcalls, Hsends, Hother.
    destruct (Hother q) as [Hd _]. rewrite Hcalls, Hd in Hex.
    destruct Hex as [Hex|Hex]; [|by apply Exists_nil in Hex].
    destruct (chain_panicked en q _ _ _ Hshape Hex) as [v ->].
    rewrite (chain_sends en q _ _ _ Hshape) in Hsends. by rewrite Hsends.
  - destruct (handleDriver_fan en q w s Hq)
      as (r & fanTr & pre & post & Hshape & _ & Hcalls & Hsends & Hother & _).
    fold run in Hcalls, Hsends, Hother.
    destruct (Hother q) as [Hi _]. rewrite Hcalls, Hi in Hex.
    destruct Hex as [Hex|Hex]; [by apply Exists_nil in Hex|].
    destruct (fan_panicked en q _ _ _ _ Hshape Hex) as [v ->].
    by rewrite Hsends.
  - destruct (handleOutput_completes en q w s Hq) as (_ & _ & Hother & _).
    fold run in Hother. destruct (Hother q) as [Hi Hd]. rewrite Hi, Hd in Hex.
    destruct Hex as [Hex|Hex]; by apply Exists_nil in Hex.
Qed.

(** A handler run on an address that holds no session leaves no trace. *)
Lemma stage_step_nil_silent lv en q w :
  sessions w !! q = None -> trace (stageHandler lv en q w) = [].
Proof.
  intros Hq.
  assert (Hnow : time_Now w = (Ok (clock w (clockReads w)), tick w, [])) by done.
  assert (Hq' : sessions (tick w) !! q = None) by done.
  destruct lv; simpl stageHandler;
    [unfold handleInterceptor|unfold handleDriver|unfold handleOutput];
    unfold OnIfLogV; destruct (IsVerboseEnabled en).
  all: try (erewrite (bind_Panicked (bind (Session_Topic q) _));
            [reflexivity|by rewrite (bind_Panicked _ _ _ _ _ _ (Session_Topic_nil _ _ Hq))]).
  all: rewrite (bind_Ok (ret tt) _ w tt w [] eq_refl);
       rewrite (bind_Ok _ _ _ _ _ _ Hnow);
       rewrite (bind_Panicked _ _ _ _ _ _ (Session_AddAttribute_nil _ _ _ _ Hq'));
       reflexivity.
Qed.

(** No [Handle] is called for a session that waits on no channel. *)
Lemma Serve_not_pending_calls en p : forall fuel w,
  pending p (dispatcher w) = 0%nat ->
  interceptorCalls p (trace (Serve fuel en w)) = [] /\
  driverCalls p (trace (Serve fuel en w)) = [].
Proof.
  induction fuel as [|fuel IH]; intros w Hp; simpl Serve; [done|].
  destruct (receive (dispatcher w)) as [[[lv q] d]|] eqn:Hr; [|done].
  destruct (pending_receive p _ _ _ _ Hr) as [Hpend _].
  destruct (decide (q = p)) as [->|Hne]; [lia|].
  destruct (sessions (setDispatcher w d) !! q) as [s|] eqn:Hq; cycle 1.
  { destruct (stage_step_nil lv en q _ Hq) as (w' & tr & Heq & _).
    pose proof (stage_step_nil_silent lv en q _ Hq) as Hsilent.
    rewrite Heq in Hsilent |- *. unfold trace in *. simpl in *. by subst tr. }
  assert (Hi := stage_step_interceptorCalls lv en q _ s p Hq (or_introl (not_eq_sym Hne))).
  assert (Hd := stage_step_driverCalls lv en q _ s p Hq (or_introl (not_eq_sym Hne))).
  destruct (stage_step_pending lv en q _ s p Hq) as [Hpen _].
  assert (Hzero : pending p (dispatcher (final (stageHandler lv en q (setDispatcher w d))))
                  = 0%nat).
  { destruct (stage_step_sends lv en q _ s Hq) as [Hs|(lv' & Hs & _)];
      rewrite Hs in Hpen; simpl in Hpen;
      rewrite ?filter_cons, ?decide_False in Hpen by done; simpl in Hpen; lia. }
  destruct (stageHandler lv en q (setDispatcher w d)) as [[[u|v] w1] t1];
    unfold final, trace in *; simpl in *; [|done].
  destruct (IH w1 Hzero) as [IHi IHd].
  destruct (Serve fuel en w1) as [[e w2] t2]. unfold trace in *. simpl in *.
  by rewrite interceptorCalls_app, driverCalls_app, Hi, Hd, IHi, IHd.
Qed.

(** A session for which a [Handle] panicked is never completed. *)
Lemma Serve_panic_never_completed en p : forall fuel w,
  (pending p (dispatcher w) <= 1)%nat ->
  Exists (fun c => isPanics c.2 = true) (interceptorCalls p (trace (Serve fuel en w))) \/
  Exists (fun c => isPanics c.2 = true) (driverCalls p (trace (Serve fuel en w))) ->
  completionsOf p (trace (Serve fuel en w)) = [].
Proof.
  induction fuel as [|fuel IH]; intros w Hp Hex; simpl Serve in *; [done|].
  destruct (receive (dispatcher w)) as [[[lv q] d]|] eqn:Hr; [|done].
  destruct (pending_receive p _ _ _ _ Hr) as [Hpend _].
  destruct (sessions (setDispatcher w d) !! q) as [s|] eqn:Hq; cycle 1.
  { destruct (stage_step_nil lv en q _ Hq) as (w' & tr & -> & Hc).
    unfold trace. simpl. by destruct (Hc p) as [-> _]. }
  destruct (stage_step lv en q _ s Hq) as (_ & _ & Hcomp & _ & Hlv).
  destruct (stage_step_pending lv en q _ s p Hq) as [Hpen _].
  pose proof (stage_step_panic lv en q _ s Hq) as Hpanic. simpl in Hpanic.
  destruct (decide (q = p)) as [->|Hne].
  - (* the session itself is served *)
    assert (Hd : pending p d = 0%nat) by lia. simpl in Hpen. rewrite Hd in Hpen.
    assert (Hc : lv <> StageLv2 ->
                 completionsOf p (trace (stageHandler lv en p (setDispatcher w d))) = []).
    { intros Hlv2. destruct lv; [by destruct Hlv|by destruct Hlv|done]. }
    assert (Hout : lv = StageLv2 ->
                   interceptorCalls p (trace (stageHandler lv en p (setDispatcher w d))) = []
                   /\ driverCalls p (trace (stageHandler lv en p (setDispatcher w d))) = []
                   /\ sendsOf (trace (stageHandler lv en p (setDispatcher w d))) = []).
    { intros ->. simpl.
      destruct (handleOutput_completes en p _ s Hq) as (_ & Hs & Hother & _).
      destruct (Hother p) as [Hi Hdr]. by rewrite Hi, Hdr, Hs. }
    pose proof (Serve_not_pending en p fuel) as Hzero.
    pose proof (Serve_not_pending_calls en p fuel) as Hzeroc.
    destruct (stageHandler lv en p (setDispatcher w d)) as [[[u|v] w1] t1];
      unfold final, trace in *; simpl in *.
    + specialize (IH w1). specialize (Hzero w1). specialize (Hzeroc w1).
      destruct (Serve fuel en w1) as [[e w2] t2]. unfold trace in *. simpl in *.
      rewrite interceptorCalls_app, driverCalls_app, !Exists_app in Hex.
      rewrite completionsOf_app.
      destruct (decide (sendsOf t1 = [])) as [Hs|Hs].
      * rewrite Hs in Hpen. simpl in Hpen.
        destruct (Hzeroc ltac:(lia)) as [Hi2 Hd2]. rewrite Hi2, Hd2 in Hex.
        assert (Hex1 : Exists (fun c => isPanics c.2 = true) (interceptorCalls p t1) \/
                       Exists (fun c => isPanics c.2 = true) (driverCalls p t1)).
        { destruct Hex as [[Hex|Hex]|[Hex|Hex]]; try (by apply Exists_nil in Hex); auto. }
        destruct (Hpanic Hex1) as [Hlv2 _].
        by rewrite (Hc Hlv2), (Hzero ltac:(lia)).
      * assert (Hlv2 : lv <> StageLv2).
        { intros ->. by destruct (Hout eq_refl) as (_ & _ & Hs'). }
        rewrite (Hc Hlv2). simpl.
        assert (Hle : (pending p (dispatcher w1) <= 1)%nat).
        { rewrite Hpen. clear -Hlv Hlv2.
          destruct lv; [destruct Hlv as (_ & [Hx|[Hx|Hx]] & _)
                       |destruct Hlv as (_ & [Hx|Hx] & _)|done];
            rewrite Hx; simpl; rewrite ?filter_cons, ?filter_nil;
            simpl; try case_decide; simpl; lia. }
        apply IH; [exact Hle|].
        destruct Hex as [[Hex|Hex]|[Hex|Hex]]; auto;
          exfalso; apply Hs; apply Hpanic; auto.
    + assert (Hlv2 : lv <> StageLv2) by (by apply Hpanic).
      by apply Hc.
  - (* another session is served *)
    specialize (Hcomp p ltac:(done)).
    assert (Hi := stage_step_interceptorCalls lv en q _ s p Hq (or_introl (not_eq_sym Hne))).
    assert (Hdc := stage_step_driverCalls lv en q _ s p Hq (or_introl (not_eq_sym Hne))).
    assert (Hle : (pending p (dispatcher (final (stageHandler lv en q (setDispatcher w d))))
                   <= 1)%nat).
    { destruct (stage_step_sends lv en q _ s Hq) as [Hs|(lv' & Hs & _)];
        rewrite Hs in Hpen; simpl in Hpen;
        rewrite ?filter_cons, ?decide_False in Hpen by done; simpl in Hpen; lia. }
    destruct (stageHandler lv en q (setDispatcher w d)) as [[[u|v] w1] t1];
      unfold final, trace in *; simpl in *; [|done].
    specialize (IH w1 Hle).
    destruct (Serve fuel en w1) as [[e w2] t2]. unfold trace in *. simpl in *.
    rewrite interceptorCalls_app, driverCalls_app, Hi, Hdc in Hex. simpl in Hex.
    rewrite completionsOf_app, Hcomp. simpl. by apply IH.
Qed.

(** ** The completion callback *)

(** C4 as the code has it: the completion callback is called by the
    output stage only, once in every run of that handler, on the outbound
    data the session holds at that moment.  A session that waits at one
    place of the dispatcher is therefore completed at most once, and, when
    fail-fast mode is off and no [Handle] called for it panics, exactly
    once by the time the channels are drained; a loop that is given fuel
    for its backlog does not stop half way.  When a [Handle] called for
    the session panics, the interceptor or driver stage it ran in sends
    the session nowhere, and the session is never completed. *)
Theorem completion_callback en p w s fuel :
  sessions w !! p = Some s ->
  let served := Serve fuel en w in
  let panicked (t : list Event) :=
    Exists (fun c => isPanics c.2 = true) (interceptorCalls p t) \/
    Exists (fun c => isPanics c.2 = true) (driverCalls p t) in
  (forall q, completionsOf q (trace (handleInterceptor en p w)) = [] /\
             completionsOf q (trace (handleDriver en p w)) = []) /\
  completionsOf p (trace (handleOutput en p w)) =
    [(Outbound_Data (outbound s), onCompletedFunc s (Outbound_Data (outbound s)))] /\
  ((pending p (dispatcher w) <= 1)%nat ->
   (length (completionsOf p (trace served)) <= 1)%nat) /\
  (pending p (dispatcher w) = 1%nat ->
   IsFailFastEnabled en = false ->
   result served = Drained ->
   Forall (fun c => isPanics c.2 = false) (interceptorCalls p (trace served)) ->
   Forall (fun c => isPanics c.2 = false) (driverCalls p (trace served)) ->
   length (completionsOf p (trace served)) = 1%nat) /\
  ((backlog (dispatcher w) <= fuel)%nat -> result served <> Unfinished) /\
  (panicked (trace (handleInterceptor en p w)) ->
   sendsOf (trace (handleInterceptor en p w)) = []) /\
  (panicked (trace (handleDriver en p w)) ->
   sendsOf (trace (handleDriver en p w)) = []) /\
  ((pending p (dispatcher w) <= 1)%nat ->
   panicked (trace served) -> completionsOf p (trace served) = []).
Proof.
  intros Hp served panicked.
  split.
  { intros q.
    destruct (handleInterceptor_chain en p w s Hp) as (?&?&?&?&_&_&_&_&_&Hi&_).
    destruct (handleDriver_fan en p w s Hp) as (?&?&?&?&_&_&_&_&Hd&_).
    split; [apply Hi|apply Hd]. }
  split.
  { destruct (handleOutput_completes en p w s Hp) as (Hc & _). by rewrite Hc, decide_True. }
  split; [apply Serve_at_most_once|].
  split; [by apply (Serve_exactly_once en p fuel w s)|].
  split; [apply Serve_finishes|].
  split; [intros Hex; by apply (stage_step_panic StageLv0 en p w s Hp)|].
  split; [intros Hex; by apply (stage_step_panic StageLv1 en p w s Hp)|].
  apply Serve_panic_never_completed.
Qed.

(** C1: when the [Handle] of an interceptor returns the drop sentinel,
    the interceptor stage sets the outbound field "error" to
    "InterceptorDropped", calls no further interceptor, and sends the
    session to stage 2 and to no other stage; the dispatch loop then
    never hands it to a driver. *)
Theorem drop_short_circuits en p w s it :
  sessions w !! p = Some s ->
  let run := handleInterceptor en p w in
  (it, Returns (Some ErrInterceptorDropped)) ∈ interceptorCalls p (trace run) ->
  (exists s', sessions (final run) !! p = Some s' /\
              Outbound_Data (outbound s') !! "error" = Some (VString "InterceptorDropped")) /\
  (exists before,
     interceptorCalls p (trace run) =
       before ++ [(it, Returns (Some ErrInterceptorDropped))]) /\
  sendsOf (trace run) = [(StageLv2, p)] /\
  Lv1 (dispatcher (final run)) = Lv1 (dispatcher w) /\
  Lv2 (dispatcher (final run)) = Lv2 (dispatcher w) ++ [p] /\
  driverCalls p (trace run) = [] /\
  result run = Ok tt /\
  (p ∉ Lv0 (dispatcher w) ++ Lv1 (dispatcher w) ->
   forall fuel, driverCalls p (trace (Serve fuel en (final run))) = []).
Proof.
  intros Hp run Hin.
  destruct (handleInterceptor_chain en p w s Hp)
    as (r & chainTr & pre & post & Hshape & _ & _ & Hcalls & Hsends & Hother & Hres
        & (s' & Hs' & _ & Hdrop) & _ & Hdisp).
  fold run in Hcalls, Hsends, Hother, Hres, Hs', Hdisp.
  rewrite Hcalls in Hin |- *.
  destruct (chain_drop en p _ _ _ it Hshape Hin) as (-> & before & Hbefore).
  rewrite (chain_sends en p _ _ _ Hshape) in Hsends, Hdisp. simpl in Hsends, Hdisp.
  split; [exists s'; auto|]. split; [by exists before|].
  split; [done|]. rewrite Hdisp. simpl.
  split; [done|]. split; [done|]. split; [apply Hother|]. split; [done|].
  intros Hnot fuel. apply Serve_no_driver. by rewrite Hdisp.
Qed.

(** * Further properties of engine.go *)

(** ** A stage handler whose body is known *)

Lemma stageHandler_exact lv en p w s rb wb tb sb :
  sessions w !! p = Some s ->
  stageBody lv en p (startedWorld lv p s w) = (rb, wb, tb) ->
  sessions wb !! p = Some sb ->
  result (stageHandler lv en p w) = recovered en (panicOf rb) /\
  final (stageHandler lv en p w) =
    setSessions (tick wb)
      (<[p := setAttributes sb
                (<[endKey lv := VDuration (clock w (S (clockReads w)) - timestamp s)]>
                   (attributes sb))]> (sessions wb)) /\
  (forall B (g : Event -> option B),
     (forall lvl msg, g (EvLog lvl msg) = None) ->
     (forall q key v, g (EvAddAttribute q key v) = None) ->
     omap g (trace (stageHandler lv en p w)) = omap g tb).
Proof.
  intros Hp Hbody Hsb.
  destruct (stageHandler_spec lv en p w s Hp) as (logs & sb' & Hlogs & Hev & Hrun).
  destruct (stageHandler_reads lv en p w s Hp) as (_ & Hreads & _).
  rewrite Hbody in Hev, Hrun, Hreads.
  unfold result, final, trace in Hev, Hrun, Hreads. simpl in Hev, Hrun, Hreads.
  apply evolves_lookup in Hev. assert (sb' = sb) as -> by congruence.
  split; [by rewrite Hrun|]. split; [by rewrite Hrun|].
  intros B g Hl Ha. by apply Hreads.
Qed.

Lemma sort_Sort_nil : sort_Sort [] = [].
Proof. apply Permutation_nil. symmetry. apply sort_Sort_perm. Qed.

(** ** Pass-through *)

(** X1: a session for whose topic no interceptor is registered (none at
    all, or none that matches) passes the interceptor stage untouched but
    for the two timing attributes: no [Handle] is called, the outbound
    message stays as it was, and the session is sent to the driver
    stage. *)
Theorem interceptor_stage_pass_through en p w s :
  sessions w !! p = Some s ->
  interceptorsFor en (topic s) = [] ->
  let run := handleInterceptor en p w in
  result run = Ok tt /\
  interceptorCalls p (trace run) = [] /\
  sendsOf (trace run) = [(StageLv1, p)] /\
  dispatcher (final run) = enqueue StageLv1 p (dispatcher w) /\
  sessions (final run) !! p =
    Some (setAttributes s
            (<["Interceptor.End" := VDuration (clock w (S (clockReads w)) - timestamp s)]>
               (<["Interceptor.Start" := VTime (clock w (clockReads w))]> (attributes s)))).
Proof.
  intros Hp Hnone run.
  set (w0 := startedWorld StageLv0 p s w).
  assert (Hp0 : sessions w0 !! p = Some (started StageLv0 s w))
    by apply startedWorld_lookup.
  destruct (collectMatches_run en p _ (interceptors en) [] w0 Hp0) as (logs & Hcol & Hlogs).
  change (topic (started StageLv0 s w)) with (topic s) in Hcol.
  fold (interceptorsFor en (topic s)) in Hcol. rewrite Hnone in Hcol.
  assert (Hbody : stageBody StageLv0 en p w0 =
                  (Ok tt, setDispatcher w0 (enqueue StageLv1 p (dispatcher w0)),
                   logs ++ [EvSend StageLv1 p])).
  { simpl stageBody. unfold handleInterceptor_body.
    rewrite (bind_Ok _ _ _ _ _ _ Hcol). simpl app. rewrite sort_Sort_nil.
    reflexivity. }
  destruct (stageHandler_exact StageLv0 en p w s _ _ _ _ Hp Hbody Hp0)
    as (Hres & Hfin & Hreads).
  simpl stageHandler in *. fold run in Hres, Hfin, Hreads.
  assert (Hg : forall B (g : Event -> option B),
             (forall lvl msg, g (EvLog lvl msg) = None) ->
             (forall q key v, g (EvAddAttribute q key v) = None) ->
             omap g (trace run) = omap g [EvSend StageLv1 p]).
  { intros B g Hl Ha. rewrite (Hreads B g Hl Ha), omap_app.
    by rewrite (omap_silent g logs Hl Hlogs). }
  split; [done|].
  split; [unfold interceptorCalls; by rewrite Hg|].
  split; [unfold sendsOf; by rewrite Hg|].
  rewrite Hfin. split; [done|]. simpl. by rewrite lookup_insert_eq.
Qed.

Lemma runDrivers_none en p s : forall ds w,
  sessions w !! p = Some s ->
  filter (fun d => anyTopicMatches (Driver_GetTopicExpr d) (topic s) = true) ds = [] ->
  exists logs, runDrivers en p ds w = (Ok tt, w, logs) /\ forallb isLog logs = true.
Proof.
  induction ds as [|d rest IH]; intros w Hp Hnone; [by exists []|].
  rewrite filter_cons in Hnone.
  destruct (anyTopicMatches (Driver_GetTopicExpr d) (topic s)) eqn:Hm.
  { by rewrite decide_True in Hnone. }
  rewrite decide_False in Hnone by done.
  destruct (IH w Hp Hnone) as (logs & Hrun & Hlogs).
  simpl runDrivers.
  rewrite (bind_Ok _ _ _ _ _ _ (Session_Topic_run _ _ _ Hp)).
  rewrite (bind_Ok _ _ _ _ _ _ (OnIfLogV_Msgf_run _ _ _)).
  rewrite Hm. rewrite (bind_Ok (ret tt) _ w tt w [] eq_refl), Hrun.
  eexists. split; [reflexivity|].
  unfold trace. simpl. rewrite forallb_app, Hlogs. by destruct (IsVerboseEnabled en).
Qed.

(** X2: a session for whose topic no driver is registered passes the
    driver stage untouched but for the two timing attributes: no [Handle]
    is called, the outbound message stays as it was, and the session is
    sent to the output stage. *)
Theorem driver_stage_pass_through en p w s :
  sessions w !! p = Some s ->
  driversFor en (topic s) = [] ->
  let run := handleDriver en p w in
  result run = Ok tt /\
  driverCalls p (trace run) = [] /\
  sendsOf (trace run) = [(StageLv2, p)] /\
  dispatcher (final run) = enqueue StageLv2 p (dispatcher w) /\
  sessions (final run) !! p =
    Some (setAttributes s
            (<["Driver.End" := VDuration (clock w (S (clockReads w)) - timestamp s)]>
               (<["Driver.Start" := VTime (clock w (clockReads w))]> (attributes s)))).
Proof.
  intros Hp Hnone run.
  set (w0 := startedWorld StageLv1 p s w).
  assert (Hp0 : sessions w0 !! p = Some (started StageLv1 s w))
    by apply startedWorld_lookup.
  destruct (runDrivers_none en p _ (drivers en) w0 Hp0 Hnone) as (logs & Hrun & Hlogs).
  assert (Hbody : stageBody StageLv1 en p w0 =
                  (Ok tt, setDispatcher w0 (enqueue StageLv2 p (dispatcher w0)),
                   logs ++ [EvSend StageLv2 p])).
  { simpl stageBody. unfold handleDriver_body.
    rewrite (bind_Ok _ _ _ _ _ _ Hrun). reflexivity. }
  destruct (stageHandler_exact StageLv1 en p w s _ _ _ _ Hp Hbody Hp0)
    as (Hres & Hfin & Hreads).
  simpl stageHandler in *. fold run in Hres, Hfin, Hreads.
  assert (Hg : forall B (g : Event -> option B),
             (forall lvl msg, g (EvLog lvl msg) = None) ->
             (forall q key v, g (EvAddAttribute q key v) = None) ->
             omap g (trace run) = omap g [EvSend StageLv2 p]).
  { intros B g Hl Ha. rewrite (Hreads B g Hl Ha), omap_app.
    by rewrite (omap_silent g logs Hl Hlogs). }
  split; [done|].
  split; [unfold driverCalls; by rewrite Hg|].
  split; [unfold sendsOf; by rewrite Hg|].
  rewrite Hfin. split; [done|]. simpl. by rewrite lookup_insert_eq.
Qed.

(** ** The output stage is the last one *)


(** ** Hooks and the shutdown signal *)

Lemma hookEvents_bind (l : list HookFunc) :
  l ≫= hookEvents = map (fun h => EvHook (hookName h)) l.
Proof.
  induction l as [|h l IH]; [done|].
  change ((h :: l) ≫= hookEvents) with (EvHook (hookName h) :: (l ≫= hookEvents)).
  by rewrite IH.
Qed.

Lemma stepEvents_isLifecycle (l : list (string * Action)) :
  forallb isLifecycle (l ≫= stepEvents) = true.
Proof.
  induction l as [|st l IH]; [done|].
  change ((st :: l) ≫= stepEvents) with (stepEvents st ++ (l ≫= stepEvents)).
  rewrite forallb_app, IH. unfold stepEvents. by destruct (action_overruns st.2).
Qed.

Lemma no_shutdown_in_hooks (l : list HookFunc) :
  EvShutdown ∉ map (fun h => EvHook (hookName h)) l.
Proof. intros [h [? _]]%list_elem_of_fmap. done. Qed.

Lemma no_shutdown_in_calls (t : list Event) :
  forallb isLifecycle t = true -> EvShutdown ∉ t.
Proof.
  intros Ht Hs. rewrite forallb_forall in Ht.
  by specialize (Ht _ (proj1 (list_elem_of_In _ _) Hs)).
Qed.

(** X4: [Start] never gives the shutdown signal.  Once the start-before
    hooks have returned, it makes lifecycle calls and nothing else, and
    then, whatever the calls did, runs the start-after hooks in their
    order up to the first that panics; the closing log line is written
    exactly when all of them returned. *)
Theorem Start_brackets_calls_with_hooks en w :
  (EvShutdown ∉ trace (Start en w)) /\
  (allReturn hook_panics (startBeforeHooks en) = true ->
   exists calls,
     forallb isLifecycle calls = true /\
     trace (Start en w) =
       EvLog LevelInfo "Engine starting..."
       :: map (fun h => EvHook (hookName h)) (startBeforeHooks en) ++ calls
       ++ map (fun h => EvHook (hookName h)) (issued hook_panics (startAfterHooks en))
       ++ (if allReturn hook_panics (startAfterHooks en)
           then [EvLog LevelInfo "Engine starting...OK"] else [])).
Proof.
  rewrite Start_run, !firstPanic_allReturn.
  pose proof (stepEvents_isLifecycle (issued stepPanics (startSteps en))) as Hcalls.
  destruct (firstPanic hook_panics (startBeforeHooks en)) as [v|] eqn:Hb;
    unfold trace; cbn [snd]; rewrite !hookEvents_bind.
  - split; [|done]. intros Hin.
    apply elem_of_cons in Hin as [?|Hin]; [done|]. by apply no_shutdown_in_hooks in Hin.
  - rewrite (issued_all _ _ Hb). split.
    + intros Hin. apply elem_of_cons in Hin as [?|Hin]; [done|].
      rewrite !elem_of_app in Hin. destruct Hin as [Hin|[Hin|[Hin|Hin]]].
      * by apply no_shutdown_in_hooks in Hin.
      * by apply no_shutdown_in_calls in Hin.
      * by apply no_shutdown_in_hooks in Hin.
      * destruct (firstPanic hook_panics (startAfterHooks en));
          [by apply elem_of_nil in Hin|]. by apply list_elem_of_singleton in Hin.
    + intros _. exists (issued stepPanics (startSteps en) ≫= stepEvents).
      split; [done|]. by destruct (firstPanic hook_panics (startAfterHooks en)).
Qed.

(** X5: [Stop] gives the shutdown signal exactly when its stop-before
    and stop-after hooks return: then it comes once, after the lifecycle
    calls and the stop-after hooks and right before the closing log line,
    also when a lifecycle call panicked.  When one of these hooks panics,
    the signal is not given and the panic leaves [Stop]. *)
Theorem Stop_signals_shutdown_last en w :
  (allReturn hook_panics (stopBeforeHooks en) = true ->
   allReturn hook_panics (stopAfterHooks en) = true ->
   exists calls,
     forallb isLifecycle calls = true /\
     trace (Stop en w) =
       EvLog LevelInfo "Engine stopping..."
       :: map (fun h => EvHook (hookName h)) (stopBeforeHooks en) ++ calls
       ++ map (fun h => EvHook (hookName h)) (stopAfterHooks en)
       ++ [EvShutdown; EvLog LevelInfo "Engine stopping...OK"]) /\
  (allReturn hook_panics (stopBeforeHooks en) = false \/
   allReturn hook_panics (stopAfterHooks en) = false ->
   (EvShutdown ∉ trace (Stop en w)) /\ exists v, result (Stop en w) = Panicked v).
Proof.
  rewrite Stop_run, !firstPanic_allReturn.
  pose proof (stepEvents_isLifecycle (issued stepPanics (stopSteps en))) as Hcalls.
  destruct (firstPanic hook_panics (stopBeforeHooks en)) as [v|] eqn:Hb;
    unfold trace, result; cbn [fst snd]; rewrite !hookEvents_bind.
  - split; [done|]. intros _. split; [|by eexists]. intros Hin.
    apply elem_of_cons in Hin as [?|Hin]; [done|]. by apply no_shutdown_in_hooks in Hin.
  - rewrite (issued_all _ _ Hb).
    destruct (firstPanic hook_panics (stopAfterHooks en)) as [v'|] eqn:Ha.
    + split; [done|]. intros _. split; [|by eexists]. intros Hin.
      apply elem_of_cons in Hin as [?|Hin]; [done|].
      rewrite !elem_of_app in Hin. destruct Hin as [Hin|[Hin|[Hin|Hin]]].
      * by apply no_shutdown_in_hooks in Hin.
      * by apply no_shutdown_in_calls in Hin.
      * by apply no_shutdown_in_hooks in Hin.
      * by apply elem_of_nil in Hin.
    + rewrite (issued_all _ _ Ha). split; [|by intros [?|?]].
      intros _ _. by exists (issued stepPanics (stopSteps en) ≫= stepEvents).
Qed.

(** ** Topic expressions as a set *)

(** X6: the expressions of a component are alternatives: a list matches
    exactly when one of its parts matches, and neither the order nor the
    repetition of the expressions matters. *)
Theorem anyTopicMatches_alternatives :
  (forall a b t,
     anyTopicMatches (a ++ b) t = anyTopicMatches a t || anyTopicMatches b t) /\
  (forall a b t,
     (forall e, e ∈ a <-> e ∈ b) -> anyTopicMatches a t = anyTopicMatches b t).
Proof.
  split.
  - intros a b t. induction a as [|e a IH]; [done|]. simpl.
    by destruct (matches e t).
  - intros a b t Hab.
    destruct (anyTopicMatches a t) eqn:Ha, (anyTopicMatches b t) eqn:Hb; try done.
    + apply anyTopicMatches_spec in Ha as (e & He & Hm).
      assert (anyTopicMatches b t = true); [|congruence].
      apply anyTopicMatches_spec. exists e. split; [by apply Hab|done].
    + apply anyTopicMatches_spec in Hb as (e & He & Hm).
      assert (anyTopicMatches a t = true); [|congruence].
      apply anyTopicMatches_spec. exists e. split; [by apply Hab|done].
Qed.

(** ** Submitting twice *)

Lemma invoker_run en income cbFunc w :
  let p := fresh (dom (sessions w)) in
  let s := {| timestamp := clock w (clockReads w);
              attributes := ∅;
              topic := income_topic income;
              contextId := 0;
              inbound := {| Inbound_Topic := income_topic income;
                            Inbound_Data := income_data income |};
              outbound := {| Outbound_Topic := income_topic income;
                             Outbound_Data := ∅ |};
              onCompletedFunc := cbFunc |} in
  exists logs,
    forallb isLog logs = true /\
    invoker en income cbFunc w =
      (Ok p,
       {| sessions := <[p := s]> (sessions w);
          dispatcher := enqueue StageLv0 p (dispatcher w);
          clock := clock w;
          clockReads := S (clockReads w) |},
       logs ++ [EvSend StageLv0 p]).
Proof.
  intros p s. unfold invoker.
  rewrite (bind_Ok _ _ _ _ _ _ (OnIfLogV_Msgf_run _ _ _)).
  eexists. split; [|reflexivity]. by destruct (IsVerboseEnabled en).
Qed.

(** X7: two events submitted one after the other make two sessions at
    different addresses, waiting at stage 0 in the order of submission
    behind what waited there before; each carries the time of its own
    submission, and the second submission leaves the first session as it
    was. *)
Theorem invoker_twice_in_order en e1 cb1 e2 cb2 w :
  let run1 := invoker en e1 cb1 w in
  let run2 := invoker en e2 cb2 (final run1) in
  exists p1 p2 s1 s2,
    result run1 = Ok p1 /\ result run2 = Ok p2 /\ p1 <> p2 /\
    Lv0 (dispatcher (final run2)) = Lv0 (dispatcher w) ++ [p1; p2] /\
    sessions (final run1) !! p1 = Some s1 /\
    sessions (final run2) !! p1 = Some s1 /\
    sessions (final run2) !! p2 = Some s2 /\
    topic s1 = income_topic e1 /\ topic s2 = income_topic e2 /\
    timestamp s1 = clock w (clockReads w) /\
    timestamp s2 = clock w (S (clockReads w)).
Proof.
  intros run1 run2.
  destruct (invoker_run en e1 cb1 w) as (logs1 & _ & H1).
  fold run1 in H1.
  destruct (invoker_run en e2 cb2 (final run1)) as (logs2 & _ & H2).
  fold run2 in H2.
  set (p1 := fresh (dom (sessions w))) in *.
  set (p2 := fresh (dom (sessions (final run1)))) in *.
  assert (Hne : p1 <> p2).
  { intros Heq. apply (is_fresh (dom (sessions (final run1)))). fold p2. rewrite <- Heq.
    rewrite H1. unfold final. simpl. rewrite dom_insert. set_solver. }
  eexists p1, p2, _, _.
  split; [by rewrite H1|]. split; [by rewrite H2|]. split; [done|].
  rewrite H2. unfold final at 1 2 3. simpl.
  split.
  { rewrite H1. unfold final. simpl. by rewrite <- app_assoc. }
  split; [rewrite H1; unfold final; simpl; apply lookup_insert_eq|].
  split.
  { rewrite lookup_insert_ne by done. rewrite H1. unfold final. simpl.
    apply lookup_insert_eq. }
  split; [apply lookup_insert_eq|]. simpl.
  split; [done|]. split; [done|]. split; [done|].
  rewrite H1. by unfold final.
Qed.

End HandlerProperties.

(** * An instance of [sort.Sort] *)

Lemma insertSorted_perm x l : Permutation (insertSorted x l) (x :: l).
Proof.
  induction l as [|y rest IH]; simpl; [reflexivity|].
  destruct (InterceptorSlice_Less y x); [|reflexivity].
  rewrite IH. apply perm_swap.
Qed.

Lemma insertionSort_perm l : Permutation (insertionSort l) l.
Proof.
  induction l as [|x rest IH]; simpl; [reflexivity|].
  rewrite insertSorted_perm. by constructor.
Qed.

Lemma insertSorted_sorted x l :
  StronglySorted (fun a b => InterceptorSlice_Less b a = false) l ->
  StronglySorted (fun a b => InterceptorSlice_Less b a = false) (insertSorted x l).
Proof.
  induction 1 as [|y rest Hs IH Hy]; simpl.
  - repeat constructor.
  - destruct (InterceptorSlice_Less y x) eqn:Hyx.
    + constructor; [exact IH|].
      rewrite (Forall_forall (fun b => InterceptorSlice_Less b y = false)).
      intros b Hb.
      rewrite (insertSorted_perm x rest) in Hb.
      apply elem_of_cons in Hb as [->|Hb].
      * unfold InterceptorSlice_Less in *. lia.
      * rewrite Forall_forall in Hy. by apply Hy.
    + constructor; [by constructor|].
      constructor; [exact Hyx|].
      eapply Forall_impl; [exact Hy|].
      intros b Hb. unfold InterceptorSlice_Less in *. lia.
Qed.

Lemma insertionSort_sorted l :
  StronglySorted (fun a b => InterceptorSlice_Less b a = false) (insertionSort l).
Proof.
  induction l as [|x rest IH]; simpl; [constructor|].
  by apply insertSorted_sorted.
Qed.

#[global] Instance insertionSortSort : SortSort := {|
  sort_Sort := insertionSort;
  sort_Sort_perm := insertionSort_perm;
  sort_Sort_sorted := insertionSort_sorted
|}.

(** * The statements at work on the sample engine *)

Import Sample.

(** The interceptor stage on a session that the interceptor of priority
    10 drops: the stage handler brackets its body with the two timing
    attributes. *)
Lemma stage_timing_attributes_witness :
  sessions (world "x") !! 0%nat = Some (session "x") /\
  (let run := stageHandler StageLv0 dropEngine 0%nat (world "x") in
   let startedAt := VTime (clock (world "x") (clockReads (world "x"))) in
   let elapsed :=
     VDuration (clock (world "x") (S (clockReads (world "x"))) - timestamp (session "x")) in
   exists logs post s0 s',
     forallb isLog logs = true /\ forallb isLog post = true /\
     trace run =
       logs ++ EvAddAttribute 0%nat (startKey StageLv0) startedAt
            :: trace (stageBody StageLv0 dropEngine 0%nat
                        (startedWorld StageLv0 0%nat (session "x") (world "x")))
            ++ EvAddAttribute 0%nat (endKey StageLv0) elapsed :: post /\
     sessions (startedWorld StageLv0 0%nat (session "x") (world "x")) !! 0%nat = Some s0 /\
     attributes s0 !! startKey StageLv0 = Some startedAt /\
     sessions (final run) !! 0%nat = Some s' /\
     attributes s' !! endKey StageLv0 = Some elapsed).
Proof.
  split; [reflexivity|].
  exact (stage_timing_attributes StageLv0 dropEngine 0%nat (world "x") (session "x") eq_refl).
Defined.

(** The values behind the previous statement: the start attribute is the
    time 1000 read at entry, the end attribute the 901 ns since the
    creation of the session at 100, a duration. *)
Example sample_timing_values :
  (attributes <$> sessions (final (handleInterceptor dropEngine 0%nat (world "x"))) !! 0%nat)
  = Some (<["Interceptor.End" := VDuration 901]>
            (<["Interceptor.Start" := VTime 1000]> ∅)).
Proof. vm_compute. reflexivity. Qed.

(** The end attribute is recorded as well when the body panics, whether
    the panic is swallowed or, under fail-fast, raised again. *)
Example sample_timing_on_panic :
  result (handleInterceptor panicEngine 0%nat (world "x")) = Ok tt /\
  ((attributes <$> sessions (final (handleInterceptor panicEngine 0%nat (world "x"))) !! 0%nat)
     ≫= (.!! "Interceptor.End")) = Some (VDuration 901) /\
  result (handleInterceptor (errorEngine true) 0%nat (world "x"))
    = Panicked (PanicOther (VString "interceptor error")) /\
  ((attributes <$> sessions (final (handleInterceptor (errorEngine true) 0%nat (world "x")))
                     !! 0%nat)
     ≫= (.!! "Interceptor.End")) = Some (VDuration 901).
Proof. vm_compute. repeat split. Qed.

(** Section 8, drop short-circuit: the interceptor of priority 10 drops,
    the one of priority 20 is not called, the session goes to stage 2. *)
Lemma drop_short_circuits_witness :
  sessions (world "x") !! 0%nat = Some (session "x") /\
  (dropping, Returns (Some ErrInterceptorDropped))
    ∈ interceptorCalls 0%nat (trace (handleInterceptor dropEngine 0%nat (world "x"))) /\
  (let run := handleInterceptor dropEngine 0%nat (world "x") in
   (exists s', sessions (final run) !! 0%nat = Some s' /\
               Outbound_Data (outbound s') !! "error" = Some (VString "InterceptorDropped")) /\
   (exists before,
      interceptorCalls 0%nat (trace run) =
        before ++ [(dropping, Returns (Some ErrInterceptorDropped))]) /\
   sendsOf (trace run) = [(StageLv2, 0%nat)] /\
   Lv1 (dispatcher (final run)) = Lv1 (dispatcher (world "x")) /\
   Lv2 (dispatcher (final run)) = Lv2 (dispatcher (world "x")) ++ [0%nat] /\
   driverCalls 0%nat (trace run) = [] /\
   result run = Ok tt /\
   (0%nat ∉ Lv0 (dispatcher (world "x")) ++ Lv1 (dispatcher (world "x")) ->
    forall fuel, driverCalls 0%nat (trace (Serve fuel dropEngine (final run))) = [])).
Proof.
  assert (Hin : (dropping, Returns (Some ErrInterceptorDropped))
                  ∈ interceptorCalls 0%nat
                      (trace (handleInterceptor dropEngine 0%nat (world "x")))).
  { vm_compute. apply list_elem_of_here. }
  split; [reflexivity|]. split; [exact Hin|].
  exact (drop_short_circuits dropEngine 0%nat (world "x") (session "x") dropping eq_refl Hin).
Defined.

(** The whole pipeline on that session: it is completed once, with the
    error field, and no driver sees it. *)
Example sample_drop_pipeline :
  result (Serve 2 dropEngine (submitted "x")) = Drained /\
  map (fun c => Interceptor_name c.1)
      (interceptorCalls 0%nat (trace (Serve 2 dropEngine (submitted "x")))) = ["dropping"] /\
  driverCalls 0%nat (trace (Serve 2 dropEngine (submitted "x"))) = [] /\
  map (fun c => c.1 !! "error") (completionsOf 0%nat (trace (Serve 2 dropEngine (submitted "x"))))
    = [Some (VString "InterceptorDropped")].
Proof. vm_compute. repeat split. Qed.


Example sample_priority_values :
  map (fun c => GetPriority c.1)
      (interceptorCalls 0%nat (trace (handleInterceptor priorityEngine 0%nat (world "x"))))
  = [5; 10; 20].
Proof. vm_compute. reflexivity. Qed.

(** Fail-fast on, two drivers match, the first returns an error: the
    logger panics, the second driver is not called and the session is sent
    nowhere.  The claim as stated promises the opposite. *)
Lemma drivers_fan_out_counterexample :
  IsFailFastEnabled (fanOutEngine true) = true /\
  map (fun d => className (Driver_lifecycle d)) (driversFor (fanOutEngine true) "x")
    = ["A"; "B"] /\
  map (fun c => className (Driver_lifecycle c.1))
      (driverCalls 0%nat (trace (handleDriver (fanOutEngine true) 0%nat (world "x")))) = ["A"] /\
  sendsOf (trace (handleDriver (fanOutEngine true) 0%nat (world "x"))) = [] /\
  result (handleDriver (fanOutEngine true) 0%nat (world "x"))
    = Panicked (PanicOther (VString "driver error")).
Proof. vm_compute. repeat split. Qed.

(** Section 8, driver fan-out: the same drivers with fail-fast off, and
    with fail-fast on. *)
Lemma drivers_fan_out_witness :
  sessions (world "x") !! 0%nat = Some (session "x") /\
  Forall (fun c => isPanics c.2 = false)
    (driverCalls 0%nat (trace (handleDriver (fanOutEngine false) 0%nat (world "x")))) /\
  IsFailFastEnabled (fanOutEngine false) = false /\
  IsFailFastEnabled (fanOutEngine true) = true /\
  (driverA, Returns (Some (ErrOther "unreachable")))
    ∈ driverCalls 0%nat (trace (handleDriver (fanOutEngine true) 0%nat (world "x"))) /\
  (let run := handleDriver (fanOutEngine false) 0%nat (world "x") in
   (driverCalls 0%nat (trace run)).*1 = driversFor (fanOutEngine false) (topic (session "x")) /\
   (forall d e, IsFailFastEnabled (fanOutEngine false) = false ->
      (d, Returns (Some e)) ∈ driverCalls 0%nat (trace run) ->
      exists t1 t2, trace run = t1 ++ EvDriverHandle 0%nat d (Returns (Some e))
                                  :: EvLog LevelError "driver error" :: t2) /\
   sendsOf (trace run) = [(StageLv2, 0%nat)] /\
   Lv2 (dispatcher (final run)) = Lv2 (dispatcher (world "x")) ++ [0%nat] /\
   result run = Ok tt) /\
  (let run := handleDriver (fanOutEngine true) 0%nat (world "x") in
   (exists t1 t2,
      trace run = t1 ++ EvDriverHandle 0%nat driverA (Returns (Some (ErrOther "unreachable")))
                     :: EvLog LevelPanic "driver error" :: t2) /\
   (exists before,
      driverCalls 0%nat (trace run)
        = before ++ [(driverA, Returns (Some (ErrOther "unreachable")))]) /\
   sendsOf (trace run) = [] /\
   dispatcher (final run) = dispatcher (world "x") /\
   result run = Panicked (PanicOther (VString "driver error"))).
Proof.
  assert (Hall : Forall (fun c => isPanics c.2 = false)
                   (driverCalls 0%nat
                      (trace (handleDriver (fanOutEngine false) 0%nat (world "x"))))).
  { vm_compute. repeat constructor. }
  assert (Hin : (driverA, Returns (Some (ErrOther "unreachable")))
                  ∈ driverCalls 0%nat
                      (trace (handleDriver (fanOutEngine true) 0%nat (world "x")))).
  { vm_compute. apply list_elem_of_here. }
  split; [reflexivity|]. split; [exact Hall|]. split; [reflexivity|]. split; [reflexivity|].
  split; [exact Hin|].
  split.
  - exact (proj1 (drivers_fan_out (fanOutEngine false) 0%nat (world "x") (session "x")
                    eq_refl) Hall (or_introl eq_refl)).
  - exact (proj2 (drivers_fan_out (fanOutEngine true) 0%nat (world "x") (session "x")
                    eq_refl) eq_refl driverA (ErrOther "unreachable") Hin).
Defined.

Example sample_fan_out_values :
  map (fun c => (className (Driver_lifecycle c.1), c.2))
      (driverCalls 0%nat (trace (handleDriver (fanOutEngine false) 0%nat (world "x"))))
  = [("A", Returns (Some (ErrOther "unreachable"))); ("B", Returns None)].
Proof. vm_compute. reflexivity. Qed.

(** An interceptor panics while fail-fast is off: the panic is swallowed,
    the session is sent to no stage, the channels drain, and the
    completion callback of the session is never called.  The claim as
    stated promises one call for every session. *)
Lemma completion_callback_counterexample :
  sessions (submitted "x") !! 0%nat = Some (session "x") /\
  pending 0%nat (dispatcher (submitted "x")) = 1%nat /\
  result (Serve 3 panicEngine (submitted "x")) = Drained /\
  completionsOf 0%nat (trace (Serve 3 panicEngine (submitted "x"))) = [].
Proof. vm_compute. repeat split. Qed.

(** A session submitted to the sample engine whose first interceptor
    returns an error, to the one whose interceptor panics, and a driver
    stage whose driver panics. *)
Lemma completion_callback_witness :
  sessions (submitted "x") !! 0%nat = Some (session "x") /\
  (pending 0%nat (dispatcher (submitted "x")) <= 1)%nat /\
  pending 0%nat (dispatcher (submitted "x")) = 1%nat /\
  IsFailFastEnabled (errorEngine false) = false /\
  result (Serve 3 (errorEngine false) (submitted "x")) = Drained /\
  Forall (fun c => isPanics c.2 = false)
    (interceptorCalls 0%nat (trace (Serve 3 (errorEngine false) (submitted "x")))) /\
  Forall (fun c => isPanics c.2 = false)
    (driverCalls 0%nat (trace (Serve 3 (errorEngine false) (submitted "x")))) /\
  (backlog (dispatcher (submitted "x")) <= 3)%nat /\
  Exists (fun c => isPanics c.2 = true)
    (interceptorCalls 0%nat (trace (handleInterceptor panicEngine 0%nat (submitted "x")))) /\
  Exists (fun c => isPanics c.2 = true)
    (driverCalls 0%nat
       (trace (handleDriver
                 (engine [] [driver "P" "x" (Panics (PanicOther (VString "boom")))] false)
                 0%nat (submitted "x")))) /\
  Exists (fun c => isPanics c.2 = true)
    (interceptorCalls 0%nat (trace (Serve 3 panicEngine (submitted "x")))) /\
  (length (completionsOf 0%nat (trace (Serve 3 (errorEngine false) (submitted "x")))) <= 1)%nat /\
  length (completionsOf 0%nat (trace (Serve 3 (errorEngine false) (submitted "x")))) = 1%nat /\
  result (Serve 3 (errorEngine false) (submitted "x")) <> Unfinished /\
  (forall q,
     completionsOf q (trace (handleInterceptor (errorEngine false) 0%nat (submitted "x"))) = [] /\
     completionsOf q (trace (handleDriver (errorEngine false) 0%nat (submitted "x"))) = []) /\
  completionsOf 0%nat (trace (handleOutput (errorEngine false) 0%nat (submitted "x"))) =
    [(Outbound_Data (outbound (session "x")),
      onCompletedFunc (session "x") (Outbound_Data (outbound (session "x"))))] /\
  sendsOf (trace (handleInterceptor panicEngine 0%nat (submitted "x"))) = [] /\
  sendsOf (trace (handleDriver
                    (engine [] [driver "P" "x" (Panics (PanicOther (VString "boom")))] false)
                    0%nat (submitted "x"))) = [] /\
  completionsOf 0%nat (trace (Serve 3 panicEngine (submitted "x"))) = [].
Proof.
  assert (Hi : Forall (fun c => isPanics c.2 = false)
                 (interceptorCalls 0%nat (trace (Serve 3 (errorEngine false) (submitted "x"))))).
  { vm_compute. repeat constructor. }
  assert (Hd : Forall (fun c => isPanics c.2 = false)
                 (driverCalls 0%nat (trace (Serve 3 (errorEngine false) (submitted "x"))))).
  { vm_compute. repeat constructor. }
  assert (Hle : (pending 0%nat (dispatcher (submitted "x")) <= 1)%nat) by (vm_compute; lia).
  assert (Hb : (backlog (dispatcher (submitted "x")) <= 3)%nat) by (vm_compute; lia).
  assert (Hdr : result (Serve 3 (errorEngine false) (submitted "x")) = Drained)
    by (vm_compute; reflexivity).
  assert (Hpi : Exists (fun c => isPanics c.2 = true)
                  (interceptorCalls 0%nat
                     (trace (handleInterceptor panicEngine 0%nat (submitted "x"))))).
  { vm_compute. by apply Exists_cons_hd. }
  assert (Hpd : Exists (fun c => isPanics c.2 = true)
                  (driverCalls 0%nat
                     (trace (handleDriver
                               (engine [] [driver "P" "x" (Panics (PanicOther (VString "boom")))]
                                  false)
                               0%nat (submitted "x"))))).
  { vm_compute. by apply Exists_cons_hd. }
  assert (Hps : Exists (fun c => isPanics c.2 = true)
                  (interceptorCalls 0%nat (trace (Serve 3 panicEngine (submitted "x"))))).
  { vm_compute. by apply Exists_cons_hd. }
  destruct (completion_callback (errorEngine false) 0%nat (submitted "x") (session "x") 3
              eq_refl) as (Honly & Hout & Hmost & Hexact & Hfin & _).
  destruct (completion_callback panicEngine 0%nat (submitted "x") (session "x") 3
              eq_refl) as (_ & _ & _ & _ & _ & Hstop0 & _ & Hnever).
  destruct (completion_callback
              (engine [] [driver "P" "x" (Panics (PanicOther (VString "boom")))] false)
              0%nat (submitted "x") (session "x") 3 eq_refl)
    as (_ & _ & _ & _ & _ & _ & Hstop1 & _).
  split; [reflexivity|]. split; [exact Hle|]. split; [reflexivity|]. split; [reflexivity|].
  split; [exact Hdr|]. split; [exact Hi|]. split; [exact Hd|]. split; [exact Hb|].
  split; [exact Hpi|]. split; [exact Hpd|]. split; [exact Hps|].
  split; [exact (Hmost Hle)|]. split; [exact (Hexact eq_refl eq_refl Hdr Hi Hd)|].
  split; [exact (Hfin Hb)|]. split; [exact Honly|]. split; [exact Hout|].
  split; [exact (Hstop0 (or_introl Hpi))|]. split; [exact (Hstop1 (or_intror Hpd))|].
  exact (Hnever Hle (or_introl Hps)).
Defined.



Example sample_error_chain_values :
  map (fun c => (Interceptor_name c.1, c.2))
      (interceptorCalls 0%nat (trace (handleInterceptor (errorEngine false) 0%nat (world "x"))))
    = [("failing", Returns (Some (ErrOther "refused"))); ("passing", Returns None)] /\
  sendsOf (trace (handleInterceptor (errorEngine false) 0%nat (world "x")))
    = [(StageLv1, 0%nat)].
Proof. vm_compute. repeat split. Qed.

(** The interceptor of priority 10 drops: the interceptor of priority 20
    and the driver are registered for the topic and are not called.  The
    claim as stated makes the components called equal to the components
    matching. *)
Lemma routing_by_topic_counterexample :
  map Interceptor_name (interceptorsFor dropEngine "x") = ["dropping"; "passing"] /\
  map (fun d => className (Driver_lifecycle d)) (driversFor dropEngine "x") = ["B"] /\
  result (Serve 3 dropEngine (submitted "x")) = Drained /\
  map (fun c => Interceptor_name c.1)
      (interceptorCalls 0%nat (trace (Serve 3 dropEngine (submitted "x")))) = ["dropping"] /\
  driverCalls 0%nat (trace (Serve 3 dropEngine (submitted "x"))) = [].
Proof. vm_compute. repeat split. Qed.

Lemma routing_by_topic_witness :
  sessions (world "x") !! 0%nat = Some (session "x") /\
  (let runI := handleInterceptor priorityEngine 0%nat (world "x") in
   let runD := handleDriver priorityEngine 0%nat (world "x") in
   (forall exprs t,
      anyTopicMatches exprs t = true <-> exists e, e ∈ exprs /\ matches e t = true) /\
   (forall t, anyTopicMatches [] t = false) /\
   (forall it o, (it, o) ∈ interceptorCalls 0%nat (trace runI) ->
      it ∈ interceptors priorityEngine /\
      anyTopicMatches (Interceptor_GetTopicExpr it) (topic (session "x")) = true /\
      Interceptor_GetTopicExpr it <> []) /\
   (forall d o, (d, o) ∈ driverCalls 0%nat (trace runD) ->
      d ∈ drivers priorityEngine /\
      anyTopicMatches (Driver_GetTopicExpr d) (topic (session "x")) = true /\
      Driver_GetTopicExpr d <> []) /\
   (sendsOf (trace runI) = [(StageLv1, 0%nat)] ->
      (interceptorCalls 0%nat (trace runI)).*1
        ≡ₚ interceptorsFor priorityEngine (topic (session "x"))) /\
   (sendsOf (trace runD) = [(StageLv2, 0%nat)] ->
      (driverCalls 0%nat (trace runD)).*1 = driversFor priorityEngine (topic (session "x")))).
Proof.
  split; [reflexivity|].
  exact (routing_by_topic priorityEngine 0%nat (world "x") (session "x") eq_refl).
Defined.

(** An interceptor panics with a value that is not an error, fail-fast
    off: the panic is recovered and nothing at all is logged.  The claim
    as stated has every recovered panic logged. *)
Lemma panics_stop_at_the_stage_counterexample :
  result (stageBody StageLv0 panicEngine 0%nat
            (startedWorld StageLv0 0%nat (session "x") (world "x")))
    = Panicked (PanicOther (VString "boom")) /\
  result (handleInterceptor panicEngine 0%nat (world "x")) = Ok tt /\
  logsOf (trace (handleInterceptor panicEngine 0%nat (world "x"))) = [].
Proof. vm_compute. repeat split. Qed.

Lemma panics_stop_at_the_stage_witness :
  sessions (world "x") !! 0%nat = Some (session "x") /\
  (let body := stageBody StageLv0 panicEngine 0%nat
                 (startedWorld StageLv0 0%nat (session "x") (world "x")) in
   let run := stageHandler StageLv0 panicEngine 0%nat (world "x") in
   (forall v, result run = Panicked v ->
      IsFailFastEnabled panicEngine = true /\ result body = Panicked v) /\
   (forall v, result body = Panicked v ->
      result run = (if IsFailFastEnabled panicEngine then Panicked v else Ok tt) /\
      (exists before,
         trace run =
           before ++ EvAddAttribute 0%nat (endKey StageLv0)
                       (VDuration (clock (world "x") (S (clockReads (world "x")))
                                   - timestamp (session "x")))
                  :: match v with
                     | PanicError _ => [EvLog LevelError (recoverMsg StageLv0)]
                     | PanicOther _ => []
                     end) /\
      sendsOf (trace run) = [] /\
      dispatcher (final run) = dispatcher (world "x") /\
      (forall q, q <> 0%nat -> sessions (final run) !! q = sessions (world "x") !! q) /\
      (IsFailFastEnabled panicEngine = false ->
       forall fuel w0 d,
         receive (dispatcher w0) = Some (StageLv0, 0%nat, d) ->
         setDispatcher w0 d = world "x" ->
         Serve (S fuel) panicEngine w0 =
           (result (Serve fuel panicEngine (final run)),
            final (Serve fuel panicEngine (final run)),
            trace run ++ trace (Serve fuel panicEngine (final run)))))).
Proof.
  split; [reflexivity|].
  exact (panics_stop_at_the_stage StageLv0 panicEngine 0%nat (world "x") (session "x") eq_refl).
Defined.



Example sample_lifecycle_values :
  lifecycleCalls (trace (Start lifecycleEngine emptyWorld)) =
    [("Plugin.Start", MethodOnStart, "plugin"); ("Plugin.Start", MethodOnStart, "broken")] /\
  omap (fun e => match e with EvHook h => Some h | _ => None end)
       (trace (Start lifecycleEngine emptyWorld)) = ["before"; "after"] /\
  lifecycleCalls (trace (Stop lifecycleEngine emptyWorld)) =
    [("Trigger.Stop", MethodOnStop, "stuck")] /\
  last (trace (Stop lifecycleEngine emptyWorld))
    = Some (EvLog LevelInfo "Engine stopping...OK").
Proof. vm_compute. repeat split. Qed.

(** * The socket client *)

Lemma Open_cases net s :
  let addr := network.SocketConfig_Addr (network.config s) in
  (exists c, network.Open net s = (None, network.withConn s c, [network.CallDial "tcp" addr]) /\
             network.net_Dial net "tcp" addr = inl c) \/
  (exists c raddr,
     network.Open net s =
       (None, network.withConn s c,
        [network.CallResolveUDPAddr "udp" addr; network.CallDialUDP "udp" raddr]) /\
     network.net_ResolveUDPAddr net "udp" addr = inl raddr /\
     network.net_DialUDP net "udp" raddr = inl c) \/
  (exists e calls,
     network.Open net s = (Some e, s, calls) /\
     Forall (fun call => network.isCallClose call = false) calls).
Proof.
  intros addr. unfold network.Open. fold addr.
  destruct (String.eqb "tcp" _).
  - destruct (network.net_Dial net "tcp" addr) as [c|e] eqn:Hd.
    + left. by exists c.
    + right. right. eexists _, _. split; [reflexivity|]. by repeat constructor.
  - destruct (String.eqb "udp" _).
    + destruct (network.net_ResolveUDPAddr net "udp" addr) as [raddr|e] eqn:Hr.
      * destruct (network.net_DialUDP net "udp" raddr) as [c|e] eqn:Hd.
        -- right. left. by exists c, raddr.
        -- right. right. eexists _, _. split; [reflexivity|]. by repeat constructor.
      * right. right. eexists _, _. split; [reflexivity|]. by repeat constructor.
    + right. right. eexists _, _. split; [reflexivity|]. constructor.
Qed.


(** X9: a client whose [Open] failed is still unopened: [Send] and
    [Receive] refuse with "Client connection is not ready" and [Close]
    answers nil, all three without a call to the network and without
    touching the buffer. *)
Theorem failed_Open_leaves_client_unopened net now s e s' calls buff data :
  network.conn s = None ->
  network.Open net s = (Some e, s', calls) ->
  network.Send net now s' data =
    (0, Some (network.errors_New "Client connection is not ready"), s', []) /\
  network.Receive net now s' buff =
    (buff, 0, Some (network.errors_New "Client connection is not ready"), s', []) /\
  network.Close net s' = (None, s', []).
Proof.
  intros Hconn Hopen.
  destruct (Open_cases net s) as [(c & Ho & _)|[(c & raddr & Ho & _)|(e' & cl & Ho & _)]];
    rewrite Ho in Hopen; [done|done|]. injection Hopen as _ <- _.
  unfold network.Send, network.Receive, network.Close. by rewrite Hconn.
Qed.

(** X10: after a successful [Open], [Send] goes to the connection that
    [Open] stored: it first sets the write deadline to now plus the write
    timeout of the configuration, writes the data only if that succeeded,
    and hands back what the write returned; if the deadline is refused,
    nothing is written and the error is wrapped. *)
Theorem Send_after_Open net now s s' calls data :
  network.Open net s = (None, s', calls) ->
  exists c,
    network.conn s' = Some c /\
    let deadline := now + network.SocketConfig_WriteTimeout (network.config s) in
    network.Send net now s' data =
      match network.Conn_SetWriteDeadline net c deadline with
      | Some err =>
          (0, Some (network.errors_WithMessage err "Set write timeout failed"), s',
           [network.CallSetWriteDeadline c deadline])
      | None =>
          ((network.Conn_Write net c data).1, (network.Conn_Write net c data).2, s',
           [network.CallSetWriteDeadline c deadline; network.CallWrite c data])
      end.
Proof.
  intros Hopen.
  assert (Hc : exists c, s' = network.withConn s c).
  { destruct (Open_cases net s) as [(c & Ho & _)|[(c & raddr & Ho & _)|(e' & cl & Ho & _)]];
      rewrite Ho in Hopen; [| |done]; injection Hopen as <- _; by exists c. }
  destruct Hc as [c ->]. exists c. split; [done|].
  unfold network.Send. simpl.
  destruct (network.Conn_SetWriteDeadline net c _); [done|].
  by destruct (network.Conn_Write net c data).
Qed.

(** X11: after a successful [Open], [Receive] reads from the connection
    that [Open] stored: it first sets the read deadline to now plus the
    read timeout, reads only if that succeeded, and hands back the buffer
    and the result of the read; if the deadline is refused, nothing is
    read, the buffer is untouched and the error is wrapped. *)
Theorem Receive_after_Open net now s s' calls buff :
  network.Open net s = (None, s', calls) ->
  exists c,
    network.conn s' = Some c /\
    let deadline := now + network.SocketConfig_ReadTimeout (network.config s) in
    network.Receive net now s' buff =
      match network.Conn_SetReadDeadline net c deadline with
      | Some err =>
          (buff, 0, Some (network.errors_WithMessage err "Set read timeout failed"), s',
           [network.CallSetReadDeadline c deadline])
      | None =>
          ((network.Conn_Read net c buff).1.1, (network.Conn_Read net c buff).1.2,
           (network.Conn_Read net c buff).2, s',
           [network.CallSetReadDeadline c deadline; network.CallRead c])
      end.
Proof.
  intros Hopen.
  assert (Hc : exists c, s' = network.withConn s c).
  { destruct (Open_cases net s) as [(c & Ho & _)|[(c & raddr & Ho & _)|(e' & cl & Ho & _)]];
      rewrite Ho in Hopen; [| |done]; injection Hopen as <- _; by exists c. }
  destruct Hc as [c ->]. exists c. split; [done|].
  unfold network.Receive. simpl.
  destruct (network.Conn_SetReadDeadline net c _); [done|].
  by destruct (network.Conn_Read net c buff) as [[b n] e].
Qed.

(** X12: [Close] closes the connection and keeps holding it: the client
    is unchanged, so a second [Close] closes the same connection again,
    and a later [Send] does not answer "not ready" but goes to the closed
    connection. *)
Theorem Close_keeps_the_connection net now s c data :
  network.conn s = Some c ->
  network.Close net s = (network.Conn_Close net c, s, [network.CallClose c]) /\
  (forall s1, s1 = (network.Close net s).1.2 ->
     network.Close net s1 = (network.Conn_Close net c, s, [network.CallClose c]) /\
     exists rest,
       (network.Send net now s1 data).2 =
         network.CallSetWriteDeadline c
           (now + network.SocketConfig_WriteTimeout (network.config s)) :: rest).
Proof.
  intros Hconn.
  assert (Hclose : network.Close net s =
                   (network.Conn_Close net c, s, [network.CallClose c])).
  { unfold network.Close. by rewrite Hconn. }
  split; [done|]. intros s1 ->. rewrite Hclose. simpl. split; [done|].
  unfold network.Send. rewrite Hconn.
  destruct (network.Conn_SetWriteDeadline net c _); [by eexists|].
  destruct (network.Conn_Write net c data). by eexists.
Qed.

(** * The engine before sessions *)

Lemma GeckoEngine_runInterceptors_spec p : forall els w s,
  sessions w !! p = Some s ->
  exists r w' tr s',
    GeckoEngine.runInterceptors p els w = (r, w', tr) /\
    GeckoEngine.ChainShape p
      (filter (fun it => anyTopicMatches (Interceptor_GetTopicExpr it) (topic s) = true) els)
      tr r /\
    evolves p 0 tr w s w' s' /\
    (r = Ok LoopReturn ->
     Outbound_Data (outbound s') !! "error" = Some (VString "InterceptorDropped")).
Proof.
  induction els as [|it rest IH]; intros w s Hp.
  - exists (Ok LoopEnd), w, [], s. split_and!; [done|constructor|by apply evolves_refl|done].
  - simpl GeckoEngine.runInterceptors. unfold bind at 1.
    rewrite (Session_Topic_run _ _ _ Hp).
    destruct (anyTopicMatches (Interceptor_GetTopicExpr it) (topic s)) eqn:Hm.
    2:{ rewrite filter_cons_False by congruence.
        destruct (IH w s Hp) as (r & w' & tr & s' & Hrun & Hshape & Hev & Hdrop).
        rewrite Hrun. by exists r, w', tr, s'. }
    rewrite filter_cons_True by done.
    unfold bind at 1. rewrite (callInterceptor_run _ _ _ _ Hp).
    set (h := Interceptor_Handle it s).
    set (w1 := setSessions w (<[p := afterHandle s h]> (sessions w))).
    assert (Hp1 : sessions w1 !! p = Some (afterHandle s h)) by apply lookup_insert_eq.
    assert (Hev1 : evolves p 0 [EvInterceptorHandle p it (handled_outcome h)]
                     w s w1 (afterHandle s h)).
    { apply (evolves_store p w s); [done|apply sameIdentity_afterHandle]. }
    destruct (handled_outcome h) as [[[|msg]|]|v] eqn:Ho.
    + cbn [isDropped].
      rewrite (bind_Ok _ _ _ _ _ _ (Msgf_run LevelError _ _ ltac:(done))).
      rewrite (bind_Ok _ _ _ _ _ _ (Session_AddDataField_run _ _ _ _ _ Hp1)).
      rewrite (bind_Ok _ _ _ _ _ _ (send_run _ _ _)).
      unfold result, final, trace. simpl.
      eexists _, _, _, _. split; [reflexivity|].
      split; [apply GeckoEngine.ChainDrop|]. split.
      * unfold evolves in *. destruct Hev1 as (Hs & Hd & Hc & Hr & Hi).
        split_and!; simpl.
        -- by rewrite insert_insert_eq.
        -- done.
        -- done.
        -- done.
        -- eapply sameIdentity_trans; [exact Hi|apply sameIdentity_setOutbound].
      * intros _. simpl. apply lookup_insert_eq.
    + cbn [isDropped].
      rewrite (bind_Ok _ _ _ _ _ _ (Msgf_run LevelError _ _ ltac:(done))).
      destruct (IH w1 _ Hp1) as (r & w' & tr & s' & Hrun & Hshape & Hev & Hdrop).
      rewrite Hrun. unfold result, final, trace. simpl.
      eexists _, _, _, _. split; [reflexivity|].
      split; [by apply GeckoEngine.ChainError|]. split; [|exact Hdrop].
      apply (evolves_trans p 0 0 [_; _] tr w s w1 (afterHandle s h)); [|exact Hev].
      destruct Hev1 as (Hs & Hd & Hc & Hr & Hi).
      unfold evolves. split_and!; simpl; done.
    + destruct (IH w1 _ Hp1) as (r & w' & tr & s' & Hrun & Hshape & Hev & Hdrop).
      rewrite Hrun.
      eexists _, _, _, _. split; [reflexivity|].
      split; [by apply GeckoEngine.ChainNil|]. split; [|exact Hdrop].
      by apply (evolves_trans p 0 0 [_] tr w s w1 (afterHandle s h)).
    + eexists _, _, _, _. split; [reflexivity|].
      split; [apply GeckoEngine.ChainPanic|]. split; [exact Hev1|done].
Qed.

Lemma GeckoEngine_stageDeferred_run p key w s :
  sessions w !! p = Some s ->
  GeckoEngine.stageDeferred p key w =
    (Ok tt,
     setSessions (tick w)
       (<[p := setAttributes s (<[key := VTime (clock w (clockReads w))]> (attributes s))]>
          (sessions w)),
     [EvAddAttribute p key (VTime (clock w (clockReads w)))]).
Proof.
  intros Hp. unfold GeckoEngine.stageDeferred.
  rewrite (bind_Ok time_Now _ w _ (tick w) [] eq_refl).
  rewrite (Session_AddAttribute_run (tick w) p s _ _ Hp). reflexivity.
Qed.

(** The frame both handlers share: the start attribute, the body, and on
    every exit of the body the end attribute; how the body ended is how
    the handler ends. *)
Lemma GeckoEngine_frame p w s startKey endKey (body : M unit) rb wb tb sb :
  sessions w !! p = Some s ->
  body (setSessions (tick w)
          (<[p := setAttributes s
                    (<[startKey := VTime (clock w (clockReads w))]> (attributes s))]>
             (sessions w))) = (rb, wb, tb) ->
  sessions wb !! p = Some sb ->
  (do now <- time_Now;
   do _ <- Session_AddAttribute p startKey (VTime now);
   deferPlain (GeckoEngine.stageDeferred p endKey) body) w =
    (rb,
     setSessions (tick wb)
       (<[p := setAttributes sb (<[endKey := VTime (clock wb (clockReads wb))]> (attributes sb))]>
          (sessions wb)),
     EvAddAttribute p startKey (VTime (clock w (clockReads w)))
       :: tb ++ [EvAddAttribute p endKey (VTime (clock wb (clockReads wb)))]).
Proof.
  intros Hp Hbody Hpb.
  rewrite (bind_Ok time_Now _ w _ (tick w) [] eq_refl).
  rewrite (bind_Ok _ _ _ _ _ _ (Session_AddAttribute_run (tick w) p s _ _ Hp)).
  unfold deferPlain. cbn [sessions tick]. rewrite Hbody.
  rewrite (GeckoEngine_stageDeferred_run p endKey wb sb Hpb).
  unfold result, final, trace. simpl. by destruct rb as [[]|v].
Qed.

Lemma GeckoEngine_handleInterceptor_spec en p w s :
  sessions w !! p = Some s ->
  exists r logs tr sb,
    forallb isLog logs = true /\
    GeckoEngine.ChainShape p (interceptorsFor en (topic s)) tr r /\
    trace (GeckoEngine.handleInterceptor en p w) =
      EvAddAttribute p "Interceptor.Start" (VTime (clock w (clockReads w)))
        :: logs ++ tr ++ chainTail p r
        ++ [EvAddAttribute p "Interceptor.End" (VTime (clock w (S (clockReads w))))] /\
    result (GeckoEngine.handleInterceptor en p w) = chainResult r /\
    sessions (final (GeckoEngine.handleInterceptor en p w)) =
      <[p := setAttributes sb
               (<["Interceptor.End" := VTime (clock w (S (clockReads w)))]> (attributes sb))]>
        (sessions w) /\
    dispatcher (final (GeckoEngine.handleInterceptor en p w)) =
      enqueueAll (sendsOf (tr ++ chainTail p r)) (dispatcher w) /\
    (r = Ok LoopReturn ->
     Outbound_Data (outbound sb) !! "error" = Some (VString "InterceptorDropped")).
Proof.
  intros Hp.
  set (s0 := setAttributes s
               (<["Interceptor.Start" := VTime (clock w (clockReads w))]> (attributes s))).
  set (w0 := setSessions (tick w) (<[p := s0]> (sessions w))).
  assert (Hp0 : sessions w0 !! p = Some s0) by apply lookup_insert_eq.
  set (logs := if IsVerboseEnabled en
               then [EvLog LevelDebug ("Interceptor dispatch, Topic: " +:+ topic s)]
               else []).
  assert (Hlog : OnIfLogV en
                   (do tp <- Session_Topic p;
                    Msgf LevelDebug ("Interceptor dispatch, Topic: " +:+ tp)) w0
                 = (Ok tt, w0, logs)).
  { unfold OnIfLogV, logs. destruct (IsVerboseEnabled en); [|done].
    rewrite (bind_Ok _ _ _ _ _ _ (Session_Topic_run _ _ _ Hp0)). reflexivity. }
  destruct (GeckoEngine_runInterceptors_spec p (interceptors en) w0 s0 Hp0)
    as (r & w1 & tr & s1 & Hrun & Hshape & Hev & Hdrop).
  assert (Hbody : exists wb,
             GeckoEngine.handleInterceptor_body en p w0
               = (chainResult r, wb, logs ++ tr ++ chainTail p r) /\
             evolves p 0 (tr ++ chainTail p r) w0 s0 wb s1).
  { unfold GeckoEngine.handleInterceptor_body.
    rewrite (bind_Ok _ _ _ _ _ _ Hlog).
    destruct r as [[|]|v].
    - rewrite (bind_Ok _ _ _ _ _ _ Hrun). unfold result, final, trace. simpl.
      eexists. split; [reflexivity|].
      apply (evolves_trans p 0 0 tr [_] w0 s0 w1 s1); [done|].
      apply evolves_send. by eapply evolves_lookup.
    - rewrite (bind_Ok _ _ _ _ _ _ Hrun). unfold result, final, trace. simpl.
      eexists. split; [by rewrite app_nil_r|]. by rewrite app_nil_r.
    - rewrite (bind_Panicked _ _ _ _ _ _ Hrun). unfold result, final, trace. simpl.
      eexists. split; [by rewrite app_nil_r|]. by rewrite app_nil_r. }
  destruct Hbody as (wb & Hbody & Hevb).
  pose proof (evolves_lookup _ _ _ _ _ _ _ Hevb) as Hpb.
  destruct Hevb as (Hs & Hd & Hc & Hr & Hi).
  unfold GeckoEngine.handleInterceptor.
  rewrite (GeckoEngine_frame p w s _ _ _ _ _ _ _ Hp Hbody Hpb).
  unfold result, final, trace. simpl.
  exists r, logs, tr, s1.
  split; [unfold logs; by destruct (IsVerboseEnabled en)|].
  split; [exact Hshape|].
  rewrite Hc, Hr. simpl. rewrite Nat.add_0_r.
  split; [by rewrite <- !app_assoc|]. split; [done|].
  split; [rewrite Hs; simpl; by rewrite !insert_insert_eq|].
  split; [by rewrite Hd|exact Hdrop].
Qed.

Lemma GeckoEngine_chain_sends p ms tr r :
  GeckoEngine.ChainShape p ms tr r ->
  sendsOf tr = match r with Ok LoopReturn => [(StageLv2, p)] | _ => [] end.
Proof. induction 1; simpl; done. Qed.

Lemma GeckoEngine_chain_calls_prefix p ms tr r :
  GeckoEngine.ChainShape p ms tr r -> (interceptorCalls p tr).*1 `prefix_of` ms.
Proof.
  induction 1; rewrite ?interceptorCalls_handle; simpl.
  - done.
  - by apply prefix_cons.
  - by apply prefix_cons.
  - apply prefix_cons, prefix_nil.
  - apply prefix_cons, prefix_nil.
Qed.

Lemma GeckoEngine_chain_end p ms tr r :
  GeckoEngine.ChainShape p ms tr r ->
  Forall (fun c => exists e, c.2 = Returns e /\ e <> Some ErrInterceptorDropped)
    (interceptorCalls p tr) ->
  r = Ok LoopEnd /\ (interceptorCalls p tr).*1 = ms.
Proof.
  induction 1; rewrite ?interceptorCalls_handle, ?interceptorCalls_log; intros Hall.
  - done.
  - apply Forall_cons in Hall as [_ Hall].
    destruct (IHChainShape Hall) as [-> Heq]. split; [done|]. by rewrite fmap_cons, Heq.
  - apply Forall_cons in Hall as [_ Hall].
    destruct (IHChainShape Hall) as [-> Heq]. split; [done|]. by rewrite fmap_cons, Heq.
  - apply Forall_cons in Hall as [(e & [= <-] & Hne) _]. done.
  - apply Forall_cons in Hall as [(e & He & _) _]. done.
Qed.

Lemma GeckoEngine_chain_drop p ms tr r it :
  GeckoEngine.ChainShape p ms tr r ->
  (it, Returns (Some ErrInterceptorDropped)) ∈ interceptorCalls p tr ->
  r = Ok LoopReturn /\
  (exists before,
     interceptorCalls p tr = before ++ [(it, Returns (Some ErrInterceptorDropped))]) /\
  EvLog LevelError "interceptor dropped the event" ∈ tr.
Proof.
  induction 1; rewrite ?interceptorCalls_handle; simpl; intros Hin.
  - by apply elem_of_nil in Hin.
  - apply elem_of_cons in Hin as [Heq|Hin]; [done|].
    destruct (IHChainShape Hin) as (-> & (before & ->) & Hlog).
    split; [done|]. split; [by eexists (_ :: before)|]. by apply elem_of_cons; right.
  - apply elem_of_cons in Hin as [Heq|Hin]; [done|].
    destruct (IHChainShape Hin) as (-> & (before & ->) & Hlog).
    split; [done|]. split; [by eexists (_ :: before)|].
    apply elem_of_cons; right. by apply elem_of_cons; right.
  - apply elem_of_cons in Hin as [Heq|Hin]; [|by apply elem_of_nil in Hin].
    injection Heq as ->. split; [done|]. split; [by exists []|].
    apply elem_of_cons; right. apply list_elem_of_here.
  - apply elem_of_cons in Hin as [Heq|Hin]; [done|]. by apply elem_of_nil in Hin.
Qed.

Lemma GeckoEngine_chain_panic p ms tr r it v :
  GeckoEngine.ChainShape p ms tr r ->
  (it, Panics v) ∈ interceptorCalls p tr ->
  r = Panicked v /\ exists before, interceptorCalls p tr = before ++ [(it, Panics v)].
Proof.
  induction 1; rewrite ?interceptorCalls_handle; simpl; intros Hin.
  - by apply elem_of_nil in Hin.
  - apply elem_of_cons in Hin as [Heq|Hin]; [done|].
    destruct (IHChainShape Hin) as (-> & before & ->).
    split; [done|]. by eexists (_ :: before).
  - apply elem_of_cons in Hin as [Heq|Hin]; [done|].
    destruct (IHChainShape Hin) as (-> & before & ->).
    split; [done|]. by eexists (_ :: before).
  - apply elem_of_cons in Hin as [Heq|Hin]; [done|]. by apply elem_of_nil in Hin.
  - apply elem_of_cons in Hin as [Heq|Hin]; [|by apply elem_of_nil in Hin].
    injection Heq as -> ->. split; [done|]. by exists [].
Qed.

(** How the projections read the trace of a handler of the earlier
    engine. *)
Lemma GeckoEngine_framed {B} (g : Event -> option B) a1 logs tr tail a2 :
  (forall lvl msg, g (EvLog lvl msg) = None) ->
  g a1 = None -> g a2 = None ->
  forallb isLog logs = true ->
  omap g (a1 :: logs ++ tr ++ tail ++ [a2]) = omap g (tr ++ tail).
Proof.
  intros Hg H1 H2 Hlogs.
  change (a1 :: logs ++ tr ++ tail ++ [a2]) with ([] ++ a1 :: logs ++ tr ++ tail ++ [a2]).
  rewrite (app_assoc tr tail [a2]), (app_assoc logs (tr ++ tail) [a2]).
  rewrite <- (app_nil_l (a1 :: _)).
  rewrite omap_app. simpl. rewrite H1.
  rewrite !omap_app, (omap_silent g logs Hg Hlogs). simpl. rewrite H2.
  by rewrite app_nil_r.
Qed.

Lemma GeckoEngine_interceptor_trace en p w s :
  sessions w !! p = Some s ->
  let run := GeckoEngine.handleInterceptor en p w in
  exists r tr sb,
    GeckoEngine.ChainShape p (interceptorsFor en (topic s)) tr r /\
    interceptorCalls p (trace run) = interceptorCalls p tr /\
    sendsOf (trace run) = sendsOf tr ++ sendsOf (chainTail p r) /\
    (forall e, e ∈ tr -> e ∈ trace run) /\
    (exists before,
       trace run = before ++ [EvAddAttribute p "Interceptor.End"
                                (VTime (clock w (S (clockReads w))))]) /\
    result run = chainResult r /\
    sessions (final run) =
      <[p := setAttributes sb
               (<["Interceptor.End" := VTime (clock w (S (clockReads w)))]> (attributes sb))]>
        (sessions w) /\
    dispatcher (final run) =
      enqueueAll (sendsOf tr ++ sendsOf (chainTail p r)) (dispatcher w) /\
    (r = Ok LoopReturn ->
     Outbound_Data (outbound sb) !! "error" = Some (VString "InterceptorDropped")).
Proof.
  intros Hp run.
  destruct (GeckoEngine_handleInterceptor_spec en p w s Hp)
    as (r & logs & tr & sb & Hlogs & Hshape & Htr & Hres & Hs & Hd & Hdrop).
  fold run in Htr, Hres, Hs, Hd.
  exists r, tr, sb. split; [exact Hshape|].
  assert (Htail : interceptorCalls p (chainTail p r) = []) by (by destruct r as [[|]|]).
  split.
  { rewrite Htr. unfold interceptorCalls at 1.
    rewrite GeckoEngine_framed by done.
    fold (interceptorCalls p (tr ++ chainTail p r)).
    by rewrite interceptorCalls_app, Htail, app_nil_r. }
  split.
  { rewrite Htr. unfold sendsOf at 1.
    rewrite GeckoEngine_framed by done.
    fold (sendsOf (tr ++ chainTail p r)). by rewrite sendsOf_app. }
  split.
  { intros e He. rewrite Htr. apply elem_of_cons; right.
    apply elem_of_app; right. by apply elem_of_app; left. }
  split.
  { rewrite Htr. eexists (_ :: logs ++ tr ++ chainTail p r).
    simpl. by rewrite <- !app_assoc. }
  split; [done|]. split; [done|]. split; [by rewrite Hd, sendsOf_app|done].
Qed.

(** X13: the interceptor stage of the earlier engine calls the matching
    interceptors in registration order, without sorting by priority, one
    call each at most.  As long as no call returns the drop sentinel or
    panics, an error never ends the chain: every matching interceptor is
    called, the context goes to the driver channel and the handler
    returns. *)
Theorem GeckoEngine_interceptors_in_registration_order en p w s :
  sessions w !! p = Some s ->
  let run := GeckoEngine.handleInterceptor en p w in
  let calls := interceptorCalls p (trace run) in
  calls.*1 `prefix_of` interceptorsFor en (topic s) /\
  (Forall (fun c => exists e, c.2 = Returns e /\ e <> Some ErrInterceptorDropped) calls ->
   calls.*1 = interceptorsFor en (topic s) /\
   sendsOf (trace run) = [(StageLv1, p)] /\
   dispatcher (final run) = enqueue StageLv1 p (dispatcher w) /\
   result run = Ok tt).
Proof.
  intros Hp run calls.
  destruct (GeckoEngine_interceptor_trace en p w s Hp)
    as (r & tr & sb & Hshape & Hcalls & Hsends & _ & _ & Hres & _ & Hd & _).
  fold run in Hcalls, Hsends, Hres, Hd. unfold calls. rewrite Hcalls.
  split; [by eapply GeckoEngine_chain_calls_prefix|].
  intros Hall.
  destruct (GeckoEngine_chain_end _ _ _ _ Hshape Hall) as [-> Heq].
  split; [done|].
  rewrite Hsends, Hd, Hres, (GeckoEngine_chain_sends _ _ _ _ Hshape). by simpl.
Qed.

(** X14: when an interceptor returns the drop sentinel in the earlier
    engine, that call is the last one, the drop is logged at error level,
    the outbound data of the context gets error = InterceptorDropped, and
    the context is put on the output channel and on no other; the handler
    returns normally. *)
Theorem GeckoEngine_drop_goes_to_output en p w s it :
  sessions w !! p = Some s ->
  let run := GeckoEngine.handleInterceptor en p w in
  (it, Returns (Some ErrInterceptorDropped)) ∈ interceptorCalls p (trace run) ->
  (exists before,
     interceptorCalls p (trace run) = before ++ [(it, Returns (Some ErrInterceptorDropped))]) /\
  EvLog LevelError "interceptor dropped the event" ∈ trace run /\
  sendsOf (trace run) = [(StageLv2, p)] /\
  dispatcher (final run) = enqueue StageLv2 p (dispatcher w) /\
  result run = Ok tt /\
  exists s', sessions (final run) !! p = Some s' /\
    Outbound_Data (outbound s') !! "error" = Some (VString "InterceptorDropped").
Proof.
  intros Hp run Hin.
  destruct (GeckoEngine_interceptor_trace en p w s Hp)
    as (r & tr & sb & Hshape & Hcalls & Hsends & Hsub & _ & Hres & Hs & Hd & Hdrop).
  fold run in Hcalls, Hsends, Hsub, Hres, Hs, Hd. rewrite Hcalls in Hin |- *.
  destruct (GeckoEngine_chain_drop _ _ _ _ _ Hshape Hin) as (-> & Hlast & Hlog).
  split; [exact Hlast|]. split; [by apply Hsub|].
  rewrite Hsends, Hd, Hres, (GeckoEngine_chain_sends _ _ _ _ Hshape).
  split; [done|]. split; [done|]. split; [done|].
  eexists. split; [rewrite Hs; apply lookup_insert_eq|]. simpl. by apply Hdrop.
Qed.

(** X15: the earlier engine does not recover: when a [Handle] of an
    interceptor panics, the panic leaves the handler with the same value
    and the context is put on no channel.  On every exit, panic or not,
    the handler still records the attribute Interceptor.End, a point in
    time (the second reading of the clock), as its last step. *)
Theorem GeckoEngine_panic_is_not_recovered en p w s :
  sessions w !! p = Some s ->
  let run := GeckoEngine.handleInterceptor en p w in
  (forall it v, (it, Panics v) ∈ interceptorCalls p (trace run) ->
     result run = Panicked v /\
     sendsOf (trace run) = [] /\
     dispatcher (final run) = dispatcher w) /\
  (exists before,
     trace run = before ++ [EvAddAttribute p "Interceptor.End"
                              (VTime (clock w (S (clockReads w))))]) /\
  exists s', sessions (final run) !! p = Some s' /\
    attributes s' !! "Interceptor.End" = Some (VTime (clock w (S (clockReads w)))).
Proof.
  intros Hp run.
  destruct (GeckoEngine_interceptor_trace en p w s Hp)
    as (r & tr & sb & Hshape & Hcalls & Hsends & _ & Hend & Hres & Hs & Hd & _).
  fold run in Hcalls, Hsends, Hend, Hres, Hs, Hd.
  split.
  { intros it v Hin. rewrite Hcalls in Hin.
    destruct (GeckoEngine_chain_panic _ _ _ _ _ _ Hshape Hin) as (-> & _).
    rewrite Hsends, Hd, Hres, (GeckoEngine_chain_sends _ _ _ _ Hshape). by simpl. }
  split; [exact Hend|].
  eexists. split; [rewrite Hs; apply lookup_insert_eq|]. simpl. apply lookup_insert_eq.
Qed.

Lemma GeckoEngine_runDrivers_spec en p : forall els w s,
  sessions w !! p = Some s ->
  exists r w' tr s',
    GeckoEngine.runDrivers en p els w = (r, w', tr) /\
    GeckoEngine.FanOutShape p
      (filter (fun d => anyTopicMatches (Driver_GetTopicExpr d) (topic s) = true) els) tr r /\
    evolves p 0 tr w s w' s'.
Proof.
  induction els as [|d rest IH]; intros w s Hp.
  - exists (Ok tt), w, [], s. split_and!; [done|constructor|by apply evolves_refl].
  - simpl GeckoEngine.runDrivers. unfold bind at 1.
    rewrite (Session_Topic_run _ _ _ Hp).
    destruct (anyTopicMatches (Driver_GetTopicExpr d) (topic s)) eqn:Hm.
    2:{ rewrite filter_cons_False by congruence.
        rewrite (bind_Ok (ret tt) _ w tt w [] eq_refl).
        destruct (IH w s Hp) as (r & w' & tr & s' & Hrun & Hshape & Hev).
        rewrite Hrun. by exists r, w', tr, s'. }
    rewrite filter_cons_True by done.
    set (h := Driver_Handle d s (selector en)).
    set (w1 := setSessions w (<[p := afterHandle s h]> (sessions w))).
    assert (Hp1 : sessions w1 !! p = Some (afterHandle s h)) by apply lookup_insert_eq.
    assert (Hev1 : evolves p 0 [EvDriverHandle p d (handled_outcome h)]
                     w s w1 (afterHandle s h)).
    { apply (evolves_store p w s); [done|apply sameIdentity_afterHandle]. }
    pose proof (callDriver_run en w p s d Hp) as Hcall. fold h w1 in Hcall.
    destruct (IH w1 _ Hp1) as (r & w' & tr & s' & Hrun & Hshape & Hev).
    destruct (handled_outcome h) as [[e|]|v] eqn:Ho.
    + assert (Hblock : (do err <- callDriver en d p;
                        match err with
                        | Some _ => Msgf LevelError "driver error"
                        | None => ret tt
                        end) w
                       = (Ok tt, w1, [EvDriverHandle p d (Returns (Some e));
                                      EvLog LevelError "driver error"])).
      { rewrite (bind_Ok _ _ _ _ _ _ Hcall). reflexivity. }
      rewrite (bind_Ok _ _ _ _ _ _ Hblock). rewrite Hrun.
      unfold result, final, trace. simpl.
      eexists _, _, _, _. split; [reflexivity|].
      split; [by apply GeckoEngine.FanError|].
      apply (evolves_trans p 0 0 [_; _] tr w s w1 (afterHandle s h)); [|exact Hev].
      destruct Hev1 as (Hs & Hd & Hc & Hr & Hi).
      unfold evolves. split_and!; simpl; done.
    + assert (Hblock : (do err <- callDriver en d p;
                        match err with
                        | Some _ => Msgf LevelError "driver error"
                        | None => ret tt
                        end) w
                       = (Ok tt, w1, [EvDriverHandle p d (Returns None)])).
      { rewrite (bind_Ok _ _ _ _ _ _ Hcall). reflexivity. }
      rewrite (bind_Ok _ _ _ _ _ _ Hblock). rewrite Hrun.
      unfold result, final, trace. simpl.
      eexists _, _, _, _. split; [reflexivity|].
      split; [by apply GeckoEngine.FanNil|].
      by apply (evolves_trans p 0 0 [_] tr w s w1 (afterHandle s h)).
    + assert (Hblock : (do err <- callDriver en d p;
                        match err with
                        | Some _ => Msgf LevelError "driver error"
                        | None => ret tt
                        end) w
                       = (Panicked v, w1, [EvDriverHandle p d (Panics v)])).
      { by rewrite (bind_Panicked _ _ _ _ _ _ Hcall). }
      rewrite (bind_Panicked _ _ _ _ _ _ Hblock).
      eexists _, _, _, _. split; [reflexivity|].
      split; [apply GeckoEngine.FanPanic|exact Hev1].
Qed.

Lemma GeckoEngine_fan_calls p ms tr r :
  GeckoEngine.FanOutShape p ms tr r ->
  (driverCalls p tr).*1 `prefix_of` ms /\
  sendsOf tr = [] /\
  (Forall (fun c => isPanics c.2 = false) (driverCalls p tr) ->
   r = Ok tt /\ (driverCalls p tr).*1 = ms) /\
  (forall d v, (d, Panics v) ∈ driverCalls p tr -> r = Panicked v).
Proof.
  induction 1 as [|d rest tr r Hshape (IH1 & IH2 & IH3 & IH4)
                  |d rest e tr r Hshape (IH1 & IH2 & IH3 & IH4)|d rest v];
    rewrite ?driverCalls_handle, ?driverCalls_log.
  - split_and!; [done|done|done|]. intros d v Hin. by apply elem_of_nil in Hin.
  - split; [by apply prefix_cons|]. split; [done|]. split.
    + intros Hall. apply Forall_cons in Hall as [_ Hall].
      destruct (IH3 Hall) as [-> Heq]. split; [done|]. by rewrite fmap_cons, Heq.
    + intros d' v Hin. apply elem_of_cons in Hin as [Heq|Hin]; [done|]. by eapply IH4.
  - split; [by apply prefix_cons|]. split; [done|]. split.
    + intros Hall. apply Forall_cons in Hall as [_ Hall].
      destruct (IH3 Hall) as [-> Heq]. split; [done|]. by rewrite fmap_cons, Heq.
    + intros d' v Hin. apply elem_of_cons in Hin as [Heq|Hin]; [done|]. by eapply IH4.
  - split; [apply prefix_cons, prefix_nil|]. split; [done|]. split.
    + intros Hall. by apply Forall_cons in Hall as [Hv _].
    + intros d' v' Hin. apply elem_of_cons in Hin as [Heq|Hin];
        [|by apply elem_of_nil in Hin]. by injection Heq as -> ->.
Qed.

Lemma GeckoEngine_fan_logs p ms tr r :
  GeckoEngine.FanOutShape p ms tr r ->
  logsOf tr =
    (fun _ => (LevelError, "driver error"))
      <$> filter (fun c => isError c.2 = true) (driverCalls p tr).
Proof.
  induction 1; rewrite ?driverCalls_handle, ?driverCalls_log.
  - done.
  - rewrite filter_cons_False by done. exact IHFanOutShape.
  - rewrite filter_cons_True by done. rewrite fmap_cons.
    change (logsOf (EvDriverHandle p d (Returns (Some e))
                    :: EvLog LevelError "driver error" :: tr))
      with ((LevelError, "driver error") :: logsOf tr).
    by rewrite IHFanOutShape.
  - by rewrite filter_cons_False by done.
Qed.

Lemma GeckoEngine_handleDrivers_spec en p w s :
  sessions w !! p = Some s ->
  exists r logs tr sb,
    logs = (if IsVerboseEnabled en
            then [EvLog LevelDebug ("Driver dispatch, Topic: " +:+ topic s)] else []) /\
    GeckoEngine.FanOutShape p (driversFor en (topic s)) tr r /\
    trace (GeckoEngine.handleDrivers en p w) =
      EvAddAttribute p "Driver.Start" (VTime (clock w (clockReads w)))
        :: logs ++ tr ++ fanTail p r
        ++ [EvAddAttribute p "Driver.End" (VTime (clock w (S (clockReads w))))] /\
    result (GeckoEngine.handleDrivers en p w) = r /\
    sessions (final (GeckoEngine.handleDrivers en p w)) =
      <[p := setAttributes sb
               (<["Driver.End" := VTime (clock w (S (clockReads w)))]> (attributes sb))]>
        (sessions w) /\
    dispatcher (final (GeckoEngine.handleDrivers en p w)) =
      enqueueAll (sendsOf (fanTail p r)) (dispatcher w).
Proof.
  intros Hp.
  set (s0 := setAttributes s
               (<["Driver.Start" := VTime (clock w (clockReads w))]> (attributes s))).
  set (w0 := setSessions (tick w) (<[p := s0]> (sessions w))).
  assert (Hp0 : sessions w0 !! p = Some s0) by apply lookup_insert_eq.
  set (logs := if IsVerboseEnabled en
               then [EvLog LevelDebug ("Driver dispatch, Topic: " +:+ topic s)]
               else []).
  assert (Hlog : OnIfLogV en
                   (do tp <- Session_Topic p;
                    Msgf LevelDebug ("Driver dispatch, Topic: " +:+ tp)) w0
                 = (Ok tt, w0, logs)).
  { unfold OnIfLogV, logs. destruct (IsVerboseEnabled en); [|done].
    rewrite (bind_Ok _ _ _ _ _ _ (Session_Topic_run _ _ _ Hp0)). reflexivity. }
  destruct (GeckoEngine_runDrivers_spec en p (drivers en) w0 s0 Hp0)
    as (r & w1 & tr & s1 & Hrun & Hshape & Hev).
  pose proof (GeckoEngine_fan_calls _ _ _ _ Hshape) as (_ & Hnosend & _ & _).
  assert (Hbody : exists wb,
             GeckoEngine.handleDrivers_body en p w0 = (r, wb, logs ++ tr ++ fanTail p r) /\
             evolves p 0 (tr ++ fanTail p r) w0 s0 wb s1).
  { unfold GeckoEngine.handleDrivers_body.
    rewrite (bind_Ok _ _ _ _ _ _ Hlog).
    destruct r as [[]|v].
    - rewrite (bind_Ok _ _ _ _ _ _ Hrun). unfold result, final, trace. simpl.
      eexists. split; [reflexivity|].
      apply (evolves_trans p 0 0 tr [_] w0 s0 w1 s1); [done|].
      apply evolves_send. by eapply evolves_lookup.
    - rewrite (bind_Panicked _ _ _ _ _ _ Hrun). unfold result, final, trace. simpl.
      eexists. split; [by rewrite app_nil_r|]. by rewrite app_nil_r. }
  destruct Hbody as (wb & Hbody & Hevb).
  pose proof (evolves_lookup _ _ _ _ _ _ _ Hevb) as Hpb.
  destruct Hevb as (Hs & Hd & Hc & Hr & Hi).
  unfold GeckoEngine.handleDrivers.
  rewrite (GeckoEngine_frame p w s _ _ _ _ _ _ _ Hp Hbody Hpb).
  unfold result, final, trace. simpl.
  exists r, logs, tr, s1.
  split; [done|]. split; [exact Hshape|].
  rewrite Hc, Hr. simpl. rewrite Nat.add_0_r.
  split; [by rewrite <- !app_assoc|]. split; [done|].
  split; [rewrite Hs; simpl; by rewrite !insert_insert_eq|].
  by rewrite Hd, sendsOf_app, Hnosend.
Qed.

(** X16: the driver stage of the earlier engine calls the matching
    drivers in registration order.  A driver that returns an error does
    not stop the others: each such error is logged once at error level
    (and nothing else is logged at that level), every matching driver is
    called, and the context goes to the output channel.  Only a panic of a
    [Handle] ends the fan-out: it leaves the handler unrecovered and the
    context is put on no channel. *)
Theorem GeckoEngine_drivers_fan_out en p w s :
  sessions w !! p = Some s ->
  let run := GeckoEngine.handleDrivers en p w in
  let calls := driverCalls p (trace run) in
  calls.*1 `prefix_of` driversFor en (topic s) /\
  filter (fun l => l.1 = LevelError) (logsOf (trace run)) =
    ((fun _ => (LevelError, "driver error")) <$> filter (fun c => isError c.2 = true) calls) /\
  (Forall (fun c => isPanics c.2 = false) calls ->
   calls.*1 = driversFor en (topic s) /\
   sendsOf (trace run) = [(StageLv2, p)] /\
   dispatcher (final run) = enqueue StageLv2 p (dispatcher w) /\
   result run = Ok tt) /\
  (forall d v, (d, Panics v) ∈ calls ->
     result run = Panicked v /\
     sendsOf (trace run) = [] /\
     dispatcher (final run) = dispatcher w).
Proof.
  intros Hp run calls.
  destruct (GeckoEngine_handleDrivers_spec en p w s Hp)
    as (r & logs & tr & sb & Hlogs & Hshape & Htr & Hres & Hs & Hd).
  fold run in Htr, Hres, Hs, Hd.
  destruct (GeckoEngine_fan_calls _ _ _ _ Hshape) as (Hpre & Hnosend & Hall & Hpanic).
  assert (Hisl : forallb isLog logs = true).
  { rewrite Hlogs. by destruct (IsVerboseEnabled en). }
  assert (Hcalls : calls = driverCalls p tr).
  { unfold calls. rewrite Htr. unfold driverCalls at 1.
    rewrite GeckoEngine_framed by done.
    fold (driverCalls p (tr ++ fanTail p r)).
    rewrite driverCalls_app.
    assert (Htail : driverCalls p (fanTail p r) = []) by (by destruct r).
    by rewrite Htail, app_nil_r. }
  assert (Hsends : sendsOf (trace run) = sendsOf (fanTail p r)).
  { rewrite Htr. unfold sendsOf at 1.
    rewrite GeckoEngine_framed by done.
    fold (sendsOf (tr ++ fanTail p r)). by rewrite sendsOf_app, Hnosend. }
  rewrite Hcalls.
  split; [exact Hpre|]. split.
  { rewrite Htr.
    change (logsOf (EvAddAttribute p "Driver.Start" (VTime (clock w (clockReads w)))
                    :: logs ++ tr ++ fanTail p r
                    ++ [EvAddAttribute p "Driver.End" (VTime (clock w (S (clockReads w))))]))
      with (logsOf (logs ++ tr ++ fanTail p r
                    ++ [EvAddAttribute p "Driver.End" (VTime (clock w (S (clockReads w))))])).
    unfold logsOf at 1. rewrite !omap_app. fold (logsOf tr).
    assert (Htail : omap (fun e => match e with EvLog lvl msg => Some (lvl, msg) | _ => None end)
                      (fanTail p r) = []) by (by destruct r).
    rewrite Htail. simpl. rewrite app_nil_r, filter_app.
    assert (Hdebug : filter (fun l : Level * string => l.1 = LevelError)
                       (omap (fun e => match e with
                                       | EvLog lvl msg => Some (lvl, msg) | _ => None end)
                          logs) = []).
    { rewrite Hlogs. by destruct (IsVerboseEnabled en). }
    rewrite Hdebug. simpl.
    rewrite (GeckoEngine_fan_logs _ _ _ _ Hshape).
    generalize (filter (fun c : Driver * Outcome => isError c.2 = true) (driverCalls p tr)).
    intros l. induction l as [|c l IH]; [done|].
    rewrite fmap_cons, filter_cons_True by done. by rewrite IH. }
  split.
  - intros Hno. destruct (Hall Hno) as [-> Heq]. split; [done|].
    rewrite Hsends, Hd, Hres. by simpl.
  - intros d v Hin. rewrite (Hpanic d v Hin) in *.
    rewrite Hsends, Hd, Hres. by simpl.
Qed.


(** * The further statements at work *)

(** No interceptor of the priority engine and no driver of the drop
    engine is registered for the topic "z". *)
Lemma interceptor_stage_pass_through_witness :
  sessions (world "z") !! 0%nat = Some (session "z") /\
  interceptorsFor priorityEngine (topic (session "z")) = [] /\
  (let run := handleInterceptor priorityEngine 0%nat (world "z") in
   result run = Ok tt /\
   interceptorCalls 0%nat (trace run) = [] /\
   sendsOf (trace run) = [(StageLv1, 0%nat)] /\
   dispatcher (final run) = enqueue StageLv1 0%nat (dispatcher (world "z")) /\
   sessions (final run) !! 0%nat =
     Some (setAttributes (session "z")
             (<["Interceptor.End" :=
                  VDuration (clock (world "z") (S (clockReads (world "z")))
                             - timestamp (session "z"))]>
                (<["Interceptor.Start" := VTime (clock (world "z") (clockReads (world "z")))]>
                   (attributes (session "z")))))).
Proof.
  split; [reflexivity|]. split; [reflexivity|].
  exact (interceptor_stage_pass_through priorityEngine 0%nat (world "z") (session "z")
           eq_refl eq_refl).
Defined.

Lemma driver_stage_pass_through_witness :
  sessions (world "z") !! 0%nat = Some (session "z") /\
  driversFor dropEngine (topic (session "z")) = [] /\
  (let run := handleDriver dropEngine 0%nat (world "z") in
   result run = Ok tt /\
   driverCalls 0%nat (trace run) = [] /\
   sendsOf (trace run) = [(StageLv2, 0%nat)] /\
   dispatcher (final run) = enqueue StageLv2 0%nat (dispatcher (world "z")) /\
   sessions (final run) !! 0%nat =
     Some (setAttributes (session "z")
             (<["Driver.End" :=
                  VDuration (clock (world "z") (S (clockReads (world "z")))
                             - timestamp (session "z"))]>
                (<["Driver.Start" := VTime (clock (world "z") (clockReads (world "z")))]>
                   (attributes (session "z")))))).
Proof.
  split; [reflexivity|]. split; [reflexivity|].
  exact (driver_stage_pass_through dropEngine 0%nat (world "z") (session "z")
           eq_refl eq_refl).
Defined.



Lemma failed_Open_leaves_client_unopened_witness :
  network.conn (network.sampleClient "udp" "bad") = None /\
  network.Open network.sampleNet (network.sampleClient "udp" "bad") =
    (Some (network.errors_WithMessage (network.net_Error "no such host")
             "Resolve udp address failed"),
     network.sampleClient "udp" "bad", [network.CallResolveUDPAddr "udp" "bad"]) /\
  network.Send network.sampleNet 1000 (network.sampleClient "udp" "bad") [1; 2] =
    (0, Some (network.errors_New "Client connection is not ready"),
     network.sampleClient "udp" "bad", []) /\
  network.Receive network.sampleNet 1000 (network.sampleClient "udp" "bad") [0; 0] =
    ([0; 0], 0, Some (network.errors_New "Client connection is not ready"),
     network.sampleClient "udp" "bad", []) /\
  network.Close network.sampleNet (network.sampleClient "udp" "bad") =
    (None, network.sampleClient "udp" "bad", []).
Proof.
  split; [reflexivity|]. split; [reflexivity|].
  exact (failed_Open_leaves_client_unopened network.sampleNet 1000
           (network.sampleClient "udp" "bad") _ _ _ [0; 0] [1; 2] eq_refl eq_refl).
Defined.

Lemma Send_after_Open_witness :
  network.Open network.sampleNet (network.sampleClient "tcp" "good") =
    (None, network.withConn (network.sampleClient "tcp" "good") 1%nat,
     [network.CallDial "tcp" "good"]) /\
  exists c,
    network.conn (network.withConn (network.sampleClient "tcp" "good") 1%nat) = Some c /\
    let deadline :=
      1000 + network.SocketConfig_WriteTimeout
               (network.config (network.sampleClient "tcp" "good")) in
    network.Send network.sampleNet 1000
        (network.withConn (network.sampleClient "tcp" "good") 1%nat) [1; 2; 3] =
      match network.Conn_SetWriteDeadline network.sampleNet c deadline with
      | Some err =>
          (0, Some (network.errors_WithMessage err "Set write timeout failed"),
           network.withConn (network.sampleClient "tcp" "good") 1%nat,
           [network.CallSetWriteDeadline c deadline])
      | None =>
          ((network.Conn_Write network.sampleNet c [1; 2; 3]).1,
           (network.Conn_Write network.sampleNet c [1; 2; 3]).2,
           network.withConn (network.sampleClient "tcp" "good") 1%nat,
           [network.CallSetWriteDeadline c deadline; network.CallWrite c [1; 2; 3]])
      end.
Proof.
  split; [reflexivity|].
  exact (Send_after_Open network.sampleNet 1000 (network.sampleClient "tcp" "good")
           _ _ [1; 2; 3] eq_refl).
Defined.

Example sample_send_values :
  network.Send network.sampleNet 1000
    (network.withConn (network.sampleClient "tcp" "good") 1%nat) [1; 2; 3] =
  (3, None, network.withConn (network.sampleClient "tcp" "good") 1%nat,
   [network.CallSetWriteDeadline 1%nat 1050; network.CallWrite 1%nat [1; 2; 3]]).
Proof. reflexivity. Qed.

Lemma Receive_after_Open_witness :
  network.Open network.sampleNet (network.sampleClient "udp" "good") =
    (None, network.withConn (network.sampleClient "udp" "good") 2%nat,
     [network.CallResolveUDPAddr "udp" "good"; network.CallDialUDP "udp" "10.0.0.1:9"]) /\
  exists c,
    network.conn (network.withConn (network.sampleClient "udp" "good") 2%nat) = Some c /\
    let deadline :=
      1000 + network.SocketConfig_ReadTimeout
               (network.config (network.sampleClient "udp" "good")) in
    network.Receive network.sampleNet 1000
        (network.withConn (network.sampleClient "udp" "good") 2%nat) [0; 0] =
      match network.Conn_SetReadDeadline network.sampleNet c deadline with
      | Some err =>
          ([0; 0], 0, Some (network.errors_WithMessage err "Set read timeout failed"),
           network.withConn (network.sampleClient "udp" "good") 2%nat,
           [network.CallSetReadDeadline c deadline])
      | None =>
          ((network.Conn_Read network.sampleNet c [0; 0]).1.1,
           (network.Conn_Read network.sampleNet c [0; 0]).1.2,
           (network.Conn_Read network.sampleNet c [0; 0]).2,
           network.withConn (network.sampleClient "udp" "good") 2%nat,
           [network.CallSetReadDeadline c deadline; network.CallRead c])
      end.
Proof.
  split; [reflexivity|].
  exact (Receive_after_Open network.sampleNet 1000 (network.sampleClient "udp" "good")
           _ _ [0; 0] eq_refl).
Defined.

Lemma Close_keeps_the_connection_witness :
  network.conn (network.withConn (network.sampleClient "tcp" "good") 7%nat) = Some 7%nat /\
  network.Close network.sampleNet (network.withConn (network.sampleClient "tcp" "good") 7%nat) =
    (network.Conn_Close network.sampleNet 7%nat,
     network.withConn (network.sampleClient "tcp" "good") 7%nat, [network.CallClose 7%nat]) /\
  (forall s1,
     s1 = (network.Close network.sampleNet
             (network.withConn (network.sampleClient "tcp" "good") 7%nat)).1.2 ->
     network.Close network.sampleNet s1 =
       (network.Conn_Close network.sampleNet 7%nat,
        network.withConn (network.sampleClient "tcp" "good") 7%nat,
        [network.CallClose 7%nat]) /\
     exists rest,
       (network.Send network.sampleNet 1000 s1 [1]).2 =
         network.CallSetWriteDeadline 7%nat
           (1000 + network.SocketConfig_WriteTimeout
                     (network.config
                        (network.withConn (network.sampleClient "tcp" "good") 7%nat)))
         :: rest).
Proof.
  split; [reflexivity|].
  exact (Close_keeps_the_connection network.sampleNet 1000
           (network.withConn (network.sampleClient "tcp" "good") 7%nat) 7%nat [1] eq_refl).
Defined.

(** The drop engine, whose hooks return. *)
Lemma Start_brackets_calls_with_hooks_witness :
  allReturn hook_panics (startBeforeHooks lifecycleEngine) = true /\
  (EvShutdown ∉ trace (Start lifecycleEngine emptyWorld)) /\
  exists calls,
    forallb isLifecycle calls = true /\
    trace (Start lifecycleEngine emptyWorld) =
      EvLog LevelInfo "Engine starting..."
      :: map (fun h => EvHook (hookName h)) (startBeforeHooks lifecycleEngine) ++ calls
      ++ map (fun h => EvHook (hookName h))
           (issued hook_panics (startAfterHooks lifecycleEngine))
      ++ (if allReturn hook_panics (startAfterHooks lifecycleEngine)
          then [EvLog LevelInfo "Engine starting...OK"] else []).
Proof.
  split; [reflexivity|].
  split; [exact (proj1 (Start_brackets_calls_with_hooks lifecycleEngine emptyWorld))|].
  exact (proj2 (Start_brackets_calls_with_hooks lifecycleEngine emptyWorld) eq_refl).
Defined.

(** The engine whose first trigger panics in [OnStop] but whose hooks
    return, and the engine whose stop-after hook panics. *)
Lemma Stop_signals_shutdown_last_witness :
  allReturn hook_panics (stopBeforeHooks lifecycleEngine) = true /\
  allReturn hook_panics (stopAfterHooks lifecycleEngine) = true /\
  allReturn stepPanics (stopSteps lifecycleEngine) = false /\
  allReturn hook_panics (stopAfterHooks hookedEngine) = false /\
  (exists calls,
     forallb isLifecycle calls = true /\
     trace (Stop lifecycleEngine emptyWorld) =
       EvLog LevelInfo "Engine stopping..."
       :: map (fun h => EvHook (hookName h)) (stopBeforeHooks lifecycleEngine) ++ calls
       ++ map (fun h => EvHook (hookName h)) (stopAfterHooks lifecycleEngine)
       ++ [EvShutdown; EvLog LevelInfo "Engine stopping...OK"]) /\
  (EvShutdown ∉ trace (Stop hookedEngine emptyWorld)) /\
  exists v, result (Stop hookedEngine emptyWorld) = Panicked v.
Proof.
  do 4 (split; [reflexivity|]).
  split.
  - exact (proj1 (Stop_signals_shutdown_last lifecycleEngine emptyWorld) eq_refl eq_refl).
  - exact (proj2 (Stop_signals_shutdown_last hookedEngine emptyWorld) (or_intror eq_refl)).
Defined.

(** The interceptors of the priority engine are registered with the
    priorities 10, 5, 20: the earlier engine calls them in that order. *)
Lemma GeckoEngine_interceptors_in_registration_order_witness :
  sessions (world "x") !! 0%nat = Some (session "x") /\
  (let run := GeckoEngine.handleInterceptor priorityEngine 0%nat (world "x") in
   let calls := interceptorCalls 0%nat (trace run) in
   Forall (fun c => exists e, c.2 = Returns e /\ e <> Some ErrInterceptorDropped) calls /\
   map GetPriority calls.*1 = [10; 5; 20] /\
   calls.*1 = interceptorsFor priorityEngine (topic (session "x")) /\
   sendsOf (trace run) = [(StageLv1, 0%nat)] /\
   dispatcher (final run) = enqueue StageLv1 0%nat (dispatcher (world "x")) /\
   result run = Ok tt).
Proof.
  assert (Hall : Forall (fun c => exists e, c.2 = Returns e /\ e <> Some ErrInterceptorDropped)
                   (interceptorCalls 0%nat
                      (trace (GeckoEngine.handleInterceptor priorityEngine 0%nat (world "x"))))).
  { vm_compute.
    repeat (constructor; [eexists; split; [reflexivity|intros ?; discriminate]|]).
    constructor. }
  split; [reflexivity|]. split; [exact Hall|]. split; [vm_compute; reflexivity|].
  exact (proj2 (GeckoEngine_interceptors_in_registration_order priorityEngine 0%nat
                  (world "x") (session "x") eq_refl) Hall).
Defined.

Lemma GeckoEngine_drop_goes_to_output_witness :
  sessions (world "x") !! 0%nat = Some (session "x") /\
  (dropping, Returns (Some ErrInterceptorDropped))
    ∈ interceptorCalls 0%nat (trace (GeckoEngine.handleInterceptor dropEngine 0%nat (world "x"))) /\
  (let run := GeckoEngine.handleInterceptor dropEngine 0%nat (world "x") in
   (exists before,
      interceptorCalls 0%nat (trace run)
        = before ++ [(dropping, Returns (Some ErrInterceptorDropped))]) /\
   EvLog LevelError "interceptor dropped the event" ∈ trace run /\
   sendsOf (trace run) = [(StageLv2, 0%nat)] /\
   dispatcher (final run) = enqueue StageLv2 0%nat (dispatcher (world "x")) /\
   result run = Ok tt /\
   exists s', sessions (final run) !! 0%nat = Some s' /\
     Outbound_Data (outbound s') !! "error" = Some (VString "InterceptorDropped")).
Proof.
  assert (Hin : (dropping, Returns (Some ErrInterceptorDropped))
                  ∈ interceptorCalls 0%nat
                      (trace (GeckoEngine.handleInterceptor dropEngine 0%nat (world "x")))).
  { vm_compute. apply list_elem_of_here. }
  split; [reflexivity|]. split; [exact Hin|].
  exact (GeckoEngine_drop_goes_to_output dropEngine 0%nat (world "x") (session "x") dropping
           eq_refl Hin).
Defined.

Lemma GeckoEngine_panic_is_not_recovered_witness :
  sessions (world "x") !! 0%nat = Some (session "x") /\
  (panicking, Panics (PanicOther (VString "boom")))
    ∈ interceptorCalls 0%nat (trace (GeckoEngine.handleInterceptor panicEngine 0%nat (world "x"))) /\
  (let run := GeckoEngine.handleInterceptor panicEngine 0%nat (world "x") in
   result run = Panicked (PanicOther (VString "boom")) /\
   sendsOf (trace run) = [] /\
   dispatcher (final run) = dispatcher (world "x") /\
   (exists before,
      trace run = before ++ [EvAddAttribute 0%nat "Interceptor.End"
                               (VTime (clock (world "x") (S (clockReads (world "x")))))]) /\
   exists s', sessions (final run) !! 0%nat = Some s' /\
     attributes s' !! "Interceptor.End"
       = Some (VTime (clock (world "x") (S (clockReads (world "x")))))).
Proof.
  assert (Hin : (panicking, Panics (PanicOther (VString "boom")))
                  ∈ interceptorCalls 0%nat
                      (trace (GeckoEngine.handleInterceptor panicEngine 0%nat (world "x")))).
  { vm_compute. apply list_elem_of_here. }
  destruct (GeckoEngine_panic_is_not_recovered panicEngine 0%nat (world "x") (session "x")
              eq_refl) as (Hpanic & Hend & Hattr).
  destruct (Hpanic _ _ Hin) as (Hres & Hsends & Hdisp).
  split; [reflexivity|]. split; [exact Hin|].
  split; [exact Hres|]. split; [exact Hsends|]. split; [exact Hdisp|].
  split; [exact Hend|exact Hattr].
Defined.

(** The fail-fast switch is on: the earlier engine does not read it, so
    driver A's error is logged and driver B is called all the same. *)
Lemma GeckoEngine_drivers_fan_out_witness :
  sessions (world "x") !! 0%nat = Some (session "x") /\
  IsFailFastEnabled (fanOutEngine true) = true /\
  (let run := GeckoEngine.handleDrivers (fanOutEngine true) 0%nat (world "x") in
   let calls := driverCalls 0%nat (trace run) in
   Forall (fun c => isPanics c.2 = false) calls /\
   map (fun c => (className (Driver_lifecycle c.1), c.2)) calls
     = [("A", Returns (Some (ErrOther "unreachable"))); ("B", Returns None)] /\
   filter (fun l => l.1 = LevelError) (logsOf (trace run)) = [(LevelError, "driver error")] /\
   calls.*1 = driversFor (fanOutEngine true) (topic (session "x")) /\
   sendsOf (trace run) = [(StageLv2, 0%nat)] /\
   dispatcher (final run) = enqueue StageLv2 0%nat (dispatcher (world "x")) /\
   result run = Ok tt).
Proof.
  assert (Hall : Forall (fun c => isPanics c.2 = false)
                   (driverCalls 0%nat
                      (trace (GeckoEngine.handleDrivers (fanOutEngine true) 0%nat (world "x"))))).
  { vm_compute. repeat constructor. }
  destruct (GeckoEngine_drivers_fan_out (fanOutEngine true) 0%nat (world "x") (session "x")
              eq_refl) as (_ & Hlogs & Hfull & _).
  split; [reflexivity|]. split; [reflexivity|]. split; [exact Hall|].
  split; [vm_compute; reflexivity|].
  split; [exact (eq_trans Hlogs eq_refl)|].
  exact (Hfull Hall).
Defined.
